(** * ascii-vid-gen: the frame-to-ASCII pipeline and its export loops

    A shallow embedding of [lib/ascii-converter.ts] (the sampler, the colour
    math and the glyph mapper), of the gradient-stop handlers of
    [components/control-panel.tsx] and of [exportAsGIF], [handleExport],
    [renderGifFrame], [renderFrame] and [animate] in
    [components/ascii-preview.tsx], followed by the properties of the
    specification that concern them and by further properties of the code.

    JavaScript numbers are kept abstract behind the class [Js.Number], so each
    function is written once, the way the source writes it, and read at two
    arithmetics: [Js.Exact] (rationals, no rounding) for the general
    theorems, and [Js.IEEE] (the kernel's binary64 floats, the arithmetic a
    JavaScript engine runs) for evaluating the code at concrete inputs. *)

From Stdlib Require Import ZArith QArith Qround Qabs Qminmax Lia Lra Psatz.
From Stdlib Require Import List String Ascii Bool HexadecimalString.
From Stdlib Require Import Floats.PrimFloat Floats.FloatOps Floats.SpecFloat Uint63.
Import ListNotations.

Open Scope string_scope.
Open Scope Z_scope.

(* ================================================================== *)
(** * JavaScript values *)
(* ================================================================== *)

Module Js.

(** ** Numbers

    The operations the sources apply to values of type [number].  [floor],
    [ceil] and [round] return the integer as a [Z]: the sources use the
    results as loop bounds, array indices and pixel coordinates only.
    [truthy] is ToBoolean, as used by [||]. *)
Class Number (num : Type) : Type := {
  ofZ : Z -> num;
  add : num -> num -> num;
  sub : num -> num -> num;
  mul : num -> num -> num;
  div : num -> num -> num;
  ltb : num -> num -> bool;
  truthy : num -> bool;
  min : num -> num -> num;
  max : num -> num -> num;
  abs : num -> num;
  floor : num -> Z;
  ceil : num -> Z;
  round : num -> Z
}.

(** A decimal literal of the source, [0.299] say, given as the fraction
    [299/1000].  Division is correctly rounded in binary64, so at [IEEE] this
    is the double the literal denotes; at [Exact] it is the fraction. *)
Definition lit {num} `{Number num} (q : Q) : num :=
  div (ofZ (Qnum q)) (ofZ (Zpos (Qden q))).

(** *** Exact arithmetic

    The operations over the rationals, without rounding.  A theorem proved
    at this instance says what the code computes up to the rounding of
    doubles; where that rounding changes a result, the statement concerned
    says so and shows it at [IEEE]. *)

Definition Qltb (a b : Q) : bool := negb (Qle_bool b a).

(** [Math.round] rounds half-way cases up: [floor (x + 1/2)]. *)
Definition Qround_half_up (x : Q) : Z := Qfloor (x + (1 # 2)).

#[export] Instance Exact : Number Q := {
  ofZ := inject_Z;
  add := Qplus;
  sub := Qminus;
  mul := Qmult;
  div := Qdiv;
  ltb := Qltb;
  truthy x := negb (Qeq_bool x 0);
  min := Qmin;
  max := Qmax;
  abs := Qabs;
  floor := Qfloor;
  ceil := Qceiling;
  round := Qround_half_up
}.

(** *** IEEE 754 binary64

    Integers below 2^53 in magnitude convert exactly.  The integer-valued
    operations read the float's exact value [(-1)^s * m * 2^e].  On a NaN or
    an infinity they answer 0, where [Math.floor], [Math.ceil] and
    [Math.round] hand the NaN or the infinity back (a loop bounded by
    [Math.floor(Infinity)] never ends): what is read at this instance below
    keeps to finite values, or holds whatever these operations answer. *)

Definition float_ofZ (z : Z) : float :=
  match z with
  | Z0 => PrimFloat.zero
  | Zpos _ => PrimFloat.of_uint63 (Uint63.of_Z z)
  | Zneg p => PrimFloat.opp (PrimFloat.of_uint63 (Uint63.of_Z (Zpos p)))
  end.

Definition signed (s : bool) (m : positive) : Z := if s then Zneg m else Zpos m.

Definition spec_floor (x : spec_float) : Z :=
  match x with
  | S754_finite s m e =>
      if 0 <=? e then Z.shiftl (signed s m) e else Z.shiftr (signed s m) (- e)
  | _ => 0
  end.

(** [floor (x + 1/2)] on the exact value, so that the sum is not rounded. *)
Definition spec_round (x : spec_float) : Z :=
  match x with
  | S754_finite s m e =>
      if 0 <=? e + 1 then Z.shiftr (Z.shiftl (signed s m) (e + 1) + 1) 1
      else Z.shiftr (signed s m + Z.shiftl 1 (- (e + 1))) (- e)
  | _ => 0
  end.

Definition float_min (a b : float) : float :=
  if PrimFloat.is_nan a || PrimFloat.is_nan b then PrimFloat.nan
  else if PrimFloat.ltb b a then b else a.

Definition float_max (a b : float) : float :=
  if PrimFloat.is_nan a || PrimFloat.is_nan b then PrimFloat.nan
  else if PrimFloat.ltb a b then b else a.

#[export] Instance IEEE : Number float := {
  ofZ := float_ofZ;
  add := PrimFloat.add;
  sub := PrimFloat.sub;
  mul := PrimFloat.mul;
  div := PrimFloat.div;
  ltb := PrimFloat.ltb;
  truthy x := negb (PrimFloat.is_nan x || PrimFloat.is_zero x);
  min := float_min;
  max := float_max;
  abs := PrimFloat.abs;
  floor x := spec_floor (Prim2SF x);
  ceil x := - spec_floor (Prim2SF (PrimFloat.opp x));
  round x := spec_round (Prim2SF x)
}.

(** ** Loops

    [for (let i = 0; i < bound && guard(i); i++) body(i)] over a state [S]:
    at most [bound] rounds, stopping at the first index the guard refuses. *)
Fixpoint for_from {S : Type} (n : nat) (i : Z) (guard : Z -> bool)
    (body : Z -> S -> S) (s : S) : S :=
  match n with
  | O => s
  | Datatypes.S n' =>
      if guard i then for_from n' (i + 1) guard body (body i s) else s
  end.

Definition for_lt {S : Type} (bound : Z) (guard : Z -> bool)
    (body : Z -> S -> S) (s : S) : S :=
  for_from (Z.to_nat bound) 0 guard body s.

Definition always (_ : Z) : bool := true.

(** ** Arrays and strings

    A [string[]] is a list of strings; a string is a [string] of 8-bit
    characters, one per code unit, which covers the hex colours and the ASCII
    ramps. *)

(** [a[i]]: [None] is [undefined]. *)
Definition get {A : Type} (a : list A) (i : Z) : option A :=
  if i <? 0 then None else nth_error a (Z.to_nat i).

Definition len {A : Type} (a : list A) : Z := Z.of_nat (List.length a).

(** [a.filter((_, i) => keep(i))]. *)
Fixpoint filter_index {A : Type} (keep : Z -> bool) (i : Z) (a : list A) : list A :=
  match a with
  | [] => []
  | v :: a' =>
      if keep i then v :: filter_index keep (i + 1) a'
      else filter_index keep (i + 1) a'
  end.

(** [a[i] = v] on a copy of a [string[]].  A negative index names a property
    and leaves the elements alone; the index just past the end appends; a
    larger one would leave empty slots, which a list of strings cannot hold:
    [None]. *)
Fixpoint set_nth {A : Type} (n : nat) (v : A) (a : list A) : list A :=
  match a, n with
  | [], _ => []
  | _ :: a', O => v :: a'
  | w :: a', Datatypes.S n' => w :: set_nth n' v a'
  end.

Definition assign {A : Type} (a : list A) (i : Z) (v : A) : option (list A) :=
  if i <? 0 then Some a
  else if i <? len a then Some (set_nth (Z.to_nat i) v a)
  else if i =? len a then Some (a ++ [v])%list
  else None.

(** ToString of a [string | undefined]. *)
Definition toStr (v : option string) : string :=
  match v with
  | Some s => s
  | None => "undefined"
  end.

(** [s.length] and [s[i]] read as a one-character string ([""] outside the
    string, where JavaScript answers [undefined]; the glyph mapper clamps its
    index first). *)
Definition slen (s : string) : Z := Z.of_nat (String.length s).

Definition charAt (s : string) (i : Z) : string :=
  if i <? 0 then "" else String.substring (Z.to_nat i) 1 s.

(** [x.toString(16)] for an integer [x]. *)
Definition toString16 (x : Z) : string := NilZero.string_of_int (Z.to_hex_int x).

Fixpoint repeat_char (c : ascii) (n : nat) : string :=
  match n with
  | O => ""
  | Datatypes.S n' => String c (repeat_char c n')
  end.

(** [s.padStart(n, c)] with a one-character filler. *)
Definition padStart (n : nat) (c : ascii) (s : string) : string :=
  repeat_char c (n - String.length s) ++ s.

Definition hexDigit (c : ascii) : option Z :=
  let n := Z.of_N (N_of_ascii c) in
  if (48 <=? n) && (n <=? 57) then Some (n - 48)
  else if (97 <=? n) && (n <=? 102) then Some (n - 87)
  else if (65 <=? n) && (n <=? 70) then Some (n - 55)
  else None.

(** [parseInt(s, 16)] on a string of hexadecimal digits (the only strings it
    is given here are the two-digit captures of [hexToRgb]'s pattern): the
    digits up to the first character that is not one. *)
Fixpoint parseHexFrom (acc : Z) (s : string) : Z :=
  match s with
  | EmptyString => acc
  | String c s' =>
      match hexDigit c with
      | Some d => parseHexFrom (16 * acc + d) s'
      | None => acc
      end
  end.

Definition parseInt16 (s : string) : Z := parseHexFrom 0 s.

End Js.

(* ================================================================== *)
(** * The browser's canvas, as far as the sources use it *)
(* ================================================================== *)

Module Dom.
Import Js.

(** A canvas that is read back pixel by pixel: its size and its RGBA bytes,
    row by row. *)
Record Canvas : Type := {
  cwidth : Z;
  cheight : Z;
  cdata : list Z
}.

Definition inside (c : Canvas) (x y : Z) : bool :=
  (0 <=? x) && (x <? cwidth c) && (0 <=? y) && (y <? cheight c).

(** Channel [k] of the pixel at [(x, y)]; transparent black off the canvas. *)
Definition canvasByte (c : Canvas) (x y k : Z) : Z :=
  if inside c x y then nth (Z.to_nat (4 * (y * cwidth c + x) + k)) (cdata c) 0
  else 0.

Definition upto (n : Z) : list Z := map Z.of_nat (seq 0 (Z.to_nat n)).

Definition rgbaBuffer (w h : Z) (f : Z -> Z -> Z -> Z) : list Z :=
  flat_map (fun y => flat_map (fun x => map (f x y) [0; 1; 2; 3]) (upto w)) (upto h).

(** [ctx.getImageData(0, 0, sw, sh).data]; an IndexSizeError ([None]) when a
    side is zero.  A negative side takes the rectangle on the other side of
    the origin, which lies off the canvas. *)
Definition getImageData (c : Canvas) (sw sh : Z) : option (list Z) :=
  if (sw =? 0) || (sh =? 0) then None
  else Some (rgbaBuffer (Z.abs sw) (Z.abs sh)
               (fun x y k => canvasByte c (if sw <? 0 then x + sw else x)
                                          (if sh <? 0 then y + sh else y) k)).

Definition repaint (c : Canvas) (f : Z -> Z -> Z -> Z) : Canvas :=
  {| cwidth := cwidth c; cheight := cheight c;
     cdata := rgbaBuffer (cwidth c) (cheight c) f |}.

(** [ctx.clearRect(0, 0, w, h)]. *)
Definition clearRect (c : Canvas) (w h : Z) : Canvas :=
  repaint c (fun x y k => if (x <? w) && (y <? h) then 0 else canvasByte c x y k).

(** [new ImageData(data, sw, sh)] accepts [data] when it holds [sw * sh]
    pixels, with neither side zero. *)
Definition validImageData (data : list Z) (sw sh : Z) : bool :=
  (0 <? sw) && (0 <? sh) && (len data =? 4 * sw * sh).

(** [ctx.putImageData(new ImageData(data, sw, sh), dx, dy)]: the patch
    replaces the pixels it covers. *)
Definition putImageData (c : Canvas) (data : list Z) (sw sh dx dy : Z) : Canvas :=
  repaint c (fun x y k =>
    if (dx <=? x) && (x <? dx + sw) && (dy <=? y) && (y <? dy + sh)
    then nth (Z.to_nat (4 * ((y - dy) * sw + (x - dx)) + k)) data 0
    else canvasByte c x y k).

(** [canvas.width = v] converts [v] to an unsigned 32-bit integer (a result
    above 2147483647 is replaced by the default side), so the canvas gets a
    side of zero exactly when [v] is a multiple of 2^32, 0 first of all. *)
Definition zeroSide (v : Z) : bool := v mod 4294967296 =? 0.

(** [ctx.drawImage(canvas, 0, 0)] throws an InvalidStateError when the
    canvas it is given has a side of zero. *)
Definition drawableCanvas (w h : Z) : bool := negb (zeroSide w || zeroSide h).

(** A canvas that is only drawn on is kept as the list of the calls made on
    its context, oldest first; its pixels are the browser's rendering of them. *)
Inductive DrawOp (num : Type) : Type :=
  | ClearRect (x y w h : Z)
  | SetFillStyle (style : string)
  | FillRect (x y w h : Z)
  | SetFont (px : num)
  | SetTextBaseline (v : string)
  | SetTextAlign (v : string)
  | FillText (text : string) (x y : num).

Arguments ClearRect {num} x y w h.
Arguments SetFillStyle {num} style.
Arguments FillRect {num} x y w h.
Arguments SetFont {num} px.
Arguments SetTextBaseline {num} v.
Arguments SetTextAlign {num} v.
Arguments FillText {num} text x y.

Definition Drawing (num : Type) : Type := list (DrawOp num).

End Dom.

(* ================================================================== *)
(** * lib/ascii-converter.ts *)
(* ================================================================== *)

Module AsciiConverter.
Import Js Dom.

Inductive ColorMode : Type := Original | Monochrome | Gradient | Custom.

Inductive BlendMode : Type := Normal | Multiply | Screen | Overlay | Difference.

Record ASCIISettings (num : Type) : Type := {
  characterSet : string;
  pixelSize : num;
  colorMode : ColorMode;
  monochromeColor : string;
  gradientColors : list string;
  backgroundColor : string;
  transparentBackground : bool;
  blendMode : BlendMode;
  contrast : num;
  brightness : num;
  invert : bool;
  fontSize : num
}.

Arguments characterSet {num} _.
Arguments pixelSize {num} _.
Arguments colorMode {num} _.
Arguments monochromeColor {num} _.
Arguments gradientColors {num} _.
Arguments backgroundColor {num} _.
Arguments transparentBackground {num} _.
Arguments blendMode {num} _.
Arguments contrast {num} _.
Arguments brightness {num} _.
Arguments invert {num} _.
Arguments fontSize {num} _.

Record RGB (A : Type) : Type := { r : A; g : A; b : A }.

Arguments r {A} _.
Arguments g {A} _.
Arguments b {A} _.

Record ASCIIChar : Type := {
  char : string;
  color : string;
  x : Z;
  y : Z
}.

Definition isHexDigit (c : ascii) : bool :=
  match hexDigit c with
  | Some _ => true
  | None => false
  end.

(** [/^#?([a-f\d]{2})([a-f\d]{2})([a-f\d]{2})$/i.exec(hex)]: the three
    captures, or [None] for [null]. *)
Definition stripHash (hex : string) : string :=
  match hex with
  | String "#" rest => rest
  | _ => hex
  end.

Definition hexPattern (hex : string) : option (string * string * string) :=
  match stripHash hex with
  | String c1 (String c2 (String c3 (String c4 (String c5 (String c6 EmptyString))))) =>
      if forallb isHexDigit [c1; c2; c3; c4; c5; c6]
      then Some (String c1 (String c2 ""), String c3 (String c4 ""), String c5 (String c6 ""))
      else None
  | _ => None
  end.

Definition hexToRgb (hex : string) : RGB Z :=
  match hexPattern hex with
  | Some (r1, g1, b1) =>
      {| r := parseInt16 r1; g := parseInt16 g1; b := parseInt16 b1 |}
  | None => {| r := 255; g := 255; b := 255 |}
  end.

Definition rgbToHex (r g b : Z) : string :=
  "#" ++ String.concat "" (map (fun x => padStart 2 "0" (toString16 x)) [r; g; b]).

(** [asciiChars[0]] where the grid is known not to be empty. *)
Definition toRow (v : option (list ASCIIChar)) : list ASCIIChar :=
  match v with
  | Some row => row
  | None => []
  end.

Section WithNumber.
Context {num : Type} `{Number num}.

Definition DEFAULT_SETTINGS : ASCIISettings num := {|
  characterSet := ".:-=+*#%@";
  pixelSize := ofZ 8;
  colorMode := Original;
  monochromeColor := "#00ff88";
  gradientColors := ["#00ff88"; "#ff00ff"; "#00ffff"];
  backgroundColor := "#0a0a0f";
  transparentBackground := false;
  blendMode := Normal;
  contrast := ofZ 1;
  brightness := ofZ 1;
  invert := false;
  fontSize := ofZ 10
|}.

Definition CHAR_ASPECT_RATIO : num := lit (6 # 10).

Definition rgbToGrayscale (r g b : num) : num :=
  add (add (mul (lit (299 # 1000)) r) (mul (lit (587 # 1000)) g))
      (mul (lit (114 # 1000)) b).

Definition applyBrightness (value brightness : num) : num :=
  min (ofZ 255) (max (ofZ 0) (mul value brightness)).

Definition applyContrast (value contrast : num) : num :=
  if ltb (abs (sub contrast (ofZ 1))) (lit (1 # 1000)) then value
  else
    let adjusted := add (mul (sub value (ofZ 128)) contrast) (ofZ 128) in
    min (ofZ 255) (max (ofZ 0) adjusted).

Definition getCharacterForBrightness (brightness : num) (characterSet : string)
    (invert : bool) : string :=
  if slen characterSet =? 0 then " "
  else if slen characterSet =? 1 then charAt characterSet 0
  else
    let normalizedBrightness :=
      div (min (ofZ 255) (max (ofZ 0) brightness)) (ofZ 255) in
    let adjustedBrightness :=
      if invert then sub (ofZ 1) normalizedBrightness else normalizedBrightness in
    let index := round (mul adjustedBrightness (ofZ (slen characterSet - 1))) in
    charAt characterSet (Z.min (Z.max 0 index) (slen characterSet - 1)).

(** The two early returns and [colors[colors.length - 1]] read a slot that
    exists; the interpolated stops are read with [get], since a negative
    position indexes before the array and [hexToRgb] then sees [undefined]. *)
Definition interpolateGradient (colors : list string) (position : num) : string :=
  if len colors =? 0 then "#ffffff"
  else if len colors =? 1 then toStr (get colors 0)
  else
    let scaledPosition := mul position (ofZ (len colors - 1)) in
    let index := floor scaledPosition in
    let t := sub scaledPosition (ofZ index) in
    if len colors - 1 <=? index then toStr (get colors (len colors - 1))
    else
      let color1 := hexToRgb (toStr (get colors index)) in
      let color2 := hexToRgb (toStr (get colors (index + 1))) in
      let r := round (add (ofZ (r color1)) (mul (sub (ofZ (r color2)) (ofZ (r color1))) t)) in
      let g := round (add (ofZ (g color1)) (mul (sub (ofZ (g color2)) (ofZ (g color1))) t)) in
      let b := round (add (ofZ (b color1)) (mul (sub (ofZ (b color2)) (ofZ (b color1))) t)) in
      rgbToHex r g b.

Definition applyBlendMode (sourceR sourceG sourceB : num) (mode : BlendMode) : RGB num :=
  match mode with
  | Multiply =>
      {| r := div (mul sourceR sourceR) (ofZ 255);
         g := div (mul sourceG sourceG) (ofZ 255);
         b := div (mul sourceB sourceB) (ofZ 255) |}
  | Screen =>
      {| r := sub (ofZ 255) (div (mul (sub (ofZ 255) sourceR) (sub (ofZ 255) sourceR)) (ofZ 255));
         g := sub (ofZ 255) (div (mul (sub (ofZ 255) sourceG) (sub (ofZ 255) sourceG)) (ofZ 255));
         b := sub (ofZ 255) (div (mul (sub (ofZ 255) sourceB) (sub (ofZ 255) sourceB)) (ofZ 255)) |}
  | Overlay =>
      {| r := if ltb sourceR (ofZ 128)
              then div (mul (mul (ofZ 2) sourceR) sourceR) (ofZ 255)
              else sub (ofZ 255)
                     (div (mul (mul (ofZ 2) (sub (ofZ 255) sourceR)) (sub (ofZ 255) sourceR))
                          (ofZ 255));
         g := if ltb sourceG (ofZ 128)
              then div (mul (mul (ofZ 2) sourceG) sourceG) (ofZ 255)
              else sub (ofZ 255)
                     (div (mul (mul (ofZ 2) (sub (ofZ 255) sourceG)) (sub (ofZ 255) sourceG))
                          (ofZ 255));
         b := if ltb sourceB (ofZ 128)
              then div (mul (mul (ofZ 2) sourceB) sourceB) (ofZ 255)
              else sub (ofZ 255)
                     (div (mul (mul (ofZ 2) (sub (ofZ 255) sourceB)) (sub (ofZ 255) sourceB))
                          (ofZ 255)) |}
  | Difference =>
      {| r := abs (sub sourceR (ofZ 128));
         g := abs (sub sourceG (ofZ 128));
         b := abs (sub sourceB (ofZ 128)) |}
  | Normal => {| r := sourceR; g := sourceG; b := sourceB |}
  end.

(** ** The sampler *)

(** The two innermost loops of [convertFrameToASCII]: the channel totals and
    the pixel count of the block at [(pixelX, pixelY)].  The totals are sums
    of bytes, whole numbers that a double holds exactly, and are kept in [Z].
    [pixels[i]] is read with default 0; the loop guards keep [i] inside the
    buffer (lemma [pixel_index_in_buffer]). *)
Definition blockTotals (pixels : list Z) (width height pixelX pixelY : Z)
    (blockWidth blockHeight : Z) : Z * Z * Z * Z :=
  for_lt blockHeight (fun py => pixelY + py <? height)
    (fun py acc =>
       for_lt blockWidth (fun px => pixelX + px <? width)
         (fun px '(totalR, totalG, totalB, count) =>
            let i := ((pixelY + py) * width + (pixelX + px)) * 4 in
            (totalR + nth (Z.to_nat i) pixels 0,
             totalG + nth (Z.to_nat (i + 1)) pixels 0,
             totalB + nth (Z.to_nat (i + 2)) pixels 0,
             count + 1))
         acc)
    (0, 0, 0, 0).

(** The cell colour, from the averages as they stand after the blend step and
    from the final gray value. *)
Definition cellColor (settings : ASCIISettings num) (avgR avgG avgB gray : num) : string :=
  match colorMode settings with
  | Monochrome => monochromeColor settings
  | Gradient => interpolateGradient (gradientColors settings) (div gray (ofZ 255))
  | Custom => monochromeColor settings
  | Original => rgbToHex (round avgR) (round avgG) (round avgB)
  end.

(** The body of the loop over [x]: [None] is the [continue] taken when no
    pixel was counted. *)
Definition sampleCell (pixels : list Z) (width height : Z)
    (settings : ASCIISettings num) (x y : Z) : option ASCIIChar :=
  let stepX := pixelSize settings in
  let stepY := div (pixelSize settings) CHAR_ASPECT_RATIO in
  let pixelX := floor (mul (ofZ x) stepX) in
  let pixelY := floor (mul (ofZ y) stepY) in
  let blockWidth := ceil stepX in
  let blockHeight := ceil stepY in
  let '(totalR, totalG, totalB, count) :=
    blockTotals pixels width height pixelX pixelY blockWidth blockHeight in
  if count =? 0 then None
  else
    let avgR := div (ofZ totalR) (ofZ count) in
    let avgG := div (ofZ totalG) (ofZ count) in
    let avgB := div (ofZ totalB) (ofZ count) in
    let blended := applyBlendMode avgR avgG avgB (blendMode settings) in
    let avgR := r blended in
    let avgG := g blended in
    let avgB := b blended in
    let gray := rgbToGrayscale avgR avgG avgB in
    let gray := applyBrightness gray (brightness settings) in
    let gray := applyContrast gray (contrast settings) in
    let char := getCharacterForBrightness gray (characterSet settings) (invert settings) in
    let color := cellColor settings avgR avgG avgB gray in
    Some {| char := char; color := color; x := pixelX; y := pixelY |}.

Definition sampleRow (pixels : list Z) (width height : Z)
    (settings : ASCIISettings num) (cols y : Z) : list ASCIIChar :=
  for_lt cols always
    (fun x row =>
       match sampleCell pixels width height settings x y with
       | Some cell => row ++ [cell]
       | None => row
       end)%list
    [].

Definition gridCols (width : Z) (settings : ASCIISettings num) : Z :=
  floor (div (ofZ width) (pixelSize settings)).

Definition gridRows (height : Z) (settings : ASCIISettings num) : Z :=
  floor (div (ofZ height) (div (pixelSize settings) CHAR_ASPECT_RATIO)).

(** [None]: [getImageData] threw. *)
Definition convertFrameToASCII (ctx : Canvas) (width height : Z)
    (settings : ASCIISettings num) : option (list (list ASCIIChar)) :=
  match getImageData ctx width height with
  | None => None
  | Some pixels =>
      let cols := gridCols width settings in
      let rows := gridRows height settings in
      Some (for_lt rows always
              (fun y result =>
                 result ++ [sampleRow pixels width height settings cols y])%list
              [])
  end.

(** ** The renderer *)

(** One [fillText] per cell of a [rows] by [cols] grid; [None] is the
    TypeError of destructuring an [undefined] cell, which a row shorter than
    the first one yields. *)
Definition drawCells (asciiChars : list (list ASCIIChar)) (rows cols : Z)
    (cellWidth cellHeight : num) (outputCtx : Drawing num) : option (Drawing num) :=
  for_lt rows always
    (fun y acc =>
       for_lt cols always
         (fun x acc =>
            match acc with
            | None => None
            | Some ops =>
                match get asciiChars y with
                | None => None
                | Some row =>
                    match get row x with
                    | None => None
                    | Some cell =>
                        Some (ops ++ [SetFillStyle (color cell);
                                      FillText (char cell) (mul (ofZ x) cellWidth)
                                                           (mul (ofZ y) cellHeight)])%list
                    end
                end
            end)
         acc)
    (Some outputCtx).

Definition renderASCIIToCanvas (outputCtx : Drawing num)
    (asciiChars : list (list ASCIIChar)) (settings : ASCIISettings num)
    (outputWidth outputHeight : Z) : option (Drawing num) :=
  let outputCtx :=
    if transparentBackground settings
    then (outputCtx ++ [ClearRect 0 0 outputWidth outputHeight])%list
    else (outputCtx ++ [SetFillStyle (backgroundColor settings);
                        FillRect 0 0 outputWidth outputHeight])%list in
  if (len asciiChars =? 0) || (len (toRow (get asciiChars 0)) =? 0) then Some outputCtx
  else
    let cols := len (toRow (get asciiChars 0)) in
    let rows := len asciiChars in
    let cellWidth := div (ofZ outputWidth) (ofZ cols) in
    let cellHeight := div (ofZ outputHeight) (ofZ rows) in
    let fontSize := cellHeight in
    let outputCtx :=
      (outputCtx ++ [SetFont fontSize; SetTextBaseline "top"; SetTextAlign "left"])%list in
    drawCells asciiChars rows cols cellWidth cellHeight outputCtx.

End WithNumber.

End AsciiConverter.

(* ================================================================== *)
(** * components/control-panel.tsx: the gradient-stop handlers *)
(* ================================================================== *)

Module ControlPanel.
Import Js AsciiConverter.

Section WithNumber.
Context {num : Type}.

(** [updateSetting("gradientColors", value)]: the settings handed to
    [onSettingsChange], which become the parent's state. *)
Definition updateGradientColors (settings : ASCIISettings num) (value : list string)
    : ASCIISettings num :=
  {| characterSet := characterSet settings;
     pixelSize := pixelSize settings;
     colorMode := colorMode settings;
     monochromeColor := monochromeColor settings;
     gradientColors := value;
     backgroundColor := backgroundColor settings;
     transparentBackground := transparentBackground settings;
     blendMode := blendMode settings;
     contrast := contrast settings;
     brightness := brightness settings;
     invert := invert settings;
     fontSize := fontSize settings |}.

(** Each handler returns the parent's settings after the call: the new ones,
    or the old ones when [onSettingsChange] is not reached. *)
Definition addGradientColor (settings : ASCIISettings num) : ASCIISettings num :=
  if len (gradientColors settings) <? 8
  then updateGradientColors settings (gradientColors settings ++ ["#ffffff"])%list
  else settings.

Definition removeGradientColor (settings : ASCIISettings num) (index : Z)
    : ASCIISettings num :=
  if 2 <? len (gradientColors settings)
  then
    let newColors :=
      filter_index (fun i => negb (i =? index)) 0 (gradientColors settings) in
    updateGradientColors settings newColors
  else settings.

(** [None]: the assignment left empty slots in the array (see [Js.assign]). *)
Definition updateGradientColor (settings : ASCIISettings num) (index : Z)
    (color : string) : option (ASCIISettings num) :=
  match assign (gradientColors settings) index color with
  | Some newColors => Some (updateGradientColors settings newColors)
  | None => None
  end.

(** The handlers the rendered panel can call.  The panel maps over
    [settings.gradientColors] and wires the two inputs of row [index] to
    [updateGradientColor(index, _)]; the remove button of a row exists while
    there are more than two stops; the add button is disabled from eight
    stops on. *)
Inductive Mutation : Type :=
  | Add
  | Remove (index : Z)
  | Update (index : Z) (color : string).

Definition offered (settings : ASCIISettings num) (m : Mutation) : bool :=
  let n := len (gradientColors settings) in
  match m with
  | Add => negb (8 <=? n)
  | Remove index => (0 <=? index) && (index <? n) && (2 <? n)
  | Update index _ => (0 <=? index) && (index <? n)
  end.

Definition mutate (settings : ASCIISettings num) (m : Mutation)
    : option (ASCIISettings num) :=
  match m with
  | Add => Some (addGradientColor settings)
  | Remove index => Some (removeGradientColor settings index)
  | Update index color => updateGradientColor settings index color
  end.

Definition stopCount (settings : ASCIISettings num) : Z :=
  len (gradientColors settings).

End WithNumber.

End ControlPanel.

(* ================================================================== *)
(** * components/ascii-preview.tsx: [exportAsGIF] *)
(* ================================================================== *)

Module AsciiPreview.
Import Js Dom AsciiConverter.

Record Dims : Type := { top : Z; left : Z; width : Z; height : Z }.

Record GifFrame (num : Type) : Type := {
  patch : list Z;
  dims : Dims;
  delay : num;
  disposalType : Z
}.

Arguments patch {num} _.
Arguments dims {num} _.
Arguments delay {num} _.
Arguments disposalType {num} _.

(** [video: HTMLVideoElement | HTMLImageElement]; of a video the export reads
    its duration. *)
Inductive Media (num : Type) : Type :=
  | VideoElement (duration : num)
  | ImageElement.

Arguments VideoElement {num} duration.
Arguments ImageElement {num}.

Record ASCIIPreviewProps (num : Type) : Type := {
  video : Media num;
  gifFrames : option (list (GifFrame num));
  settings : ASCIISettings num;
  originalWidth : Z;
  originalHeight : Z
}.

Arguments video {num} _.
Arguments gifFrames {num} _.
Arguments settings {num} _.
Arguments originalWidth {num} _.
Arguments originalHeight {num} _.

(** What the page leaves to the browser: how [drawImage] paints a canvas, the
    video at a given time or the still image onto the source canvas; whether
    the refs and 2d contexts that [exportAsGIF] checks first are there;
    whether a seek to a given time ever fires [seeked]; and whether the canvas
    made for frame [i] hands out a 2d context. *)
Record Browser (num : Type) : Type := {
  drawCanvas : Canvas -> Canvas -> Canvas;
  drawVideo : num -> Canvas -> Canvas;
  drawStill : Canvas -> Canvas;
  contexts : bool;
  seeked : num -> bool;
  frameContext : Z -> bool
}.

Arguments drawCanvas {num} _ _ _.
Arguments drawVideo {num} _ _ _.
Arguments drawStill {num} _ _.
Arguments contexts {num} _.
Arguments seeked {num} _ _.
Arguments frameContext {num} _ _.

(** A frame handed to the encoder with [copy: true]: what the frame canvas
    shows at that moment, and its delay. *)
Record Frame (num : Type) : Type := {
  image : Drawing num;
  frameDelay : num
}.

Arguments image {num} _.
Arguments frameDelay {num} _.

Record State (num : Type) : Type := {
  gifCanvas : Canvas;
  sourceCanvas : Canvas;
  exportCanvas : Drawing num;
  currentTime : num;
  gif : list (Frame num);
  exportProgress : Z
}.

Arguments gifCanvas {num} _.
Arguments sourceCanvas {num} _.
Arguments exportCanvas {num} _.
Arguments currentTime {num} _.
Arguments gif {num} _.
Arguments exportProgress {num} _.

(** How a run of the export ends: it gets through, an exception leaves it, or
    it waits for an event that never comes. *)
Inductive Outcome (A : Type) : Type :=
  | Done (a : A)
  | Throws
  | Pending.

Arguments Done {A} a.
Arguments Throws {A}.
Arguments Pending {A}.

Definition bind {A B : Type} (m : Outcome A) (k : A -> Outcome B) : Outcome B :=
  match m with
  | Done a => k a
  | Throws => Throws
  | Pending => Pending
  end.

Definition orThrow {A : Type} (v : option A) : Outcome A :=
  match v with
  | Some a => Done a
  | None => Throws
  end.

Notation "x <- m ;; k" := (bind m (fun x => k))
  (at level 61, m at next level, right associativity).

Section WithNumber.
Context {num : Type} `{Number num}.

Definition withGifCanvas (s : State num) (c : Canvas) : State num :=
  {| gifCanvas := c; sourceCanvas := sourceCanvas s; exportCanvas := exportCanvas s;
     currentTime := currentTime s; gif := gif s; exportProgress := exportProgress s |}.

Definition withSourceCanvas (s : State num) (c : Canvas) : State num :=
  {| gifCanvas := gifCanvas s; sourceCanvas := c; exportCanvas := exportCanvas s;
     currentTime := currentTime s; gif := gif s; exportProgress := exportProgress s |}.

Definition withExportCanvas (s : State num) (d : Drawing num) : State num :=
  {| gifCanvas := gifCanvas s; sourceCanvas := sourceCanvas s; exportCanvas := d;
     currentTime := currentTime s; gif := gif s; exportProgress := exportProgress s |}.

Definition withCurrentTime (s : State num) (t : num) : State num :=
  {| gifCanvas := gifCanvas s; sourceCanvas := sourceCanvas s;
     exportCanvas := exportCanvas s; currentTime := t; gif := gif s;
     exportProgress := exportProgress s |}.

Definition withGif (s : State num) (frames : list (Frame num)) : State num :=
  {| gifCanvas := gifCanvas s; sourceCanvas := sourceCanvas s;
     exportCanvas := exportCanvas s; currentTime := currentTime s; gif := frames;
     exportProgress := exportProgress s |}.

Definition setExportProgress (s : State num) (p : Z) : State num :=
  {| gifCanvas := gifCanvas s; sourceCanvas := sourceCanvas s;
     exportCanvas := exportCanvas s; currentTime := currentTime s; gif := gif s;
     exportProgress := p |}.

Definition isVideo (props : ASCIIPreviewProps num) : bool :=
  match video props with
  | VideoElement _ => true
  | ImageElement => false
  end.

Definition isAnimatedGif (props : ASCIIPreviewProps num) : bool :=
  negb (isVideo props) &&
  match gifFrames props with
  | Some frames => 1 <? len frames
  | None => false
  end.

Definition renderGifFrame (props : ASCIIPreviewProps num) (frameIndex : Z)
    (s : State num) : Outcome (State num) :=
  match gifFrames props with
  | None => Done s
  | Some frames =>
      match get frames frameIndex with
      | None => Done s
      | Some frame =>
          let gifCtx :=
            if disposalType frame =? 2
            then clearRect (gifCanvas s) (originalWidth props) (originalHeight props)
            else gifCanvas s in
          if validImageData (patch frame) (width (dims frame)) (height (dims frame))
          then Done (withGifCanvas s
                       (putImageData gifCtx (patch frame)
                          (width (dims frame)) (height (dims frame))
                          (left (dims frame)) (top (dims frame))))
          else Throws
      end
  end.

(** The frame canvas of round [i], behind [if (frameCtx)]:
    [frameCtx.drawImage(exportCanvas, 0, 0)], which throws when the export
    canvas has a side of zero, then
    [gif.addFrame(frameCanvas, { delay, copy: true })]. *)
Definition addFrame (br : Browser num) (exportWidth exportHeight i : Z) (delay : num)
    (s : State num) : Outcome (State num) :=
  if frameContext br i
  then
    if drawableCanvas exportWidth exportHeight
    then Done (withGif s (gif s ++ [{| image := exportCanvas s;
                                       frameDelay := delay |}])%list)
    else Throws
  else Done s.

(** Sampling the source canvas and rendering onto the export canvas. *)
Definition renderExport (props : ASCIIPreviewProps num) (exportWidth exportHeight : Z)
    (s : State num) : Outcome (State num) :=
  asciiChars <- orThrow (convertFrameToASCII (sourceCanvas s) (originalWidth props)
                           (originalHeight props) (settings props)) ;;
  drawn <- orThrow (renderASCIIToCanvas (exportCanvas s) asciiChars (settings props)
                      exportWidth exportHeight) ;;
  Done (withExportCanvas s drawn).

Definition progressAfter (i totalFrames : Z) : Z :=
  round (mul (div (ofZ (i + 1)) (ofZ totalFrames)) (ofZ 100)).

(** One round of the loop over the frames of an animated GIF. *)
Definition gifRound (br : Browser num) (props : ASCIIPreviewProps num)
    (frames : list (GifFrame num)) (exportWidth exportHeight totalFrames i : Z)
    (s : State num) : Outcome (State num) :=
  s <- renderGifFrame props i s ;;
  let s := withSourceCanvas s (drawCanvas br (gifCanvas s) (sourceCanvas s)) in
  s <- renderExport props exportWidth exportHeight s ;;
  frame <- orThrow (get frames i) ;;
  let delay := if truthy (delay frame) then delay frame else ofZ 100 in
  s <- addFrame br exportWidth exportHeight i delay s ;;
  Done (setExportProgress s (progressAfter i totalFrames)).

(** One round of the loop that resamples a video. *)
Definition videoRound (br : Browser num) (props : ASCIIPreviewProps num)
    (duration fps : num) (exportWidth exportHeight totalFrames i : Z)
    (s : State num) : Outcome (State num) :=
  let s := withCurrentTime s (mul (div (ofZ i) (ofZ totalFrames)) duration) in
  if seeked br (currentTime s)
  then
    let s := withSourceCanvas s (drawVideo br (currentTime s) (sourceCanvas s)) in
    s <- renderExport props exportWidth exportHeight s ;;
    s <- addFrame br exportWidth exportHeight i (div (ofZ 1000) fps) s ;;
    Done (setExportProgress s (progressAfter i totalFrames))
  else Pending.

Definition videoTotalFrames (duration fps : num) : Z :=
  Z.min (floor (mul duration fps)) 150.

(** [exportAsGIF], up to the hand-over to the encoder.  It starts from a
    fresh export canvas and a fresh encoder. *)
Definition exportAsGIF (br : Browser num) (props : ASCIIPreviewProps num)
    (exportWidth exportHeight : Z) (s : State num) : Outcome (State num) :=
  if negb (contexts br) then Done s
  else
    let s := withGif (withExportCanvas s []) [] in
    match isAnimatedGif props, gifFrames props, video props with
    | true, Some frames, _ =>
        let totalFrames := len frames in
        for_lt totalFrames always
          (fun i acc =>
             s <- acc ;;
             gifRound br props frames exportWidth exportHeight totalFrames i s)
          (Done s)
    | _, _, VideoElement duration =>
        let fps := ofZ 15 in
        let totalFrames := videoTotalFrames duration fps in
        for_lt totalFrames always
          (fun i acc =>
             s <- acc ;;
             videoRound br props duration fps exportWidth exportHeight totalFrames i s)
          (Done s)
    | _, _, ImageElement =>
        let s := withSourceCanvas s (drawStill br (sourceCanvas s)) in
        s <- renderExport props exportWidth exportHeight s ;;
        s <- addFrame br exportWidth exportHeight 0 (ofZ 100) s ;;
        Done (setExportProgress s 100)
    end.

End WithNumber.

(** ** The preview and the export button *)

(** The flags [handleExport] leaves behind. *)
Record ExportFlags : Type := {
  playing : bool;
  exporting : bool;
  progress : Z
}.

(** The rest of the component's state: the visible canvas, the index of the
    GIF frame on show and the time it was put there. *)
Record Preview (num : Type) : Type := {
  core : State num;
  outputCanvas : Drawing num;
  gifFrameIndex : Z;
  lastGifFrameTime : num
}.

Arguments core {num} _.
Arguments outputCanvas {num} _.
Arguments gifFrameIndex {num} _.
Arguments lastGifFrameTime {num} _.

Section Driver.
Context {num : Type} `{Number num}.

(** [handleExport] with [exportFormat] set to ["gif"], from the playing flag
    and the state it finds: progress is set to 0 and playback paused, the
    export runs, and the [catch] resets the flags.  After a completed run
    [isExporting] stays set until the encoder reports its result. *)
Definition handleExport (br : Browser num) (props : ASCIIPreviewProps num)
    (exportWidth exportHeight : Z) (isPlaying : bool) (s : State num)
    : Outcome ExportFlags :=
  let wasPlaying := isPlaying in
  match exportAsGIF br props exportWidth exportHeight (setExportProgress s 0) with
  | Done s' =>
      Done {| playing := wasPlaying; exporting := true; progress := exportProgress s' |}
  | Throws => Done {| playing := wasPlaying; exporting := false; progress := 0 |}
  | Pending => Pending
  end.

(** [renderFrame]: the source canvas is repainted from the GIF canvas, the
    video at its current time or the still image, sampled, and rendered onto
    the visible canvas at the original size. *)
Definition renderFrame (br : Browser num) (props : ASCIIPreviewProps num)
    (p : Preview num) : Outcome (Preview num) :=
  if negb (contexts br) then Done p
  else
    let s := core p in
    let source :=
      if isAnimatedGif props then drawCanvas br (gifCanvas s) (sourceCanvas s)
      else
        match video props with
        | VideoElement _ => drawVideo br (currentTime s) (sourceCanvas s)
        | ImageElement => drawStill br (sourceCanvas s)
        end in
    asciiChars <- orThrow (convertFrameToASCII source (originalWidth props)
                             (originalHeight props) (settings props)) ;;
    drawn <- orThrow (renderASCIIToCanvas (outputCanvas p) asciiChars (settings props)
                        (originalWidth props) (originalHeight props)) ;;
    Done {| core := withSourceCanvas s source; outputCanvas := drawn;
            gifFrameIndex := gifFrameIndex p;
            lastGifFrameTime := lastGifFrameTime p |}.

(** One call of [animate], up to its request for the next one.  The test
    [timestamp - last >= delay] is written as "not less than": neither side
    is NaN, the timestamps being finite and the delay a number after
    [|| 100].  [%] is the remainder of a truncating division. *)
Definition animate (br : Browser num) (props : ASCIIPreviewProps num)
    (timestamp : num) (p : Preview num) : Outcome (Preview num) :=
  p <- (match isAnimatedGif props, gifFrames props with
        | true, Some frames =>
            let delay :=
              match get frames (gifFrameIndex p) with
              | Some frame => if truthy (delay frame) then delay frame else ofZ 100
              | None => ofZ 100
              end in
            if negb (ltb (sub timestamp (lastGifFrameTime p)) delay)
            then
              let index := Z.rem (gifFrameIndex p + 1) (len frames) in
              s <- renderGifFrame props index (core p) ;;
              Done {| core := s; outputCanvas := outputCanvas p;
                      gifFrameIndex := index; lastGifFrameTime := timestamp |}
            else Done p
        | _, _ => Done p
        end) ;;
  renderFrame br props p.

End Driver.

End AsciiPreview.

(* ================================================================== *)
(** * Statements checked against the code *)
(* ================================================================== *)

Import Js Dom AsciiConverter.

(** An intensity that fits a colour channel. *)
Definition inByteRange (v : Q) : Prop := (0 <= v /\ v <= 255)%Q.

(** [rgbToHex(hexToRgb(h))]. *)
Definition hexRoundTrip (h : string) : string :=
  let c := hexToRgb h in rgbToHex (r c) (g c) (b c).

(** What [hexToRgb] accepts: its pattern matches. *)
Definition wellFormedHex (h : string) : bool :=
  match hexPattern h with
  | Some _ => true
  | None => false
  end.

Definition isLowerHexDigit (c : ascii) : bool :=
  let n := Z.of_N (N_of_ascii c) in
  ((48 <=? n) && (n <=? 57)) || ((97 <=? n) && (n <=? 102)).

(** The form [rgbToHex] writes: [#] and six digits, letters in lower case. *)
Definition canonicalHex (h : string) : bool :=
  match h with
  | String "#" (String c1 (String c2 (String c3 (String c4 (String c5 (String c6 EmptyString)))))) =>
      forallb isLowerHexDigit [c1; c2; c3; c4; c5; c6]
  | _ => false
  end.

Definition lowerHexDigit (c : ascii) : ascii :=
  let n := N_of_ascii c in
  if (65 <=? n)%N && (n <=? 70)%N then ascii_of_N (n + 32) else c.

Fixpoint lowerHex (s : string) : string :=
  match s with
  | EmptyString => EmptyString
  | String c s' => String (lowerHexDigit c) (lowerHex s')
  end.

(** A well-formed [h] rewritten in that form. *)
Definition normalizeHex (h : string) : string :=
  String "#" (lowerHex (stripHash h)).

(** The pre-blend and the post-blend reading of the original-mode colour of
    the cell whose block starts at [(pixelX, pixelY)]: the block averages
    rounded to hex, before and after [applyBlendMode]. *)
Section CellColours.
Context {num : Type} `{Number num}.

Definition blockAverage (pixels : list Z) (width height : Z)
    (settings : ASCIISettings num) (pixelX pixelY : Z) : RGB num :=
  let stepY := div (pixelSize settings) CHAR_ASPECT_RATIO in
  let '(totalR, totalG, totalB, count) :=
    blockTotals pixels width height pixelX pixelY
      (ceil (pixelSize settings)) (ceil stepY) in
  {| r := div (ofZ totalR) (ofZ count);
     g := div (ofZ totalG) (ofZ count);
     b := div (ofZ totalB) (ofZ count) |}.

(** The number of pixels counted for the cell at grid position [(x, y)]. *)
Definition cellPixelCount (pixels : list Z) (width height : Z)
    (settings : ASCIISettings num) (x y : Z) : Z :=
  let stepX := pixelSize settings in
  let stepY := div (pixelSize settings) CHAR_ASPECT_RATIO in
  snd (blockTotals pixels width height (floor (mul (ofZ x) stepX))
         (floor (mul (ofZ y) stepY)) (ceil stepX) (ceil stepY)).

Definition hexOf (c : RGB num) : string :=
  rgbToHex (round (r c)) (round (g c)) (round (b c)).

Definition preBlendColor (pixels : list Z) (width height : Z)
    (settings : ASCIISettings num) (cell : ASCIIChar) : string :=
  hexOf (blockAverage pixels width height settings (x cell) (y cell)).

Definition postBlendColor (pixels : list Z) (width height : Z)
    (settings : ASCIISettings num) (cell : ASCIIChar) : string :=
  let avg := blockAverage pixels width height settings (x cell) (y cell) in
  hexOf (applyBlendMode (r avg) (g avg) (b avg) (blendMode settings)).

End CellColours.

(** The delay [exportAsGIF] gives the frame made from a GIF frame. *)
Definition exportedDelay {num : Type} `{Number num} (f : AsciiPreview.GifFrame num) : num :=
  if truthy (AsciiPreview.delay f) then AsciiPreview.delay f else ofZ 100.

(** A decoded GIF frame: its patch holds as many pixels as its dimensions say. *)
Definition decodedFrame {num : Type} (f : AsciiPreview.GifFrame num) : bool :=
  validImageData (AsciiPreview.patch f)
    (AsciiPreview.width (AsciiPreview.dims f))
    (AsciiPreview.height (AsciiPreview.dims f)).

Definition hexAlphabet : list ascii := list_ascii_of_string "0123456789abcdefABCDEF".

(** Sample inputs. *)
Definition solidCanvas (w h v : Z) : Canvas :=
  {| cwidth := w; cheight := h;
     cdata := rgbaBuffer w h (fun _ _ k => if k =? 3 then 255 else v) |}.

Definition multiplySettings {num : Type} `{Number num} : ASCIISettings num :=
  {| characterSet := ".:-=+*#%@";
     pixelSize := ofZ 2;
     colorMode := Original;
     monochromeColor := "#00ff88";
     gradientColors := ["#00ff88"; "#ff00ff"; "#00ffff"];
     backgroundColor := "#0a0a0f";
     transparentBackground := false;
     blendMode := Multiply;
     contrast := ofZ 1;
     brightness := ofZ 1;
     invert := false;
     fontSize := ofZ 10 |}.

(** The default settings at the pixel size [p]. *)
Definition sizedSettings {num : Type} `{Number num} (p : Z) : ASCIISettings num :=
  {| characterSet := ".:-=+*#%@";
     pixelSize := ofZ p;
     colorMode := Original;
     monochromeColor := "#00ff88";
     gradientColors := ["#00ff88"; "#ff00ff"; "#00ffff"];
     backgroundColor := "#0a0a0f";
     transparentBackground := false;
     blendMode := Normal;
     contrast := ofZ 1;
     brightness := ofZ 1;
     invert := false;
     fontSize := ofZ 10 |}.

(** Whether, along a side of [n] pixels cut in steps of [step], every cell
    starts inside the side; and the pixel sizes the panel's slider offers. *)
Definition cellStartsInside {num : Type} `{Number num} (n : Z) (step : num) : bool :=
  forallb (fun k => let p := floor (mul (ofZ k) step) in (0 <=? p) && (p <? n))
    (upto (floor (div (ofZ n) step))).

Definition sliderSizes : list Z := map (fun k => k + 2) (upto 23).

(** A browser that copies a drawn canvas as it is, leaves the source canvas
    alone when asked for the video or the still image, completes every seek
    and hands out every context. *)
Definition plainBrowser {num : Type} : AsciiPreview.Browser num :=
  {| AsciiPreview.drawCanvas := fun image _ => image;
     AsciiPreview.drawVideo := fun _ canvas => canvas;
     AsciiPreview.drawStill := fun canvas => canvas;
     AsciiPreview.contexts := true;
     AsciiPreview.seeked := fun _ => true;
     AsciiPreview.frameContext := fun _ => true |}.

Definition solidPatch (w h v : Z) : list Z :=
  rgbaBuffer w h (fun _ _ k => if k =? 3 then 255 else v).

(** A 2x4 GIF of two full-size frames, the first with disposal 2 (clear), the
    second with disposal 1 (keep), and the given delays. *)
Definition twoFrameGif {num : Type} `{Number num} (delay1 delay2 : num)
    : AsciiPreview.ASCIIPreviewProps num :=
  {| AsciiPreview.video := AsciiPreview.ImageElement;
     AsciiPreview.gifFrames :=
       Some [ {| AsciiPreview.patch := solidPatch 2 4 100;
                 AsciiPreview.dims :=
                   {| AsciiPreview.top := 0; AsciiPreview.left := 0;
                      AsciiPreview.width := 2; AsciiPreview.height := 4 |};
                 AsciiPreview.delay := delay1;
                 AsciiPreview.disposalType := 2 |};
              {| AsciiPreview.patch := solidPatch 2 4 200;
                 AsciiPreview.dims :=
                   {| AsciiPreview.top := 0; AsciiPreview.left := 0;
                      AsciiPreview.width := 2; AsciiPreview.height := 4 |};
                 AsciiPreview.delay := delay2;
                 AsciiPreview.disposalType := 1 |} ];
     AsciiPreview.settings := multiplySettings;
     AsciiPreview.originalWidth := 2;
     AsciiPreview.originalHeight := 4 |}.

Definition videoOf {num : Type} `{Number num} (duration : num)
    : AsciiPreview.ASCIIPreviewProps num :=
  {| AsciiPreview.video := AsciiPreview.VideoElement duration;
     AsciiPreview.gifFrames := None;
     AsciiPreview.settings := multiplySettings;
     AsciiPreview.originalWidth := 2;
     AsciiPreview.originalHeight := 4 |}.

Definition blankState {num : Type} `{Number num} : AsciiPreview.State num :=
  {| AsciiPreview.gifCanvas := solidCanvas 2 4 0;
     AsciiPreview.sourceCanvas := solidCanvas 2 4 0;
     AsciiPreview.exportCanvas := [];
     AsciiPreview.currentTime := ofZ 0;
     AsciiPreview.gif := [];
     AsciiPreview.exportProgress := 0 |}.

(** Whether a channel value is written by [toString(16).padStart(2, '0')] as
    two lower-case digits that [parseInt(_, 16)] reads back as the value. *)
Definition byteHexOk (v : Z) : bool :=
  match padStart 2 "0" (toString16 v) with
  | String c1 (String c2 EmptyString) =>
      isLowerHexDigit c1 && isLowerHexDigit c2 &&
      (parseInt16 (String c1 (String c2 "")) =? v)
  | _ => false
  end.

Definition isByte (v : Z) : Prop := 0 <= v <= 255.

Definition white : RGB Z := {| r := 255; g := 255; b := 255 |}.

(** The number of [fillText] calls in a drawing. *)
Definition isFillText {num : Type} (op : DrawOp num) : bool :=
  match op with
  | FillText _ _ _ => true
  | _ => false
  end.

Definition fillTexts {num : Type} (ops : Drawing num) : Z :=
  len (filter isFillText ops).

(** The calls with which the renderer paints the background. *)
Definition backgroundOps {num : Type} (settings : ASCIISettings num)
    (outputWidth outputHeight : Z) : Drawing num :=
  if transparentBackground settings
  then [ClearRect 0 0 outputWidth outputHeight]
  else [SetFillStyle (backgroundColor settings); FillRect 0 0 outputWidth outputHeight].

(** The body of the renderer's loop over the columns of row [y]. *)
Definition drawCell {num : Type} `{Number num} (asciiChars : list (list ASCIIChar))
    (cellWidth cellHeight : num) (y x : Z) (acc : option (Drawing num)) : option (Drawing num) :=
  match acc with
  | None => None
  | Some ops =>
      match get asciiChars y with
      | None => None
      | Some row =>
          match get row x with
          | None => None
          | Some cell =>
              Some (ops ++ [SetFillStyle (color cell);
                            FillText (char cell) (mul (ofZ x) cellWidth)
                                                 (mul (ofZ y) cellHeight)])%list
          end
      end
  end.

(** The default ramp in monochrome mode on a transparent background. *)
Definition monochromeSettings {num : Type} `{Number num} : ASCIISettings num :=
  {| characterSet := ".:-=+*#%@";
     pixelSize := ofZ 2;
     colorMode := Monochrome;
     monochromeColor := "#00ff88";
     gradientColors := ["#00ff88"; "#ff00ff"; "#00ffff"];
     backgroundColor := "#0a0a0f";
     transparentBackground := true;
     blendMode := Normal;
     contrast := ofZ 1;
     brightness := ofZ 1;
     invert := false;
     fontSize := ofZ 10 |}.

(** A one-frame GIF, a browser whose seeks never complete, and a GIF whose
    second patch is too short. *)
Definition oneFrameGif {num : Type} `{Number num} (delay1 : num)
    : AsciiPreview.ASCIIPreviewProps num :=
  {| AsciiPreview.video := AsciiPreview.ImageElement;
     AsciiPreview.gifFrames :=
       Some [ {| AsciiPreview.patch := solidPatch 2 4 100;
                 AsciiPreview.dims :=
                   {| AsciiPreview.top := 0; AsciiPreview.left := 0;
                      AsciiPreview.width := 2; AsciiPreview.height := 4 |};
                 AsciiPreview.delay := delay1;
                 AsciiPreview.disposalType := 2 |} ];
     AsciiPreview.settings := multiplySettings;
     AsciiPreview.originalWidth := 2;
     AsciiPreview.originalHeight := 4 |}.

Definition stallingBrowser {num : Type} : AsciiPreview.Browser num :=
  {| AsciiPreview.drawCanvas := fun image _ => image;
     AsciiPreview.drawVideo := fun _ canvas => canvas;
     AsciiPreview.drawStill := fun canvas => canvas;
     AsciiPreview.contexts := true;
     AsciiPreview.seeked := fun _ => false;
     AsciiPreview.frameContext := fun _ => true |}.

Definition brokenGif {num : Type} `{Number num} : AsciiPreview.ASCIIPreviewProps num :=
  {| AsciiPreview.video := AsciiPreview.ImageElement;
     AsciiPreview.gifFrames :=
       Some [ {| AsciiPreview.patch := solidPatch 2 4 100;
                 AsciiPreview.dims :=
                   {| AsciiPreview.top := 0; AsciiPreview.left := 0;
                      AsciiPreview.width := 2; AsciiPreview.height := 4 |};
                 AsciiPreview.delay := ofZ 100;
                 AsciiPreview.disposalType := 2 |};
              {| AsciiPreview.patch := [0; 0; 0];
                 AsciiPreview.dims :=
                   {| AsciiPreview.top := 0; AsciiPreview.left := 0;
                      AsciiPreview.width := 2; AsciiPreview.height := 4 |};
                 AsciiPreview.delay := ofZ 100;
                 AsciiPreview.disposalType := 1 |} ];
     AsciiPreview.settings := multiplySettings;
     AsciiPreview.originalWidth := 2;
     AsciiPreview.originalHeight := 4 |}.

(** The preview as it starts: nothing drawn, frame 0 on show since time
    [since]. *)
Definition previewAt {num : Type} `{Number num} (index : Z) (since : num)
    : AsciiPreview.Preview num :=
  {| AsciiPreview.core := blankState;
     AsciiPreview.outputCanvas := [];
     AsciiPreview.gifFrameIndex := index;
     AsciiPreview.lastGifFrameTime := since |}.

(* ------------------------------------------------------------------ *)
(** ** Counted loops *)
(* ------------------------------------------------------------------ *)

Section Loops.
Context {S : Type}.

(** The loop rule: an invariant indexed by the number of rounds done. *)
Lemma for_from_invariant (P : nat -> S -> Prop) (n : nat) (i : Z)
    (body : Z -> S -> S) (s : S) :
  P O s ->
  (forall k acc, (k < n)%nat -> P k acc ->
     P (Datatypes.S k) (body (i + Z.of_nat k) acc)) ->
  P n (for_from n i always body s).
Proof.
  revert P i s. induction n as [|n IH]; intros P i s H0 Hstep; simpl.
  - exact H0.
  - apply (IH (fun k acc => P (Datatypes.S k) acc)).
    + specialize (Hstep O s). rewrite Z.add_0_r in Hstep.
      apply Hstep; [lia | exact H0].
    + intros k acc Hk HP.
      replace (i + 1 + Z.of_nat k) with (i + Z.of_nat (Datatypes.S k)) by lia.
      apply Hstep; [lia | exact HP].
Qed.

Lemma for_lt_invariant (P : Z -> S -> Prop) (bound : Z) (body : Z -> S -> S) (s : S) :
  0 <= bound ->
  P 0 s ->
  (forall k acc, 0 <= k < bound -> P k acc -> P (k + 1) (body k acc)) ->
  P bound (for_lt bound always body s).
Proof.
  intros Hb H0 Hstep. unfold for_lt.
  pose proof (for_from_invariant (fun k acc => P (Z.of_nat k) acc)
                (Z.to_nat bound) 0 body s) as L.
  cbv beta in L. rewrite Z2Nat.id in L by exact Hb.
  apply L; [exact H0|].
  intros k acc Hk HP. rewrite Z.add_0_l.
  replace (Z.of_nat (Datatypes.S k)) with (Z.of_nat k + 1) by lia.
  apply Hstep; [lia | exact HP].
Qed.

(** A loop whose bound is not positive does nothing. *)
Lemma for_lt_nonpositive (bound : Z) (guard : Z -> bool) (body : Z -> S -> S) (s : S) :
  bound <= 0 -> for_lt bound guard body s = s.
Proof.
  intros Hb. unfold for_lt.
  replace (Z.to_nat bound) with O by lia. reflexivity.
Qed.

(** A quantity that no round lowers is not lowered by the loop, and is
    raised by one at least when the first round runs and raises it. *)
Lemma for_from_monotone (m : S -> Z) (n : nat) (i : Z) (guard : Z -> bool)
    (body : Z -> S -> S) (s : S) :
  (forall j acc, m acc <= m (body j acc)) ->
  m s <= m (for_from n i guard body s).
Proof.
  intros Hm. revert i s. induction n as [|n IH]; intros i s; simpl.
  - lia.
  - destruct (guard i); [|lia].
    specialize (IH (i + 1) (body i s)). specialize (Hm i s). lia.
Qed.

Lemma for_lt_grows (m : S -> Z) (bound : Z) (guard : Z -> bool)
    (body : Z -> S -> S) (s : S) :
  (forall j acc, m acc + 1 <= m (body j acc)) ->
  1 <= bound -> guard 0 = true ->
  m s + 1 <= m (for_lt bound guard body s).
Proof.
  intros Hm Hb Hg. unfold for_lt.
  destruct (Z.to_nat bound) as [|n] eqn:E; [lia|].
  simpl. rewrite Hg.
  pose proof (for_from_monotone m n 1 guard body (body 0 s)) as L.
  specialize (Hm 0 s) as H0.
  assert (forall j acc, m acc <= m (body j acc)) as Hm'.
  { intros j acc. specialize (Hm j acc). lia. }
  specialize (L Hm'). lia.
Qed.

End Loops.
(* ------------------------------------------------------------------ *)
(** ** Exact arithmetic *)
(* ------------------------------------------------------------------ *)

Lemma Qltb_lt (a b : Q) : Qltb a b = true <-> (a < b)%Q.
Proof.
  unfold Qltb. rewrite negb_true_iff. split.
  - intros E. apply Qnot_le_lt. intros L.
    apply Qle_bool_iff in L. congruence.
  - intros L. destruct (Qle_bool b a) eqn:E; [|reflexivity].
    apply Qle_bool_iff in E. lra.
Qed.

Lemma Qltb_ge (a b : Q) : Qltb a b = false <-> (b <= a)%Q.
Proof.
  unfold Qltb. rewrite negb_false_iff. apply Qle_bool_iff.
Qed.

Lemma lit_exact (q : Q) : (lit q == q)%Q.
Proof.
  destruct q as [n d]. unfold lit, div, ofZ; simpl.
  unfold Qeq, Qdiv, Qmult, Qinv, inject_Z; simpl. lia.
Qed.

(** [Math.min(255, Math.max(0, v))]. *)
Lemma clamp_in_range (v : Q) : inByteRange (Qmin 255 (Qmax 0 v)).
Proof.
  unfold inByteRange.
  destruct (Q.max_spec 0 v) as [[? E]|[? E]];
    destruct (Q.min_spec 255 (Qmax 0 v)) as [[? F]|[? F]]; lra.
Qed.

Lemma clamp_mirror (v : Q) :
  (Qmin 255 (Qmax 0 (255 - v)) == 255 - Qmin 255 (Qmax 0 v))%Q.
Proof.
  destruct (Q.max_spec 0 v) as [[? E]|[? E]];
    destruct (Q.min_spec 255 (Qmax 0 v)) as [[? F]|[? F]];
    destruct (Q.max_spec 0 (255 - v)) as [[? E']|[? E']];
    destruct (Q.min_spec 255 (Qmax 0 (255 - v))) as [[? F']|[? F']]; lra.
Qed.

Lemma round_half_up_Z (z : Z) (q : Q) : (q == inject_Z z)%Q -> Qround_half_up q = z.
Proof.
  intros E. unfold Qround_half_up.
  assert (inject_Z z <= q + (1 # 2))%Q as L by lra.
  assert (q + (1 # 2) < inject_Z (z + 1))%Q as U.
  { rewrite inject_Z_plus. change (inject_Z 1) with 1%Q. lra. }
  apply Qfloor_resp_le in L. rewrite Qfloor_Z in L.
  pose proof (Qfloor_le (q + (1 # 2))) as F.
  assert (inject_Z (Qfloor (q + (1 # 2))) < inject_Z (z + 1))%Q as G by lra.
  rewrite <- Zlt_Qlt in G. lia.
Qed.

(* ------------------------------------------------------------------ *)
(** ** Brightness and contrast *)
(* ------------------------------------------------------------------ *)

Lemma applyBrightness_in_range (value brightness : Q) :
  inByteRange (applyBrightness value brightness).
Proof. apply clamp_in_range. Qed.

Lemma applyContrast_cases (value contrast : Q) :
  applyContrast value contrast = value \/
  inByteRange (applyContrast value contrast).
Proof.
  unfold applyContrast.
  destruct (ltb _ _); [left; reflexivity | right; apply clamp_in_range].
Qed.

(** C2, as stated, fails: at the neutral contrast 1 [applyContrast] returns
    its input unchanged, so the intensity 300 comes back as 300, above 255. *)
Lemma applyContrast_neutral_escapes :
  applyContrast 300%Q 1%Q = 300%Q /\ ~ inByteRange (applyContrast 300%Q 1%Q).
Proof.
  split; [reflexivity|].
  change (applyContrast 300%Q 1%Q) with 300%Q.
  unfold inByteRange. intros [_ L]. revert L. apply Qlt_not_le. reflexivity.
Qed.

(** Within 0.001 of the neutral factor 1, [applyContrast] hands its input
    back untouched. *)
Lemma applyContrast_neutral (value contrast : Q) :
  (Qabs (contrast - 1) < 1 # 1000)%Q -> applyContrast value contrast = value.
Proof.
  intros Hn. unfold applyContrast.
  destruct (ltb _ _) eqn:E; [reflexivity|].
  exfalso. apply Qltb_ge in E. rewrite lit_exact in E.
  change (sub contrast (ofZ 1)) with (contrast - 1)%Q in E.
  change (abs (contrast - 1)%Q) with (Qabs (contrast - 1)) in E. lra.
Qed.

(** C2, amended: [applyBrightness] lands in [0,255] for every input and
    factor; [applyContrast] lands in [0,255] whenever the factor is at least
    0.001 away from 1, or its input already lies in [0,255]; and within
    0.001 of 1 it returns its input unchanged, whatever the input is. *)
Theorem brightness_contrast_range (value brightness intensity contrast : Q) :
  inByteRange (applyBrightness value brightness) /\
  ((inByteRange intensity \/ (1 # 1000 <= Qabs (contrast - 1))%Q) ->
   inByteRange (applyContrast intensity contrast)) /\
  ((Qabs (contrast - 1) < 1 # 1000)%Q ->
   applyContrast intensity contrast = intensity).
Proof.
  split; [apply applyBrightness_in_range|]. split.
  - intros Hc. unfold applyContrast.
    destruct (ltb _ _) eqn:E; [|apply clamp_in_range].
    destruct Hc as [Hr|Hf]; [exact Hr|].
    exfalso. apply Qltb_lt in E. rewrite lit_exact in E.
    change (sub contrast (ofZ 1)) with (contrast - 1)%Q in E.
    change (abs (contrast - 1)%Q) with (Qabs (contrast - 1)) in E. lra.
  - apply applyContrast_neutral.
Qed.

Lemma brightness_contrast_range_witness :
  inByteRange (applyBrightness 300%Q 2%Q) /\
  inByteRange (applyContrast 300%Q 2%Q) /\
  applyContrast 300%Q (10005 # 10000)%Q = 300%Q.
Proof.
  destruct (brightness_contrast_range 300 2 300 2) as (B & C & _).
  destruct (brightness_contrast_range 300 2 300 (10005 # 10000)) as (_ & _ & N).
  split; [exact B|]. split.
  - apply C. right. vm_compute. discriminate.
  - apply N. vm_compute. reflexivity.
Defined.

(* ------------------------------------------------------------------ *)
(** ** The glyph mapper *)
(* ------------------------------------------------------------------ *)

(** C6, as stated, fails on the doubles a JavaScript engine computes with.
    For the ramp [.-:=+#@] and x = 106.25: 106.25/255 rounds to
    0.4166666666666667, 1 minus that is 0.5833333333333333 (a hair below
    7/12), times 6 is 3.4999999999999996, which rounds to index 3; while
    (255 - 106.25)/255 rounds to 0.5833333333333334, times 6 is 3.5, which
    rounds to index 4. *)
Lemma invert_mirror_fails_on_doubles :
  getCharacterForBrightness (num := float) (lit (10625 # 100)) ".-:=+#@" true = "=" /\
  getCharacterForBrightness (num := float) (sub (ofZ 255) (lit (10625 # 100)))
    ".-:=+#@" false = "+".
Proof. split; vm_compute; reflexivity. Qed.

(** C6, amended: in exact arithmetic, for every intensity x (inside [0,255]
    or not) and every ramp, the glyph for x with [invert] set is the glyph
    for 255 - x without it. *)
Theorem invert_mirrors_intensity_exact (x : Q) (ramp : string) :
  getCharacterForBrightness x ramp true =
  getCharacterForBrightness (sub (ofZ 255) x) ramp false.
Proof.
  unfold getCharacterForBrightness.
  destruct (slen ramp =? 0); [reflexivity|].
  destruct (slen ramp =? 1); [reflexivity|].
  cbv zeta. f_equal. f_equal. f_equal.
  unfold round, mul, sub, div, min, max, ofZ; simpl.
  unfold Qround_half_up. apply Qfloor_comp.
  pose proof (clamp_mirror x) as M.
  change (inject_Z 255) with 255%Q. change (inject_Z 0) with 0%Q.
  change (inject_Z 1) with 1%Q.
  rewrite M. field.
Qed.
(* ------------------------------------------------------------------ *)
(** ** Hex colours *)
(* ------------------------------------------------------------------ *)

Lemma isHexDigit_alphabet (c : ascii) : isHexDigit c = true -> In c hexAlphabet.
Proof.
  destruct c as [[] [] [] [] [] [] [] []]; intros E;
    try discriminate E; vm_compute; tauto.
Qed.

Lemma stripHash_cases (h : string) :
  (exists rest, h = String "#" rest /\ stripHash h = rest) \/
  (stripHash h = h /\ forall rest, h <> String "#" rest).
Proof.
  destruct h as [|c rest].
  - right. split; [reflexivity | discriminate].
  - destruct (ascii_dec c "#") as [->|Hc].
    + left. exists rest. split; reflexivity.
    + right. split.
      * destruct c as [[] [] [] [] [] [] [] []]; try reflexivity.
        exfalso. apply Hc. reflexivity.
      * intros rest' E. apply Hc. congruence.
Qed.

(** One channel: two digits read by [parseInt] and written back by
    [toString(16).padStart(2, '0')] come out in lower case. *)
Lemma channel_round_trip (c1 c2 : ascii) :
  isHexDigit c1 = true -> isHexDigit c2 = true ->
  padStart 2 "0" (toString16 (parseInt16 (String c1 (String c2 "")))) =
  String (lowerHexDigit c1) (String (lowerHexDigit c2) "").
Proof.
  intros H1 H2.
  apply isHexDigit_alphabet in H1. apply isHexDigit_alphabet in H2.
  unfold hexAlphabet in H1, H2. simpl in H1, H2.
  repeat (destruct H1 as [<-|H1]; [|]);
    try contradiction;
    repeat (destruct H2 as [<-|H2]; [|]); try contradiction;
    vm_compute; reflexivity.
Qed.

Lemma lower_fixed_iff (c : ascii) :
  isHexDigit c = true -> (lowerHexDigit c = c <-> isLowerHexDigit c = true).
Proof.
  intros Hc. apply isHexDigit_alphabet in Hc.
  unfold hexAlphabet in Hc. simpl in Hc.
  repeat (destruct Hc as [<-|Hc]; [vm_compute; split; congruence|]).
  contradiction.
Qed.

Lemma isLowerHexDigit_isHexDigit (c : ascii) :
  isLowerHexDigit c = true -> isHexDigit c = true.
Proof.
  destruct c as [[] [] [] [] [] [] [] []]; intros E;
    try discriminate E; reflexivity.
Qed.

Lemma hexPattern_shape (h : string) :
  wellFormedHex h = true ->
  exists c1 c2 c3 c4 c5 c6,
    stripHash h = String c1 (String c2 (String c3 (String c4 (String c5 (String c6 ""))))) /\
    forallb isHexDigit [c1; c2; c3; c4; c5; c6] = true.
Proof.
  unfold wellFormedHex, hexPattern.
  destruct (stripHash h) as [|c1 [|c2 [|c3 [|c4 [|c5 [|c6 [|c7 s]]]]]]];
    try discriminate.
  destruct (forallb isHexDigit [c1; c2; c3; c4; c5; c6]) eqn:E; [|discriminate].
  intros _. exists c1, c2, c3, c4, c5, c6. split; [reflexivity | exact E].
Qed.

Lemma hexRoundTrip_normalizes (h : string) :
  wellFormedHex h = true -> hexRoundTrip h = normalizeHex h.
Proof.
  intros W. destruct (hexPattern_shape h W) as (c1 & c2 & c3 & c4 & c5 & c6 & E & D).
  unfold hexRoundTrip, hexToRgb, hexPattern, normalizeHex. rewrite E, D.
  simpl in D. repeat rewrite andb_true_iff in D.
  destruct D as (D1 & D2 & D3 & D4 & D5 & D6 & _).
  unfold rgbToHex. cbn [r g b map].
  rewrite (channel_round_trip c1 c2 D1 D2), (channel_round_trip c3 c4 D3 D4),
    (channel_round_trip c5 c6 D5 D6).
  reflexivity.
Qed.

Lemma hexRoundTrip_fixed_iff (h : string) :
  wellFormedHex h = true ->
  (hexRoundTrip h = h <-> canonicalHex h = true).
Proof.
  intros W.
  rewrite (hexRoundTrip_normalizes h W).
  destruct (hexPattern_shape h W) as (c1 & c2 & c3 & c4 & c5 & c6 & E & D).
  simpl in D. repeat rewrite andb_true_iff in D.
  destruct D as (D1 & D2 & D3 & D4 & D5 & D6 & _).
  unfold normalizeHex. rewrite E. cbn [lowerHex].
  destruct (stripHash_cases h) as [(rest & Eh & Es)|(Es & Hno)].
  - rewrite Es in E. subst rest. subst h. unfold canonicalHex.
    cbn [forallb]. repeat rewrite andb_true_iff.
    rewrite <- (lower_fixed_iff c1 D1), <- (lower_fixed_iff c2 D2),
      <- (lower_fixed_iff c3 D3), <- (lower_fixed_iff c4 D4),
      <- (lower_fixed_iff c5 D5), <- (lower_fixed_iff c6 D6).
    split.
    + intros Q. injection Q as -> -> -> -> -> ->. tauto.
    + intros (-> & -> & -> & -> & -> & -> & _). reflexivity.
  - rewrite Es in E. split.
    + intros Q. exfalso. eapply Hno. symmetry. exact Q.
    + intros C. exfalso. unfold canonicalHex in C.
      destruct h as [|a h']; [discriminate|].
      destruct (ascii_dec a "#") as [->|Ha]; [eapply Hno; reflexivity|].
      destruct a as [[] [] [] [] [] [] [] []]; try discriminate C.
      apply Ha. reflexivity.
Qed.

(** C5, as stated, fails: [hexToRgb] accepts upper-case digits and a missing
    [#], and [rgbToHex] writes [#] and lower case. *)
Lemma hex_round_trip_changes_case :
  wellFormedHex "#FFAA00" = true /\
  hexRoundTrip "#FFAA00" = "#ffaa00" /\
  hexRoundTrip "#FFAA00" <> "#FFAA00".
Proof. repeat split; [vm_compute; discriminate]. Qed.

(** C5, amended: for every [h] that [hexToRgb] accepts (an optional [#] and
    six hexadecimal digits of either case), [rgbToHex(hexToRgb(h))] is [h]
    written with a leading [#] and lower-case digits; it is [h] itself
    exactly when [h] already has that form. *)
Theorem hex_round_trip (h : string) :
  wellFormedHex h = true ->
  hexRoundTrip h = normalizeHex h /\
  (hexRoundTrip h = h <-> canonicalHex h = true).
Proof.
  intros W. split.
  - apply hexRoundTrip_normalizes. exact W.
  - apply hexRoundTrip_fixed_iff. exact W.
Qed.

Lemma hex_round_trip_witness :
  hexRoundTrip "00ff88" = normalizeHex "00ff88" /\
  (hexRoundTrip "00ff88" = "00ff88" <-> canonicalHex "00ff88" = true).
Proof. apply (hex_round_trip "00ff88"). reflexivity. Defined.

Lemma canonicalHex_wellFormed (h : string) :
  canonicalHex h = true -> wellFormedHex h = true.
Proof.
  unfold canonicalHex, wellFormedHex, hexPattern.
  destruct h as [|a h]; [discriminate|].
  destruct (ascii_dec a "#") as [->|Ha].
  - destruct h as [|c1 [|c2 [|c3 [|c4 [|c5 [|c6 [|c7 s]]]]]]]; try discriminate.
    cbn [forallb stripHash]. repeat rewrite andb_true_iff.
    intros (L1 & L2 & L3 & L4 & L5 & L6 & _).
    rewrite (isLowerHexDigit_isHexDigit _ L1), (isLowerHexDigit_isHexDigit _ L2),
      (isLowerHexDigit_isHexDigit _ L3), (isLowerHexDigit_isHexDigit _ L4),
      (isLowerHexDigit_isHexDigit _ L5), (isLowerHexDigit_isHexDigit _ L6).
    reflexivity.
  - intros C. exfalso.
    destruct a as [[] [] [] [] [] [] [] []]; try discriminate C.
    apply Ha. reflexivity.
Qed.

Lemma canonical_round_trip (h : string) :
  canonicalHex h = true -> hexRoundTrip h = h.
Proof.
  intros C. apply (hexRoundTrip_fixed_iff h (canonicalHex_wellFormed h C)). exact C.
Qed.
(* ------------------------------------------------------------------ *)
(** ** The gradient *)
(* ------------------------------------------------------------------ *)

Lemma get_first {A : Type} (v : A) (a : list A) : get (v :: a) 0 = Some v.
Proof. reflexivity. Qed.

Lemma get_last {A : Type} (v d : A) (a : list A) :
  get (v :: a) (len (v :: a) - 1) = Some (last (v :: a) d).
Proof.
  unfold get, len.
  destruct (Z.of_nat (List.length (v :: a)) - 1 <? 0) eqn:E.
  - apply Z.ltb_lt in E. simpl List.length in E. lia.
  - replace (Z.to_nat (Z.of_nat (List.length (v :: a)) - 1)) with (List.length a)
      by (simpl List.length; lia).
    clear E. revert v. induction a as [|w a IH]; intros v.
    + reflexivity.
    + change (nth_error (v :: w :: a) (List.length (w :: a)))
        with (nth_error (w :: a) (List.length a)).
      rewrite IH. reflexivity.
Qed.

Lemma Qfloor_of_Z (z : Z) (q : Q) : (q == inject_Z z)%Q -> Qfloor q = z.
Proof. intros E. rewrite (Qfloor_comp _ _ E). apply Qfloor_Z. Qed.

Lemma interpolate_channel_at_start (c1 c2 : Z) (t : Q) :
  (t == 0)%Q ->
  round (add (ofZ c1) (mul (sub (ofZ c2) (ofZ c1)) t)) = c1.
Proof.
  intros E. apply round_half_up_Z.
  unfold add, mul, sub, ofZ; simpl. rewrite E. ring.
Qed.

Lemma interpolateGradient_at_one (first second : string) (rest : list string) :
  interpolateGradient (first :: second :: rest) 1%Q =
  last (first :: second :: rest) "".
Proof.
  unfold interpolateGradient.
  set (stops := first :: second :: rest).
  assert (2 <= len stops) as L by (unfold len, stops; simpl List.length; lia).
  destruct (len stops =? 0) eqn:E0; [apply Z.eqb_eq in E0; lia|].
  destruct (len stops =? 1) eqn:E1; [apply Z.eqb_eq in E1; lia|].
  cbv zeta.
  assert (floor (mul 1%Q (ofZ (len stops - 1))) = len stops - 1) as F.
  { apply Qfloor_of_Z. unfold mul, ofZ; simpl. ring. }
  rewrite F, Z.leb_refl.
  unfold stops. rewrite (get_last first ""). reflexivity.
Qed.

Lemma interpolateGradient_at_zero (first second : string) (rest : list string) :
  interpolateGradient (first :: second :: rest) 0%Q = hexRoundTrip first.
Proof.
  unfold interpolateGradient.
  set (stops := first :: second :: rest).
  assert (2 <= len stops) as L by (unfold len, stops; simpl List.length; lia).
  destruct (len stops =? 0) eqn:E0; [apply Z.eqb_eq in E0; lia|].
  destruct (len stops =? 1) eqn:E1; [apply Z.eqb_eq in E1; lia|].
  cbv zeta.
  assert (mul 0%Q (ofZ (len stops - 1)) == 0)%Q as S0.
  { unfold mul, ofZ; simpl. ring. }
  assert (floor (mul 0%Q (ofZ (len stops - 1))) = 0) as F.
  { apply Qfloor_of_Z. exact S0. }
  rewrite F.
  destruct (len stops - 1 <=? 0) eqn:E; [apply Z.leb_le in E; lia|].
  assert (sub (mul 0%Q (ofZ (len stops - 1))) (ofZ 0) == 0)%Q as T0.
  { unfold sub, ofZ; simpl. change (inject_Z 0) with 0%Q.
    unfold sub, ofZ in S0; simpl in S0. rewrite S0. ring. }
  rewrite !(interpolate_channel_at_start _ _ _ T0).
  unfold stops. rewrite get_first. reflexivity.
Qed.

(** C7, as stated, fails at position 0: the first stop is parsed and written
    back, so a stop typed in upper case comes out in lower case. *)
Lemma gradient_start_rewrites_stop :
  interpolateGradient ["#FF0000"; "#00ff00"] 0%Q = "#ff0000" /\
  interpolateGradient ["#FF0000"; "#00ff00"] 0%Q <> "#FF0000".
Proof. split; [vm_compute; reflexivity | vm_compute; discriminate]. Qed.

(** C7, amended: for every list of at least two stops, position 1 yields the
    last stop unchanged, and position 0 yields [rgbToHex(hexToRgb(first))],
    which is the first stop itself when that stop is written as [#] and six
    lower-case hexadecimal digits. *)
Theorem gradient_endpoints (first second : string) (rest : list string) :
  interpolateGradient (num := Q) (first :: second :: rest) (ofZ 1) =
    last (first :: second :: rest) "" /\
  interpolateGradient (num := Q) (first :: second :: rest) (ofZ 0) =
    hexRoundTrip first /\
  (canonicalHex first = true ->
   interpolateGradient (num := Q) (first :: second :: rest) (ofZ 0) = first).
Proof.
  change (ofZ (num := Q) 1) with 1%Q. change (ofZ (num := Q) 0) with 0%Q.
  split; [apply interpolateGradient_at_one|].
  split; [apply interpolateGradient_at_zero|].
  intros C. rewrite interpolateGradient_at_zero.
  apply canonical_round_trip. exact C.
Qed.

Lemma gradient_endpoints_witness :
  interpolateGradient (num := Q) ["#00ff88"; "#ff00ff"; "#00ffff"] (ofZ 1) = "#00ffff" /\
  interpolateGradient (num := Q) ["#00ff88"; "#ff00ff"; "#00ffff"] (ofZ 0) = "#00ff88".
Proof.
  destruct (gradient_endpoints "#00ff88" "#ff00ff" ["#00ffff"]) as (L & _ & F).
  split; [exact L | apply F; reflexivity].
Defined.

(* ------------------------------------------------------------------ *)
(** ** The gradient stops of the control panel *)
(* ------------------------------------------------------------------ *)

Lemma set_nth_length {A : Type} (n : nat) (v : A) (a : list A) :
  List.length (set_nth n v a) = List.length a.
Proof.
  revert n. induction a as [|w a IH]; intros n; destruct n; simpl;
    try reflexivity.
  rewrite IH. reflexivity.
Qed.

(** Filtering out one index drops at most one element. *)
Lemma filter_index_length {A : Type} (index i : Z) (a : list A) :
  len a - 1 <= len (filter_index (fun j => negb (j =? index)) i a) <= len a.
Proof.
  unfold len. revert i. induction a as [|v a IH]; intros i.
  - simpl. lia.
  - simpl filter_index. destruct (i =? index) eqn:E; simpl negb; cbv iota.
    + apply Z.eqb_eq in E.
      assert (filter_index (fun j => negb (j =? index)) (i + 1) a = a) as K.
      { assert (forall (l : list A) k, index < k ->
                  filter_index (fun j => negb (j =? index)) k l = l) as G.
        { induction l as [|w l IHl]; intros k Hk; [reflexivity|].
          simpl. destruct (k =? index) eqn:Ek; [apply Z.eqb_eq in Ek; lia|].
          simpl. rewrite IHl by lia. reflexivity. }
        apply G. lia. }
      rewrite K. simpl List.length. lia.
    + specialize (IH (i + 1)). simpl List.length. lia.
Qed.

Section GradientStops.
Context {num : Type}.
Import ControlPanel.

Lemma addGradientColor_count (settings : ASCIISettings num) :
  2 <= stopCount settings <= 8 ->
  2 <= stopCount (addGradientColor settings) <= 8.
Proof.
  unfold stopCount, addGradientColor. intros I.
  destruct (len (gradientColors settings) <? 8) eqn:E; [|exact I].
  apply Z.ltb_lt in E. simpl. unfold len in *.
  rewrite length_app. simpl. lia.
Qed.

Lemma removeGradientColor_count (settings : ASCIISettings num) (index : Z) :
  2 <= stopCount settings <= 8 ->
  2 <= stopCount (removeGradientColor settings index) <= 8.
Proof.
  unfold stopCount, removeGradientColor. intros I.
  destruct (2 <? len (gradientColors settings)) eqn:E; [|exact I].
  apply Z.ltb_lt in E. simpl.
  pose proof (filter_index_length index 0 (gradientColors settings)). lia.
Qed.

Lemma updateGradientColor_count (settings : ASCIISettings num) (index : Z)
    (color : string) :
  0 <= index < stopCount settings ->
  exists settings',
    updateGradientColor settings index color = Some settings' /\
    stopCount settings' = stopCount settings.
Proof.
  unfold stopCount, updateGradientColor, assign. intros [L U].
  destruct (index <? 0) eqn:E0; [apply Z.ltb_lt in E0; lia|].
  destruct (index <? len (gradientColors settings)) eqn:E1;
    [|apply Z.ltb_ge in E1; lia].
  eexists. split; [reflexivity|].
  simpl. unfold len. rewrite set_nth_length. reflexivity.
Qed.

(** C9: from settings with two to eight gradient stops, every handler call
    the panel offers (add, remove the stop of a row, recolour the stop of a
    row) goes through and leaves two to eight stops. *)
Theorem gradient_stop_count_stays_in_range (settings : ASCIISettings num) (m : Mutation) :
  2 <= stopCount settings <= 8 ->
  offered settings m = true ->
  exists settings',
    mutate settings m = Some settings' /\ 2 <= stopCount settings' <= 8.
Proof.
  intros I O. destruct m as [|index|index color]; simpl mutate.
  - eexists. split; [reflexivity|]. apply addGradientColor_count. exact I.
  - eexists. split; [reflexivity|]. apply removeGradientColor_count. exact I.
  - unfold offered in O. apply andb_true_iff in O. destruct O as [O1 O2].
    apply Z.leb_le in O1. apply Z.ltb_lt in O2.
    destruct (updateGradientColor_count settings index color) as (s' & E & C).
    { unfold stopCount. lia. }
    exists s'. split; [exact E|]. rewrite C. exact I.
Qed.

End GradientStops.

Lemma gradient_stop_count_stays_in_range_witness :
  exists settings',
    ControlPanel.mutate (DEFAULT_SETTINGS (num := Q))
      (ControlPanel.Update 1 "#123456") = Some settings' /\
    2 <= ControlPanel.stopCount settings' <= 8.
Proof.
  apply (gradient_stop_count_stays_in_range (DEFAULT_SETTINGS (num := Q))
           (ControlPanel.Update 1 "#123456")).
  - vm_compute. split; discriminate.
  - reflexivity.
Defined.
(* ------------------------------------------------------------------ *)
(** ** The sampler: structure of the grid *)
(* ------------------------------------------------------------------ *)

Section SamplerStructure.
Context {num : Type} `{Number num}.
Variables (pixels : list Z) (width height : Z) (settings : ASCIISettings num).

(** Every cell of a row was produced by [sampleCell] at some column. *)
Lemma sampleRow_cells (cols y : Z) (cell : ASCIIChar) :
  In cell (sampleRow pixels width height settings cols y) ->
  exists x, 0 <= x < cols /\ sampleCell pixels width height settings x y = Some cell.
Proof.
  unfold sampleRow. destruct (Z_le_gt_dec 0 cols) as [Hc|Hc].
  - revert cell.
    apply (for_lt_invariant
             (fun k row => forall cell, In cell row ->
                exists x, 0 <= x < k /\
                  sampleCell pixels width height settings x y = Some cell)).
    + exact Hc.
    + intros cell [].
    + intros k row Hk IH cell Hin.
      destruct (sampleCell pixels width height settings k y) as [c|] eqn:E.
      * apply in_app_or in Hin. destruct Hin as [Hin|[<-|[]]].
        -- destruct (IH cell Hin) as (x & Hx & Ex). exists x. split; [lia|exact Ex].
        -- exists k. split; [lia|exact E].
      * destruct (IH cell Hin) as (x & Hx & Ex). exists x. split; [lia|exact Ex].
  - rewrite for_lt_nonpositive by lia. intros [].
Qed.

(** A row whose every column yields a cell has [cols] cells. *)
Lemma sampleRow_length (cols y : Z) :
  0 <= cols ->
  (forall x, 0 <= x < cols -> sampleCell pixels width height settings x y <> None) ->
  len (sampleRow pixels width height settings cols y) = cols.
Proof.
  intros Hc Hall. unfold sampleRow.
  apply (for_lt_invariant (fun k row => len row = k)).
  - exact Hc.
  - reflexivity.
  - intros k row Hk IH.
    destruct (sampleCell pixels width height settings k y) as [c|] eqn:E.
    + unfold len in *. rewrite length_app. simpl. lia.
    + exfalso. apply (Hall k Hk). exact E.
Qed.

(** The grid has [rows] rows, each the sampled row of some [y]. *)
Lemma grid_rows (cols rows : Z) :
  0 <= rows ->
  let grid := for_lt rows always
                (fun y result =>
                   (result ++ [sampleRow pixels width height settings cols y])%list) [] in
  len grid = rows /\
  forall row, In row grid ->
    exists y, 0 <= y < rows /\ row = sampleRow pixels width height settings cols y.
Proof.
  intros Hr grid. unfold grid.
  apply (for_lt_invariant
           (fun k result => len result = k /\
              forall row, In row result ->
                exists y, 0 <= y < k /\
                  row = sampleRow pixels width height settings cols y)).
  - exact Hr.
  - split; [reflexivity | intros row []].
  - intros k result Hk [IHl IH]. split.
    + unfold len in *. rewrite length_app. simpl. lia.
    + intros row Hin. apply in_app_or in Hin. destruct Hin as [Hin|[<-|[]]].
      * destruct (IH row Hin) as (y & Hy & Ey). exists y. split; [lia|exact Ey].
      * exists k. split; [lia|reflexivity].
Qed.

Lemma grid_rows_nonpositive (cols rows : Z) :
  rows <= 0 ->
  for_lt rows always
    (fun y result =>
       (result ++ [sampleRow pixels width height settings cols y])%list) [] = [].
Proof. intros Hr. apply for_lt_nonpositive. exact Hr. Qed.

(** The block of a cell holds at least one pixel as soon as both block sides
    are at least 1 and the block starts inside the frame. *)
Lemma blockTotals_count (pixelX pixelY blockWidth blockHeight : Z) :
  1 <= blockWidth -> 1 <= blockHeight ->
  pixelX < width -> pixelY < height ->
  1 <= snd (blockTotals pixels width height pixelX pixelY blockWidth blockHeight).
Proof.
  intros Hw Hh Hx Hy. unfold blockTotals.
  change 1 with (snd (0, 0, 0, 0) + 1) at 1.
  apply (for_lt_grows (S := Z * Z * Z * Z) snd).
  - intros py acc. apply (for_lt_grows (S := Z * Z * Z * Z) snd).
    + intros px [[[tR tG] tB] count]. simpl. lia.
    + exact Hw.
    + apply Z.ltb_lt. lia.
  - exact Hh.
  - apply Z.ltb_lt. lia.
Qed.

(** What [sampleCell] returns, in terms of the block it read. *)
Lemma sampleCell_some (x y : Z) (cell : ASCIIChar) :
  sampleCell pixels width height settings x y = Some cell ->
  color cell =
    (let avg := blockAverage pixels width height settings
                  (AsciiConverter.x cell) (AsciiConverter.y cell) in
     let blended := applyBlendMode (r avg) (g avg) (b avg) (blendMode settings) in
     let gray := applyContrast
                   (applyBrightness (rgbToGrayscale (r blended) (g blended) (b blended))
                      (brightness settings))
                   (contrast settings) in
     cellColor settings (r blended) (g blended) (b blended) gray).
Proof.
  unfold sampleCell, blockAverage. cbv zeta.
  destruct (blockTotals pixels width height
              (floor (mul (ofZ x) (pixelSize settings)))
              (floor (mul (ofZ y) (div (pixelSize settings) CHAR_ASPECT_RATIO)))
              (ceil (pixelSize settings))
              (ceil (div (pixelSize settings) CHAR_ASPECT_RATIO)))
    as [[[totalR totalG] totalB] count] eqn:E.
  destruct (count =? 0); [discriminate|].
  intros Q. injection Q as <-. cbn [color AsciiConverter.x AsciiConverter.y].
  rewrite E. reflexivity.
Qed.

Lemma sampleCell_none_iff (x y : Z) :
  sampleCell pixels width height settings x y = None <->
  cellPixelCount pixels width height settings x y = 0.
Proof.
  unfold sampleCell, cellPixelCount. cbv zeta.
  destruct (blockTotals pixels width height
              (floor (mul (ofZ x) (pixelSize settings)))
              (floor (mul (ofZ y) (div (pixelSize settings) CHAR_ASPECT_RATIO)))
              (ceil (pixelSize settings))
              (ceil (div (pixelSize settings) CHAR_ASPECT_RATIO)))
    as [[[totalR totalG] totalB] count] eqn:E.
  cbn [snd]. destruct (count =? 0) eqn:C.
  - apply Z.eqb_eq in C. tauto.
  - apply Z.eqb_neq in C. split; [discriminate | contradiction].
Qed.

End SamplerStructure.

Lemma applyBlendMode_normal {num : Type} `{Number num} (cr cg cb : num) :
  applyBlendMode cr cg cb Normal = {| r := cr; g := cg; b := cb |}.
Proof. reflexivity. Qed.

(** C1, as stated, fails: the averages are overwritten by their blended
    values before the colour is chosen.  On a 2x4 frame of the gray
    (100,100,100), one cell, blend mode [multiply]: the cell's colour is
    100*100/255 = 39.2 rounded, [#272727], not the average [#646464]. *)
Lemma original_color_is_blended :
  colorMode (multiplySettings (num := float)) = Original /\
  exists pixels cell,
    getImageData (solidCanvas 2 4 100) 2 4 = Some pixels /\
    convertFrameToASCII (solidCanvas 2 4 100) 2 4 (multiplySettings (num := float))
      = Some [[cell]] /\
    color cell = "#272727" /\
    preBlendColor pixels 2 4 (multiplySettings (num := float)) cell = "#646464".
Proof.
  split; [reflexivity|].
  eexists. eexists. split; [vm_compute; reflexivity|].
  split; [vm_compute; reflexivity|].
  split; vm_compute; reflexivity.
Qed.

(** C1, amended: for every sampled cell, when [colorMode] is [original] the
    cell's colour is the averaged RGB of the cell's pixels after the
    blend-mode transform, rounded to hex; the transform feeds the colour as
    well as the glyph.  With blend mode [normal] that is the plain average. *)
Theorem original_color_follows_blend {num : Type} `{Number num}
    (ctx : Canvas) (width height : Z) (settings : ASCIISettings num)
    (grid : list (list ASCIIChar)) (row : list ASCIIChar) (cell : ASCIIChar) :
  colorMode settings = Original ->
  convertFrameToASCII ctx width height settings = Some grid ->
  In row grid -> In cell row ->
  exists pixels,
    getImageData ctx width height = Some pixels /\
    color cell = postBlendColor pixels width height settings cell /\
    (blendMode settings = Normal ->
     color cell = preBlendColor pixels width height settings cell).
Proof.
  intros Hmode Hgrid Hrow Hcell. unfold convertFrameToASCII in Hgrid.
  destruct (getImageData ctx width height) as [pixels|]; [|discriminate].
  injection Hgrid as <-. exists pixels. split; [reflexivity|].
  assert (exists x y, sampleCell pixels width height settings x y = Some cell)
    as (x & y & E).
  { destruct (Z_le_gt_dec 0 (gridRows height settings)) as [Hr|Hr].
    - destruct (grid_rows pixels width height settings
                  (gridCols width settings) (gridRows height settings) Hr)
        as [_ Hin].
      destruct (Hin row Hrow) as (y & _ & ->).
      destruct (sampleRow_cells _ _ _ _ _ _ _ Hcell) as (x & _ & E).
      exists x, y. exact E.
    - rewrite grid_rows_nonpositive in Hrow by lia. destruct Hrow. }
  pose proof (sampleCell_some pixels width height settings x y cell E) as C.
  cbv zeta in C. unfold cellColor in C. rewrite Hmode in C.
  split.
  - exact C.
  - intros Hn. rewrite C, Hn. unfold preBlendColor, hexOf. reflexivity.
Qed.

Lemma original_color_follows_blend_witness :
  exists pixels,
    getImageData (solidCanvas 2 4 100) 2 4 = Some pixels /\
    "#272727" =
      postBlendColor pixels 2 4 (multiplySettings (num := float))
        {| char := ":"; color := "#272727"; x := 0; y := 0 |} /\
    (blendMode (multiplySettings (num := float)) = Normal ->
     "#272727" =
       preBlendColor pixels 2 4 (multiplySettings (num := float))
         {| char := ":"; color := "#272727"; x := 0; y := 0 |}).
Proof.
  apply (original_color_follows_blend (solidCanvas 2 4 100) 2 4
           (multiplySettings (num := float))
           [[ {| char := ":"; color := "#272727"; x := 0; y := 0 |} ]]
           [ {| char := ":"; color := "#272727"; x := 0; y := 0 |} ]
           {| char := ":"; color := "#272727"; x := 0; y := 0 |}).
  - reflexivity.
  - vm_compute. reflexivity.
  - left. reflexivity.
  - left. reflexivity.
Defined.
(* ------------------------------------------------------------------ *)
(** ** The sampler: grid dimensions in exact arithmetic *)
(* ------------------------------------------------------------------ *)

Lemma Qfloor_nonneg (q : Q) : (0 <= q)%Q -> 0 <= Qfloor q.
Proof.
  intros Hq. apply Qfloor_resp_le in Hq. exact Hq.
Qed.

Lemma Qceiling_pos (q : Q) : (0 < q)%Q -> 1 <= Qceiling q.
Proof.
  intros Hq. pose proof (Qle_ceiling q) as L.
  assert (inject_Z 0 < inject_Z (Qceiling q))%Q as P.
  { change (inject_Z 0) with 0%Q. lra. }
  rewrite <- Zlt_Qlt in P. lia.
Qed.

(** The cell at index [k] along a side of [n] pixels, cut in steps of [step],
    starts inside the side. *)
Lemma cell_start_inside (n k : Z) (step : Q) :
  (0 < step)%Q ->
  0 <= k < Qfloor (inject_Z n / step) ->
  0 <= Qfloor (inject_Z k * step) < n.
Proof.
  intros Hs [Hk0 Hk]. split.
  - apply Qfloor_nonneg. apply Qmult_le_0_compat; [|lra].
    change 0%Q with (inject_Z 0). rewrite <- Zle_Qle. exact Hk0.
  - pose proof (Qfloor_le (inject_Z n / step)) as F.
    assert (inject_Z (k + 1) <= inject_Z n / step)%Q as L.
    { eapply Qle_trans; [|exact F]. rewrite <- Zle_Qle. lia. }
    rewrite inject_Z_plus in L. change (inject_Z 1) with 1%Q in L.
    assert ((inject_Z k + 1) * step <= inject_Z n)%Q as M.
    { apply (Qmult_le_compat_r _ _ step) in L; [|lra].
      assert (inject_Z n / step * step == inject_Z n)%Q as D by (field; lra).
      rewrite D in L. exact L. }
    pose proof (Qfloor_le (inject_Z k * step)) as G.
    assert (inject_Z (Qfloor (inject_Z k * step)) < inject_Z n)%Q as U.
    { eapply Qle_lt_trans; [exact G|].
      eapply Qlt_le_trans; [|exact M].
      rewrite Qmult_plus_distr_l. lra. }
    rewrite <- Zlt_Qlt in U. exact U.
Qed.

Section ExactGrid.
Variables (ctx : Canvas) (width height : Z) (settings : ASCIISettings Q).
Hypothesis width_pos : 1 <= width.
Hypothesis height_pos : 1 <= height.
Hypothesis pixelSize_valid : (2 <= pixelSize settings)%Q.

(** The vertical step, [pixelSize / CHAR_ASPECT_RATIO]. *)
Lemma stepY_eq :
  (div (pixelSize settings) CHAR_ASPECT_RATIO == pixelSize settings / (6 # 10))%Q.
Proof.
  unfold CHAR_ASPECT_RATIO, div; simpl.
  rewrite (lit_exact (6 # 10)). reflexivity.
Qed.

Lemma stepY_pos : (0 < div (pixelSize settings) CHAR_ASPECT_RATIO)%Q.
Proof.
  rewrite stepY_eq. apply Qlt_shift_div_l; [reflexivity | lra].
Qed.

Lemma getImageData_defined :
  exists pixels, getImageData ctx width height = Some pixels.
Proof.
  unfold getImageData.
  destruct (width =? 0) eqn:Ew; [apply Z.eqb_eq in Ew; lia|].
  destruct (height =? 0) eqn:Eh; [apply Z.eqb_eq in Eh; lia|].
  eexists. reflexivity.
Qed.

Lemma gridCols_nonneg : 0 <= gridCols width settings.
Proof.
  unfold gridCols. apply Qfloor_nonneg.
  unfold div, ofZ; simpl. apply Qle_shift_div_l; [lra|].
  rewrite Qmult_0_l. change 0%Q with (inject_Z 0). rewrite <- Zle_Qle. lia.
Qed.

Lemma gridRows_nonneg : 0 <= gridRows height settings.
Proof.
  unfold gridRows. apply Qfloor_nonneg.
  change (0 <= inject_Z height / div (pixelSize settings) CHAR_ASPECT_RATIO)%Q.
  apply Qle_shift_div_l; [apply stepY_pos|].
  rewrite Qmult_0_l. change 0%Q with (inject_Z 0). rewrite <- Zle_Qle. lia.
Qed.

(** Every position of the grid counts at least one pixel. *)
Lemma in_grid_count (pixels : list Z) (x y : Z) :
  0 <= x < gridCols width settings ->
  0 <= y < gridRows height settings ->
  1 <= cellPixelCount pixels width height settings x y.
Proof.
  intros Hx Hy. unfold cellPixelCount. cbv zeta.
  assert (0 < pixelSize settings)%Q as Hp by lra.
  pose proof (cell_start_inside width x (pixelSize settings) Hp Hx) as Bx.
  pose proof (cell_start_inside height y
                (div (pixelSize settings) CHAR_ASPECT_RATIO) stepY_pos Hy) as By.
  apply blockTotals_count.
  - apply Qceiling_pos. exact Hp.
  - apply Qceiling_pos. apply stepY_pos.
  - apply Bx.
  - apply By.
Qed.

Lemma in_grid_sampled (pixels : list Z) (x y : Z) :
  0 <= x < gridCols width settings ->
  0 <= y < gridRows height settings ->
  sampleCell pixels width height settings x y <> None.
Proof.
  intros Hx Hy E. apply sampleCell_none_iff in E.
  pose proof (in_grid_count pixels x y Hx Hy). lia.
Qed.

(** The sampler returns a grid of [gridRows] rows of [gridCols] cells. *)
Lemma grid_is_rectangular :
  exists pixels grid,
    getImageData ctx width height = Some pixels /\
    convertFrameToASCII ctx width height settings = Some grid /\
    len grid = gridRows height settings /\
    Forall (fun row => len row = gridCols width settings) grid.
Proof.
  destruct getImageData_defined as [pixels E].
  unfold convertFrameToASCII. rewrite E. cbv zeta.
  eexists. eexists. split; [reflexivity|]. split; [reflexivity|].
  destruct (grid_rows pixels width height settings (gridCols width settings)
              (gridRows height settings) gridRows_nonneg) as [L R].
  split; [exact L|].
  apply Forall_forall. intros row Hin.
  destruct (R row Hin) as (y & Hy & ->).
  apply sampleRow_length; [apply gridCols_nonneg|].
  intros x Hx. apply in_grid_sampled; assumption.
Qed.

Lemma gridCols_formula :
  gridCols width settings = Qfloor (inject_Z width / pixelSize settings).
Proof. reflexivity. Qed.

Lemma gridRows_formula :
  gridRows height settings =
  Qfloor (inject_Z height / (pixelSize settings / (6 # 10))).
Proof.
  unfold gridRows. apply Qfloor_comp.
  change (inject_Z height / div (pixelSize settings) CHAR_ASPECT_RATIO ==
          inject_Z height / (pixelSize settings / (6 # 10)))%Q.
  rewrite stepY_eq. reflexivity.
Qed.

End ExactGrid.

(** C3, as stated, fails on the doubles a JavaScript engine computes with:
    [stepY = pixelSize / 0.6] and [height / stepY] are both rounded, and the
    floor of the rounded quotient can fall one short of the floor over the
    reals.  At pixel size 7 and height 35, [7 / 0.6] rounds to
    11.666666666666668, [35 / stepY] to 2.9999999999999996, and the sampler
    returns 2 rows where [floor(35 / (7 / 0.6))] is 3; at pixel size 10 and
    height 500 it computes 29 rows where [floor(500 / (10 / 0.6))] is 30. *)
Lemma grid_rows_fall_short_on_doubles :
  (exists grid,
     convertFrameToASCII (num := float) (solidCanvas 7 35 0) 7 35 (sizedSettings 7)
       = Some grid /\
     len grid = 2) /\
  Qfloor (inject_Z 35 / (pixelSize (sizedSettings (num := Q) 7) / (6 # 10))) = 3 /\
  gridRows (num := float) 500 (sizedSettings 10) = 29 /\
  Qfloor (inject_Z 500 / (pixelSize (sizedSettings (num := Q) 10) / (6 # 10))) = 30.
Proof.
  split; [eexists; split; vm_compute; reflexivity|].
  repeat split; vm_compute; reflexivity.
Qed.

(** C3, amended: in exact arithmetic, for a frame of width and height at
    least 1 and a pixel size of at least 2, the sampler returns a grid of
    [floor(height / (pixelSize / 0.6))] rows, each of
    [floor(width / pixelSize)] cells. *)
Theorem grid_dimensions (ctx : Canvas) (width height : Z) (settings : ASCIISettings Q) :
  1 <= width -> 1 <= height -> (2 <= pixelSize settings)%Q ->
  exists grid,
    convertFrameToASCII ctx width height settings = Some grid /\
    len grid = Qfloor (inject_Z height / (pixelSize settings / (6 # 10))) /\
    Forall (fun row => len row = Qfloor (inject_Z width / pixelSize settings)) grid.
Proof.
  intros Hw Hh Hp.
  destruct (grid_is_rectangular ctx width height settings Hw Hh Hp)
    as (pixels & grid & _ & E & L & R).
  exists grid. split; [exact E|].
  rewrite <- (gridRows_formula height settings).
  rewrite <- (gridCols_formula width settings).
  split; [exact L | exact R].
Qed.

Lemma grid_dimensions_witness :
  exists grid,
    convertFrameToASCII (solidCanvas 16 16 0) 16 16 (DEFAULT_SETTINGS (num := Q))
      = Some grid /\
    len grid = Qfloor (inject_Z 16 / (pixelSize (DEFAULT_SETTINGS (num := Q)) / (6 # 10))) /\
    Forall (fun row => len row =
              Qfloor (inject_Z 16 / pixelSize (DEFAULT_SETTINGS (num := Q)))) grid.
Proof.
  apply (grid_dimensions (solidCanvas 16 16 0) 16 16 (DEFAULT_SETTINGS (num := Q))).
  - lia.
  - lia.
  - vm_compute. discriminate.
Defined.

(** C10: for a frame of width and height at least 1 and a pixel size of at
    least 2, every grid position (row below [rows], column below [cols])
    counts at least one pixel, so its cell is never skipped, and every row
    of the result holds exactly [cols] cells. *)
Theorem in_grid_cells_are_never_skipped (ctx : Canvas) (width height : Z)
    (settings : ASCIISettings Q) :
  1 <= width -> 1 <= height -> (2 <= pixelSize settings)%Q ->
  exists pixels grid,
    getImageData ctx width height = Some pixels /\
    convertFrameToASCII ctx width height settings = Some grid /\
    (forall x y,
       0 <= x < gridCols width settings -> 0 <= y < gridRows height settings ->
       1 <= cellPixelCount pixels width height settings x y /\
       sampleCell pixels width height settings x y <> None) /\
    Forall (fun row => len row = gridCols width settings) grid.
Proof.
  intros Hw Hh Hp.
  destruct (grid_is_rectangular ctx width height settings Hw Hh Hp)
    as (pixels & grid & Ep & E & _ & R).
  exists pixels, grid. split; [exact Ep|]. split; [exact E|].
  split; [|exact R].
  intros x y Hx Hy. split.
  - apply in_grid_count; assumption.
  - apply in_grid_sampled; assumption.
Qed.

Lemma in_grid_cells_are_never_skipped_witness :
  exists pixels grid,
    getImageData (solidCanvas 16 16 0) 16 16 = Some pixels /\
    convertFrameToASCII (solidCanvas 16 16 0) 16 16 (DEFAULT_SETTINGS (num := Q))
      = Some grid /\
    (forall x y,
       0 <= x < gridCols 16 (DEFAULT_SETTINGS (num := Q)) ->
       0 <= y < gridRows 16 (DEFAULT_SETTINGS (num := Q)) ->
       1 <= cellPixelCount pixels 16 16 (DEFAULT_SETTINGS (num := Q)) x y /\
       sampleCell pixels 16 16 (DEFAULT_SETTINGS (num := Q)) x y <> None) /\
    Forall (fun row => len row = gridCols 16 (DEFAULT_SETTINGS (num := Q))) grid.
Proof.
  apply (in_grid_cells_are_never_skipped (solidCanvas 16 16 0) 16 16
           (DEFAULT_SETTINGS (num := Q))).
  - lia.
  - lia.
  - vm_compute. discriminate.
Defined.

(* ------------------------------------------------------------------ *)
(** ** The pixel buffer *)
(* ------------------------------------------------------------------ *)

Lemma upto_length (n : Z) : 0 <= n -> len (upto n) = n.
Proof.
  intros Hn. unfold len, upto. rewrite length_map, length_seq. lia.
Qed.

Lemma rgbaBuffer_length (w h : Z) (f : Z -> Z -> Z -> Z) :
  0 <= w -> 0 <= h -> len (rgbaBuffer w h f) = 4 * w * h.
Proof.
  intros Hw Hh. unfold rgbaBuffer, len.
  rewrite (flat_map_constant_length (c := Z.to_nat (4 * w))).
  - pose proof (upto_length h Hh) as L. unfold len in L. nia.
  - intros y _. rewrite (flat_map_constant_length (c := 4%nat)).
    + pose proof (upto_length w Hw) as L. unfold len in L. lia.
    + intros x _. reflexivity.
Qed.

Lemma getImageData_length (ctx : Canvas) (width height : Z) (pixels : list Z) :
  getImageData ctx width height = Some pixels ->
  len pixels = 4 * Z.abs width * Z.abs height.
Proof.
  unfold getImageData.
  destruct ((width =? 0) || (height =? 0)); [discriminate|].
  intros E. injection E as <-. apply rgbaBuffer_length; lia.
Qed.

(** The reads of [blockTotals] stay inside the buffer of a [width] by
    [height] frame: its guards keep the pixel inside the frame. *)
Lemma pixel_index_in_buffer (width height pixelX pixelY px py : Z) :
  0 <= pixelX -> 0 <= pixelY -> 0 <= px -> 0 <= py ->
  pixelX + px < width -> pixelY + py < height ->
  0 <= ((pixelY + py) * width + (pixelX + px)) * 4 /\
  ((pixelY + py) * width + (pixelX + px)) * 4 + 3 < 4 * Z.abs width * Z.abs height.
Proof.
  intros. split; nia.
Qed.

(* ------------------------------------------------------------------ *)
(** ** The renderer on a rectangular grid *)
(* ------------------------------------------------------------------ *)

Lemma get_some {A : Type} (a : list A) (i : Z) :
  0 <= i < len a -> exists v, get a i = Some v /\ In v a.
Proof.
  intros [L U]. unfold get, len in *.
  destruct (i <? 0) eqn:E; [apply Z.ltb_lt in E; lia|].
  destruct (nth_error a (Z.to_nat i)) as [v|] eqn:N.
  - exists v. split; [reflexivity|]. eapply nth_error_In. exact N.
  - apply nth_error_None in N. lia.
Qed.

Lemma get_firstn {A : Type} (a : list A) (k : Z) (v : A) :
  0 <= k -> get a k = Some v ->
  firstn (Z.to_nat (k + 1)) a = (firstn (Z.to_nat k) a ++ [v])%list.
Proof.
  intros Hk. unfold get.
  destruct (k <? 0) eqn:E; [apply Z.ltb_lt in E; lia|].
  replace (Z.to_nat (k + 1)) with (Datatypes.S (Z.to_nat k)) by lia.
  generalize (Z.to_nat k) as n. clear. intros n. revert a.
  induction n as [|n IH]; intros [|w a] N; try discriminate N.
  - injection N as ->. reflexivity.
  - simpl in N. change (firstn (Datatypes.S (Datatypes.S n)) (w :: a))
      with (w :: firstn (Datatypes.S n) a).
    rewrite (IH a N). reflexivity.
Qed.

Section Renderer.
Context {num : Type} `{Number num}.

Lemma drawCells_some (asciiChars : list (list ASCIIChar)) (rows cols : Z)
    (cellWidth cellHeight : num) (outputCtx : Drawing num) :
  0 <= rows -> 0 <= cols ->
  (forall y, 0 <= y < rows ->
     exists row, get asciiChars y = Some row /\ len row = cols) ->
  exists ops, drawCells asciiChars rows cols cellWidth cellHeight outputCtx = Some ops.
Proof.
  intros Hr Hc Hgrid. unfold drawCells.
  apply (for_lt_invariant (fun _ acc => exists ops, acc = Some ops)).
  - exact Hr.
  - eexists. reflexivity.
  - intros y acc Hy IH.
    destruct (Hgrid y Hy) as (row & Erow & Lrow).
    apply (for_lt_invariant (fun _ acc => exists ops, acc = Some ops)).
    + exact Hc.
    + exact IH.
    + intros x acc' Hx [ops ->]. rewrite Erow.
      destruct (get_some row x) as (cell & Ecell & _); [lia|].
      rewrite Ecell. eexists. reflexivity.
Qed.

(** On a grid whose rows all have the same length the renderer does not
    throw. *)
Lemma renderASCIIToCanvas_rectangular (outputCtx : Drawing num)
    (asciiChars : list (list ASCIIChar)) (settings : ASCIISettings num)
    (outputWidth outputHeight cols : Z) :
  Forall (fun row => len row = cols) asciiChars ->
  exists ops,
    renderASCIIToCanvas outputCtx asciiChars settings outputWidth outputHeight
      = Some ops.
Proof.
  intros R. unfold renderASCIIToCanvas. cbv zeta.
  destruct ((len asciiChars =? 0) || (len (toRow (get asciiChars 0)) =? 0)) eqn:E.
  - eexists. reflexivity.
  - apply orb_false_iff in E. destruct E as [E0 E1].
    apply Z.eqb_neq in E0.
    assert (0 <= len asciiChars) as Hl by (unfold len; lia).
    destruct (get_some asciiChars 0) as (row0 & G0 & In0); [lia|].
    rewrite G0. cbn [toRow].
    rewrite Forall_forall in R. rewrite (R row0 In0).
    apply drawCells_some.
    + exact Hl.
    + rewrite <- (R row0 In0). unfold len. lia.
    + intros y Hy. destruct (get_some asciiChars y Hy) as (row & G & Hin).
      exists row. split; [exact G | apply R; exact Hin].
Qed.

End Renderer.

(* ------------------------------------------------------------------ *)
(** ** The export loops *)
(* ------------------------------------------------------------------ *)

Section ExportLoops.
Import AsciiPreview.
Variables (br : Browser Q) (props : ASCIIPreviewProps Q).
Variables (exportWidth exportHeight : Z).
Hypothesis width_pos : 1 <= originalWidth props.
Hypothesis height_pos : 1 <= originalHeight props.
Hypothesis pixelSize_valid : (2 <= pixelSize (settings props))%Q.

(** Sampling and rendering go through and leave the encoder alone. *)
Lemma renderExport_done (s : State Q) :
  exists s',
    renderExport props exportWidth exportHeight s = Done s' /\ gif s' = gif s.
Proof.
  unfold renderExport.
  destruct (grid_is_rectangular (sourceCanvas s) (originalWidth props)
              (originalHeight props) (settings props)
              width_pos height_pos pixelSize_valid)
    as (pixels & grid & _ & E & _ & R).
  rewrite E. cbn [orThrow bind].
  destruct (renderASCIIToCanvas_rectangular (exportCanvas s) grid (settings props)
              exportWidth exportHeight _ R) as [ops D].
  rewrite D. cbn [orThrow bind].
  eexists. split; reflexivity.
Qed.

Hypothesis frame_contexts : forall i, frameContext br i = true.
Hypothesis export_drawable : drawableCanvas exportWidth exportHeight = true.

(** A round of the GIF loop on a decoded frame appends one frame, with that
    frame's exported delay. *)
Lemma gifRound_done (frames : list (GifFrame Q)) (totalFrames i : Z)
    (frame : GifFrame Q) (s : State Q) :
  gifFrames props = Some frames ->
  get frames i = Some frame ->
  decodedFrame frame = true ->
  exists s',
    gifRound br props frames exportWidth exportHeight totalFrames i s = Done s' /\
    map frameDelay (gif s') = (map frameDelay (gif s) ++ [exportedDelay frame])%list.
Proof.
  intros Hf Hg Hd. unfold gifRound, renderGifFrame.
  rewrite Hf, Hg. unfold decodedFrame in Hd. rewrite Hd. cbn [bind].
  match goal with
  | |- context [renderExport props exportWidth exportHeight ?s0] =>
      destruct (renderExport_done s0) as (s1 & E & G)
  end.
  rewrite E. cbn [bind orThrow]. unfold addFrame.
  rewrite frame_contexts, export_drawable. cbn [bind].
  eexists. split; [reflexivity|].
  cbn [gif setExportProgress withGif]. rewrite map_app, G. reflexivity.
Qed.

Hypothesis seeks_complete : forall t, seeked br t = true.


Hypothesis contexts_ready : contexts br = true.

Lemma gif_export_delays (frames : list (GifFrame Q)) (s : State Q) :
  gifFrames props = Some frames ->
  isAnimatedGif props = true ->
  Forall (fun f => decodedFrame f = true) frames ->
  exists s',
    exportAsGIF br props exportWidth exportHeight s = Done s' /\
    map frameDelay (gif s') = map exportedDelay frames.
Proof.
  intros Hf Ha Hd. unfold exportAsGIF. rewrite contexts_ready, Ha, Hf.
  cbn [negb]. cbv zeta.
  assert (0 <= len frames) as Hl by (unfold len; lia).
  pose proof (for_lt_invariant
    (fun k acc => exists s', acc = Done s' /\
       map frameDelay (gif s') = map exportedDelay (firstn (Z.to_nat k) frames))
    (len frames)
    (fun i acc =>
       s0 <- acc ;;
       gifRound br props frames exportWidth exportHeight (len frames) i s0)
    (Done (withGif (withExportCanvas s []) [])) Hl) as L.
  destruct L as (s' & E & D).
  - eexists. split; reflexivity.
  - intros k acc Hk (s0 & -> & D0). cbn [bind].
    destruct (get_some frames k Hk) as (frame & G & Hin).
    rewrite Forall_forall in Hd.
    destruct (gifRound_done frames (len frames) k frame s0 Hf G (Hd frame Hin))
      as (s1 & E1 & D1).
    exists s1. split; [exact E1|].
    rewrite D1, D0, (get_firstn frames k frame (proj1 Hk) G), map_app.
    reflexivity.
  - exists s'. split; [exact E|].
    rewrite D. unfold len. rewrite Nat2Z.id, firstn_all. reflexivity.
Qed.


End ExportLoops.

Section ExportStatements.
Import AsciiPreview.

(** C4, as stated, fails on the delay: a frame whose delay is 0 is exported
    with 100 ms ([gifFrames[i].delay || 100]).  Two frames with the delays 0
    and 200 come out with the delays 100 and 200. *)
Lemma gif_export_replaces_zero_delay :
  exists frames s',
    gifFrames (twoFrameGif (num := float) (ofZ 0) (ofZ 200)) = Some frames /\
    map delay frames = [ofZ 0; ofZ 200] /\
    exportAsGIF plainBrowser (twoFrameGif (num := float) (ofZ 0) (ofZ 200))
      20 40 blankState = Done s' /\
    map frameDelay (gif s') = [ofZ 100; ofZ 200].
Proof.
  eexists. eexists. split; [reflexivity|].
  split; [reflexivity|].
  split; vm_compute; reflexivity.
Qed.

(** C4, amended: for an animated GIF of n decoded frames (n at least 2), on a
    surface at least 1 pixel wide and high, with a pixel size of at least 2,
    an export canvas without a side of zero and a browser that hands out the
    contexts asked for, the export gets through and appends exactly n
    frames, the i-th from the i-th source frame; each carries that frame's
    delay when the delay is not 0, and 100 ms when it is. *)
Theorem gif_export_keeps_every_frame (br : Browser Q) (props : ASCIIPreviewProps Q)
    (exportWidth exportHeight : Z) (frames : list (GifFrame Q)) (s : State Q) :
  gifFrames props = Some frames ->
  isAnimatedGif props = true ->
  Forall (fun f => decodedFrame f = true) frames ->
  contexts br = true ->
  (forall i, frameContext br i = true) ->
  drawableCanvas exportWidth exportHeight = true ->
  1 <= originalWidth props ->
  1 <= originalHeight props ->
  (2 <= pixelSize (settings props))%Q ->
  exists s',
    exportAsGIF br props exportWidth exportHeight s = Done s' /\
    len (gif s') = len frames /\
    map frameDelay (gif s') = map exportedDelay frames /\
    (Forall (fun f => truthy (delay f) = true) frames ->
     map frameDelay (gif s') = map delay frames).
Proof.
  intros Hf Ha Hd Hc Hfc Hx Hw Hh Hp.
  destruct (gif_export_delays br props exportWidth exportHeight Hw Hh Hp Hfc Hx Hc
              frames s Hf Ha Hd) as (s' & E & D).
  exists s'. split; [exact E|]. split; [|split; [exact D|]].
  - unfold len. rewrite <- (length_map frameDelay), D, length_map. reflexivity.
  - intros Ht. rewrite D. apply map_ext_in. intros f Hin.
    rewrite Forall_forall in Ht. unfold exportedDelay. rewrite (Ht f Hin).
    reflexivity.
Qed.

Lemma gif_export_keeps_every_frame_witness :
  exists s',
    exportAsGIF plainBrowser (twoFrameGif (num := Q) 100%Q 200%Q) 20 40 blankState
      = Done s' /\
    map frameDelay (gif s') = [100%Q; 200%Q].
Proof.
  destruct (gif_export_keeps_every_frame plainBrowser
              (twoFrameGif (num := Q) 100%Q 200%Q) 20 40
              [ {| patch := solidPatch 2 4 100;
                   dims := {| top := 0; left := 0; width := 2; height := 4 |};
                   delay := 100%Q; disposalType := 2 |};
                {| patch := solidPatch 2 4 200;
                   dims := {| top := 0; left := 0; width := 2; height := 4 |};
                   delay := 200%Q; disposalType := 1 |} ]
              blankState)
    as (s' & E & _ & D & _).
  - reflexivity.
  - reflexivity.
  - repeat constructor.
  - reflexivity.
  - intros i. reflexivity.
  - reflexivity.
  - simpl. lia.
  - simpl. lia.
  - vm_compute. discriminate.
  - exists s'. split; [exact E | exact D].
Defined.



End ExportStatements.

(* ------------------------------------------------------------------ *)
(** ** The scenarios of the specification, and the doubles *)
(* ------------------------------------------------------------------ *)

Example black_frame_scenario :
  convertFrameToASCII (solidCanvas 16 16 0) 16 16 (DEFAULT_SETTINGS (num := float)) =
  Some [[ {| char := "."; color := "#000000"; x := 0; y := 0 |};
          {| char := "."; color := "#000000"; x := 8; y := 0 |} ]].
Proof. vm_compute. reflexivity. Qed.

Example white_frame_scenario :
  convertFrameToASCII (solidCanvas 16 16 255) 16 16 (DEFAULT_SETTINGS (num := float)) =
  Some [[ {| char := "@"; color := "#ffffff"; x := 0; y := 0 |};
          {| char := "@"; color := "#ffffff"; x := 8; y := 0 |} ]].
Proof. vm_compute. reflexivity. Qed.

(** On whole intensities the identity of C6 also holds on doubles, for the
    default ramp. *)
Example invert_mirror_whole_intensities :
  forallb (fun x =>
      String.eqb
        (getCharacterForBrightness (num := float) (ofZ x) ".:-=+*#%@" true)
        (getCharacterForBrightness (num := float) (sub (ofZ 255) (ofZ x)) ".:-=+*#%@" false))
    (upto 256) = true.
Proof. vm_compute. reflexivity. Qed.

(** The 60-second video of C8, on doubles: 150 frames, each with the delay
    1000/15 as a double. *)
Example video_export_on_doubles :
  exists s',
    AsciiPreview.exportAsGIF (num := float) plainBrowser (videoOf (ofZ 60)) 20 40
      blankState = AsciiPreview.Done s' /\
    map AsciiPreview.frameDelay (AsciiPreview.gif s')
      = repeat (div (ofZ 1000) (ofZ 15)) 150.
Proof. eexists. split; vm_compute; reflexivity. Qed.

(** An export canvas with a side of zero: copying it onto the frame canvas
    throws, in the loop over the GIF frames and in the loop over the video. *)
Example zero_sided_export_throws :
  AsciiPreview.exportAsGIF (num := float) plainBrowser
    (twoFrameGif (ofZ 100) (ofZ 200)) 0 40 blankState = AsciiPreview.Throws /\
  AsciiPreview.exportAsGIF (num := float) plainBrowser (videoOf (ofZ 60)) 20 0
    blankState = AsciiPreview.Throws.
Proof. split; vm_compute; reflexivity. Qed.

(** On doubles too black has luma 0 and white luma 255, the ends of the
    range. *)
Example luma_extremes_on_doubles :
  rgbToGrayscale (num := float) (ofZ 0) (ofZ 0) (ofZ 0) = ofZ 0 /\
  rgbToGrayscale (num := float) (ofZ 255) (ofZ 255) (ofZ 255) = ofZ 255.
Proof. split; vm_compute; reflexivity. Qed.

(** On doubles, for the pixel sizes of the slider (2 to 24) and sides of 1
    to 1100 pixels, the number of columns is the one of C3 and the number of
    rows is the one of C3 or one less. *)
Example grid_dimensions_on_doubles :
  forallb (fun p =>
     forallb (fun n =>
        let cols := gridCols (n + 1) (sizedSettings (num := float) p) in
        let rows := gridRows (n + 1) (sizedSettings (num := float) p) in
        (cols =? Qfloor (inject_Z (n + 1) / inject_Z p)) &&
        ((rows =? Qfloor (inject_Z (n + 1) / (inject_Z p / (6 # 10)))) ||
         (rows =? Qfloor (inject_Z (n + 1) / (inject_Z p / (6 # 10))) - 1)))
       (upto 1100))
    sliderSizes = true.
Proof. vm_compute. reflexivity. Qed.

(** On doubles too the cells start inside the frame, for the pixel sizes of
    the slider (2 to 24) and sides of 1 to 256 pixels, along both axes. *)
Example cell_starts_inside_on_doubles :
  forallb (fun pixelSize =>
     forallb (fun n =>
        cellStartsInside (num := float) (n + 1) (ofZ pixelSize) &&
        cellStartsInside (num := float) (n + 1) (div (ofZ pixelSize) CHAR_ASPECT_RATIO))
       (upto 256))
    sliderSizes = true.
Proof. vm_compute. reflexivity. Qed.

(* ------------------------------------------------------------------ *)
(** ** More on the colour math *)
(* ------------------------------------------------------------------ *)

Lemma Qmin_mono_r (a x y : Q) : (x <= y)%Q -> (Qmin a x <= Qmin a y)%Q.
Proof.
  intros L.
  destruct (Q.min_spec a x) as [[? E]|[? E]];
    destruct (Q.min_spec a y) as [[? F]|[? F]]; lra.
Qed.

Lemma Qmax_mono_r (a x y : Q) : (x <= y)%Q -> (Qmax a x <= Qmax a y)%Q.
Proof.
  intros L.
  destruct (Q.max_spec a x) as [[? E]|[? E]];
    destruct (Q.max_spec a y) as [[? F]|[? F]]; lra.
Qed.

Lemma clamp_fixed (v : Q) : inByteRange v -> (Qmin 255 (Qmax 0 v) == v)%Q.
Proof.
  intros [L U].
  destruct (Q.max_spec 0 v) as [[? E]|[? E]];
    destruct (Q.min_spec 255 (Qmax 0 v)) as [[? F]|[? F]]; lra.
Qed.

Lemma rgbToGrayscale_exact (cr cg cb : Q) :
  (rgbToGrayscale cr cg cb ==
   (299 # 1000) * cr + (587 # 1000) * cg + (114 # 1000) * cb)%Q.
Proof.
  unfold rgbToGrayscale, lit, add, mul, div, ofZ; simpl.
  unfold inject_Z. field.
Qed.

(** X1: The luma of channels in [0,255] lies in [0,255], and the two ends are
    attained: black gives 0 and white gives 255. *)
Theorem rgbToGrayscale_range (cr cg cb : Q) :
  inByteRange cr -> inByteRange cg -> inByteRange cb ->
  inByteRange (rgbToGrayscale cr cg cb) /\
  (rgbToGrayscale 0 0 0 == 0)%Q /\
  (rgbToGrayscale 255 255 255 == 255)%Q.
Proof.
  unfold inByteRange. intros [Lr Ur] [Lg Ug] [Lb Ub].
  rewrite !rgbToGrayscale_exact. split; [split; lra|]. split; ring.
Qed.

Lemma rgbToGrayscale_range_witness :
  inByteRange (rgbToGrayscale 10%Q 200%Q 255%Q) /\
  (rgbToGrayscale 0 0 0 == 0)%Q /\
  (rgbToGrayscale 255 255 255 == 255)%Q.
Proof.
  apply (rgbToGrayscale_range 10 200 255);
    unfold inByteRange; split; vm_compute; discriminate.
Defined.

Lemma adjusted_in_range (gray brightness contrast : Q) :
  inByteRange (applyContrast (applyBrightness gray brightness) contrast).
Proof.
  destruct (applyContrast_cases (applyBrightness gray brightness) contrast)
    as [E|R]; [|exact R].
  rewrite E. apply applyBrightness_in_range.
Qed.

(** X2: Whatever gray value, brightness and contrast the sampler is given, the
    intensity it hands to the glyph mapper lies in [0,255]: [applyContrast]
    at a neutral factor returns what [applyBrightness] already clamped. *)
Theorem adjusted_intensity_in_range (gray brightness contrast : Q) :
  inByteRange (applyContrast (applyBrightness gray brightness) contrast).
Proof. apply adjusted_in_range. Qed.

Lemma Qmult_le_compat_nonneg_r (x y z : Q) :
  (0 <= z)%Q -> (x <= y)%Q -> (x * z <= y * z)%Q.
Proof. intros Hz L. apply Qmult_le_compat_r; assumption. Qed.

(** X3: With factors that are not negative, brightness and contrast keep the
    order of intensities. *)
Theorem brightness_contrast_monotone (v w brightness contrast : Q) :
  (0 <= brightness)%Q -> (0 <= contrast)%Q -> (v <= w)%Q ->
  (applyBrightness v brightness <= applyBrightness w brightness)%Q /\
  (applyContrast v contrast <= applyContrast w contrast)%Q.
Proof.
  intros Hb Hc L. split.
  - unfold applyBrightness, min, max, mul, ofZ; simpl.
    apply Qmin_mono_r, Qmax_mono_r, Qmult_le_compat_nonneg_r; assumption.
  - unfold applyContrast. destruct (ltb _ _); [exact L|].
    unfold min, max, add, mul, sub, ofZ; simpl.
    apply Qmin_mono_r, Qmax_mono_r.
    apply Qplus_le_compat; [|apply Qle_refl].
    apply Qmult_le_compat_nonneg_r; [exact Hc|].
    apply Qplus_le_compat; [exact L | apply Qle_refl].
Qed.

Lemma brightness_contrast_monotone_witness :
  (applyBrightness 100%Q 2%Q <= applyBrightness 200%Q 2%Q)%Q /\
  (applyContrast 100%Q 2%Q <= applyContrast 200%Q 2%Q)%Q.
Proof.
  apply (brightness_contrast_monotone 100 200 2 2); vm_compute; discriminate.
Defined.

Lemma applyBlendMode_in_range (cr cg cb : Q) (mode : BlendMode) :
  inByteRange cr -> inByteRange cg -> inByteRange cb ->
  inByteRange (r (applyBlendMode cr cg cb mode)) /\
  inByteRange (g (applyBlendMode cr cg cb mode)) /\
  inByteRange (b (applyBlendMode cr cg cb mode)).
Proof.
  assert (forall c, inByteRange c ->
            inByteRange (div (mul c c) (ofZ 255)) /\
            inByteRange (sub (ofZ 255)
                           (div (mul (sub (ofZ 255) c) (sub (ofZ 255) c)) (ofZ 255))) /\
            inByteRange (if ltb c (ofZ 128)
                         then div (mul (mul (ofZ 2) c) c) (ofZ 255)
                         else sub (ofZ 255)
                                (div (mul (mul (ofZ 2) (sub (ofZ 255) c)) (sub (ofZ 255) c))
                                     (ofZ 255))) /\
            inByteRange (abs (sub c (ofZ 128)))) as K.
  { intros c [L U]. cbv [div mul sub ofZ abs ltb Exact].
    change (inject_Z 255) with 255%Q. change (inject_Z 128) with 128%Q.
    change (inject_Z 2) with 2%Q.
    assert (c * c / 255 == c * c * (1 # 255))%Q as E1 by field.
    assert ((255 - c) * (255 - c) / 255 == (255 - c) * (255 - c) * (1 # 255))%Q
      as E2 by field.
    assert (2 * c * c / 255 == 2 * (c * c) * (1 # 255))%Q as E3 by field.
    assert (2 * (255 - c) * (255 - c) / 255 ==
            2 * ((255 - c) * (255 - c)) * (1 # 255))%Q as E4 by field.
    unfold inByteRange. repeat split.
    - rewrite E1. nra.
    - rewrite E1. nra.
    - rewrite E2. nra.
    - rewrite E2. nra.
    - destruct (Qltb c 128) eqn:B.
      + rewrite E3. nra.
      + apply Qltb_ge in B. rewrite E4. nra.
    - destruct (Qltb c 128) eqn:B.
      + apply Qltb_lt in B. rewrite E3. nra.
      + rewrite E4. nra.
    - apply Qabs_nonneg.
    - apply Qabs_Qle_condition. split; lra. }
  intros Hr Hg Hb.
  destruct (K cr Hr) as (R1 & R2 & R3 & R4).
  destruct (K cg Hg) as (G1 & G2 & G3 & G4).
  destruct (K cb Hb) as (B1 & B2 & B3 & B4).
  destruct mode; cbn [applyBlendMode r g b]; repeat split;
    first [ apply Hr | apply Hg | apply Hb
          | apply R1 | apply R2 | apply R3 | apply R4
          | apply G1 | apply G2 | apply G3 | apply G4
          | apply B1 | apply B2 | apply B3 | apply B4 ].
Qed.

(** X4: Every blend mode maps channels in [0,255] to channels in [0,255]. *)
Theorem applyBlendMode_range (cr cg cb : Q) (mode : BlendMode) :
  inByteRange cr -> inByteRange cg -> inByteRange cb ->
  inByteRange (r (applyBlendMode cr cg cb mode)) /\
  inByteRange (g (applyBlendMode cr cg cb mode)) /\
  inByteRange (b (applyBlendMode cr cg cb mode)).
Proof. apply applyBlendMode_in_range. Qed.

Lemma applyBlendMode_range_witness :
  inByteRange (r (applyBlendMode 10%Q 128%Q 255%Q Overlay)) /\
  inByteRange (g (applyBlendMode 10%Q 128%Q 255%Q Overlay)) /\
  inByteRange (b (applyBlendMode 10%Q 128%Q 255%Q Overlay)).
Proof.
  apply (applyBlendMode_range 10 128 255 Overlay);
    unfold inByteRange; split; vm_compute; discriminate.
Defined.

(* ------------------------------------------------------------------ *)
(** ** More on hex colours *)
(* ------------------------------------------------------------------ *)

Lemma hexDigit_range (c : ascii) (d : Z) : hexDigit c = Some d -> 0 <= d <= 15.
Proof.
  unfold hexDigit. cbv zeta.
  destruct ((48 <=? Z.of_N (N_of_ascii c)) && (Z.of_N (N_of_ascii c) <=? 57)) eqn:E1.
  - apply andb_true_iff in E1. destruct E1 as [A B].
    apply Z.leb_le in A. apply Z.leb_le in B. intros Q. injection Q as <-. lia.
  - destruct ((97 <=? Z.of_N (N_of_ascii c)) && (Z.of_N (N_of_ascii c) <=? 102)) eqn:E2.
    + apply andb_true_iff in E2. destruct E2 as [A B].
      apply Z.leb_le in A. apply Z.leb_le in B. intros Q. injection Q as <-. lia.
    + destruct ((65 <=? Z.of_N (N_of_ascii c)) && (Z.of_N (N_of_ascii c) <=? 70)) eqn:E3;
        [|discriminate].
      apply andb_true_iff in E3. destruct E3 as [A B].
      apply Z.leb_le in A. apply Z.leb_le in B. intros Q. injection Q as <-. lia.
Qed.

Lemma parseInt16_pair_range (c1 c2 : ascii) :
  isHexDigit c1 = true -> isHexDigit c2 = true ->
  isByte (parseInt16 (String c1 (String c2 ""))).
Proof.
  unfold isHexDigit, parseInt16, isByte. cbn [parseHexFrom].
  destruct (hexDigit c1) as [d1|] eqn:E1; [|discriminate].
  destruct (hexDigit c2) as [d2|] eqn:E2; [|discriminate].
  intros _ _.
  apply hexDigit_range in E1. apply hexDigit_range in E2. lia.
Qed.

Lemma hexToRgb_bytes (hex : string) :
  isByte (r (hexToRgb hex)) /\ isByte (g (hexToRgb hex)) /\ isByte (b (hexToRgb hex)).
Proof.
  unfold hexToRgb, hexPattern.
  destruct (stripHash hex) as [|c1 [|c2 [|c3 [|c4 [|c5 [|c6 [|c7 s]]]]]]];
    try (cbn [r g b]; unfold isByte; lia).
  destruct (forallb isHexDigit [c1; c2; c3; c4; c5; c6]) eqn:D;
    [|cbn [r g b]; unfold isByte; lia].
  simpl in D. repeat rewrite andb_true_iff in D.
  destruct D as (D1 & D2 & D3 & D4 & D5 & D6 & _).
  cbn [r g b]. repeat split; apply parseInt16_pair_range; assumption.
Qed.

(** X5: [hexToRgb] never fails and never leaves the channel range: every channel
    it returns, for any string, lies in 0..255, and a string its pattern
    rejects gives white. *)
Theorem hexToRgb_total (hex : string) :
  isByte (r (hexToRgb hex)) /\ isByte (g (hexToRgb hex)) /\ isByte (b (hexToRgb hex)) /\
  (wellFormedHex hex = false -> hexToRgb hex = white).
Proof.
  destruct (hexToRgb_bytes hex) as (R & G & B).
  split; [exact R|]. split; [exact G|]. split; [exact B|].
  unfold wellFormedHex, hexToRgb.
  destruct (hexPattern hex) as [[[r1 g1] b1]|]; [discriminate | reflexivity].
Qed.

Lemma hexToRgb_total_witness :
  isByte (r (hexToRgb "#12")) /\ hexToRgb "#12" = white.
Proof.
  destruct (hexToRgb_total "#12") as (R & _ & _ & W).
  split; [exact R | apply W; reflexivity].
Defined.

Lemma upto_In (n v : Z) : 0 <= v < n -> In v (upto n).
Proof.
  intros Hv. unfold upto. apply in_map_iff.
  exists (Z.to_nat v). split; [lia|]. apply in_seq. lia.
Qed.

Lemma byteHexOk_all : forallb byteHexOk (upto 256) = true.
Proof. vm_compute. reflexivity. Qed.

Lemma byte_hex_digits (v : Z) :
  isByte v ->
  exists c1 c2,
    padStart 2 "0" (toString16 v) = String c1 (String c2 "") /\
    isLowerHexDigit c1 = true /\ isLowerHexDigit c2 = true /\
    parseInt16 (String c1 (String c2 "")) = v.
Proof.
  intros Hv. pose proof byteHexOk_all as A.
  rewrite forallb_forall in A.
  specialize (A v (upto_In 256 v ltac:(unfold isByte in Hv; lia))).
  unfold byteHexOk in A.
  destruct (padStart 2 "0" (toString16 v)) as [|c1 [|c2 [|c3 s]]]; try discriminate.
  repeat rewrite andb_true_iff in A. destruct A as [[L1 L2] P].
  apply Z.eqb_eq in P. exists c1, c2. repeat split; assumption.
Qed.

Lemma rgbToHex_bytes (cr cg cb : Z) :
  isByte cr -> isByte cg -> isByte cb ->
  canonicalHex (rgbToHex cr cg cb) = true /\
  hexToRgb (rgbToHex cr cg cb) = {| r := cr; g := cg; b := cb |}.
Proof.
  intros Hr Hg Hb.
  destruct (byte_hex_digits cr Hr) as (r1 & r2 & Er & Lr1 & Lr2 & Pr).
  destruct (byte_hex_digits cg Hg) as (g1 & g2 & Eg & Lg1 & Lg2 & Pg).
  destruct (byte_hex_digits cb Hb) as (b1 & b2 & Eb & Lb1 & Lb2 & Pb).
  unfold rgbToHex. cbn [map]. rewrite Er, Eg, Eb.
  change ("#" ++ String.concat "" [String r1 (String r2 ""); String g1 (String g2 "");
                                   String b1 (String b2 "")])
    with (String "#" (String r1 (String r2 (String g1 (String g2
            (String b1 (String b2 ""))))))).
  split.
  - unfold canonicalHex. cbn [forallb]. rewrite Lr1, Lr2, Lg1, Lg2, Lb1, Lb2.
    reflexivity.
  - unfold hexToRgb, hexPattern. cbn [stripHash forallb].
    rewrite (isLowerHexDigit_isHexDigit _ Lr1), (isLowerHexDigit_isHexDigit _ Lr2),
      (isLowerHexDigit_isHexDigit _ Lg1), (isLowerHexDigit_isHexDigit _ Lg2),
      (isLowerHexDigit_isHexDigit _ Lb1), (isLowerHexDigit_isHexDigit _ Lb2).
    cbn [andb]. rewrite Pr, Pg, Pb. reflexivity.
Qed.

(** X6: The round trip from channels: for channels in 0..255, [rgbToHex] writes
    [#] and six lower-case digits, and [hexToRgb] reads the same channels
    back. *)
Theorem rgb_hex_round_trip (cr cg cb : Z) :
  isByte cr -> isByte cg -> isByte cb ->
  canonicalHex (rgbToHex cr cg cb) = true /\
  hexToRgb (rgbToHex cr cg cb) = {| r := cr; g := cg; b := cb |}.
Proof. apply rgbToHex_bytes. Qed.

Lemma rgb_hex_round_trip_witness :
  canonicalHex (rgbToHex 0 136 255) = true /\
  hexToRgb (rgbToHex 0 136 255) = {| r := 0; g := 136; b := 255 |}.
Proof. apply (rgb_hex_round_trip 0 136 255); unfold isByte; lia. Defined.

(* ------------------------------------------------------------------ *)
(** ** More on the gradient *)
(* ------------------------------------------------------------------ *)

Lemma round_half_up_range (q : Q) (lo hi : Z) :
  (inject_Z lo <= q)%Q -> (q <= inject_Z hi)%Q ->
  lo <= Qround_half_up q <= hi.
Proof.
  intros L U. unfold Qround_half_up. split.
  - assert (inject_Z lo <= q + (1 # 2))%Q as L' by lra.
    apply Qfloor_resp_le in L'. rewrite Qfloor_Z in L'. exact L'.
  - pose proof (Qfloor_le (q + (1 # 2))) as F.
    assert (inject_Z (Qfloor (q + (1 # 2))) < inject_Z (hi + 1))%Q as G.
    { rewrite inject_Z_plus. change (inject_Z 1) with 1%Q. lra. }
    rewrite <- Zlt_Qlt in G. lia.
Qed.

Lemma interpolate_channel_byte (c1 c2 : Z) (t : Q) :
  isByte c1 -> isByte c2 -> (0 <= t)%Q -> (t <= 1)%Q ->
  isByte (round (add (ofZ c1) (mul (sub (ofZ c2) (ofZ c1)) t))).
Proof.
  unfold isByte. intros [L1 U1] [L2 U2] T0 T1.
  cbv [round add mul sub ofZ Exact].
  assert (0 <= inject_Z c1)%Q as A1 by (change 0%Q with (inject_Z 0); rewrite <- Zle_Qle; lia).
  assert (inject_Z c1 <= 255)%Q as B1 by (change 255%Q with (inject_Z 255); rewrite <- Zle_Qle; lia).
  assert (0 <= inject_Z c2)%Q as A2 by (change 0%Q with (inject_Z 0); rewrite <- Zle_Qle; lia).
  assert (inject_Z c2 <= 255)%Q as B2 by (change 255%Q with (inject_Z 255); rewrite <- Zle_Qle; lia).
  apply round_half_up_range.
  - change (inject_Z 0) with 0%Q. nra.
  - change (inject_Z 255) with 255%Q. nra.
Qed.

Lemma last_cons_nonempty {A : Type} (v d d' : A) (a : list A) :
  last (v :: a) d = last (v :: a) d'.
Proof.
  revert v. induction a as [|w a IH]; intros v; [reflexivity|].
  change (last (v :: w :: a) d) with (last (w :: a) d).
  change (last (v :: w :: a) d') with (last (w :: a) d'). apply IH.
Qed.

Lemma interpolateGradient_from_one (colors : list string) (position : Q) :
  colors <> [] -> (1 <= position)%Q ->
  interpolateGradient colors position = last colors "".
Proof.
  intros Hne Hp.
  destruct colors as [|first rest]; [contradiction|].
  unfold interpolateGradient.
  set (stops := first :: rest).
  assert (1 <= len stops) as L by (unfold len, stops; simpl List.length; lia).
  destruct (len stops =? 0) eqn:E0; [apply Z.eqb_eq in E0; lia|].
  destruct (len stops =? 1) eqn:E1.
  - apply Z.eqb_eq in E1. unfold stops, len in E1. simpl List.length in E1.
    destruct rest; [reflexivity | simpl List.length in E1; lia].
  - apply Z.eqb_neq in E1. cbv zeta.
    assert (len stops - 1 <= floor (mul position (ofZ (len stops - 1)))) as F.
    { cbv [floor mul ofZ Exact].
      rewrite <- (Qfloor_Z (len stops - 1)) at 1. apply Qfloor_resp_le.
      assert (0 <= inject_Z (len stops - 1))%Q as N.
      { change 0%Q with (inject_Z 0). rewrite <- Zle_Qle. lia. }
      nra. }
    apply Z.leb_le in F. rewrite F.
    unfold stops. rewrite (get_last first ""). reflexivity.
Qed.

(** X7: The edges of [interpolateGradient]: no stop at all gives white at every
    position, and with at least one stop every position from 1 on gives the
    last stop as it is written. *)
Theorem interpolateGradient_clamps_to_last (colors : list string) (position : Q) :
  interpolateGradient [] position = "#ffffff" /\
  (colors <> [] -> (1 <= position)%Q ->
   interpolateGradient colors position = last colors "").
Proof.
  split; [reflexivity|]. intros Hne Hp.
  apply interpolateGradient_from_one; assumption.
Qed.

Lemma interpolateGradient_clamps_to_last_witness :
  interpolateGradient [] (1 # 3)%Q = "#ffffff" /\
  interpolateGradient ["#00ff88"; "not a colour"] 2%Q = "not a colour".
Proof.
  split.
  - apply (interpolateGradient_clamps_to_last ["#00ff88"] (1 # 3)).
  - apply (interpolateGradient_clamps_to_last ["#00ff88"; "not a colour"] 2).
    + discriminate.
    + discriminate.
Defined.

(** X8: At the position of a stop, [k / (n - 1)] for the stop of index [k] below
    the last one, the gradient is that stop parsed and written back. *)
Theorem interpolateGradient_at_stop (colors : list string) (k : Z)
    (stop : string) (position : Q) :
  0 <= k < len colors - 1 ->
  get colors k = Some stop ->
  (position == inject_Z k / inject_Z (len colors - 1))%Q ->
  interpolateGradient colors position = hexRoundTrip stop.
Proof.
  intros Hk Hg Hp. unfold interpolateGradient.
  destruct (len colors =? 0) eqn:E0; [apply Z.eqb_eq in E0; lia|].
  destruct (len colors =? 1) eqn:E1; [apply Z.eqb_eq in E1; lia|].
  cbv zeta.
  assert (mul position (ofZ (len colors - 1)) == inject_Z k)%Q as S0.
  { cbv [mul ofZ Exact]. rewrite Hp. field.
    intros Z0. change 0%Q with (inject_Z 0) in Z0.
    assert (len colors - 1 = 0) by (apply inject_Z_injective; exact Z0). lia. }
  assert (floor (mul position (ofZ (len colors - 1))) = k) as F.
  { apply Qfloor_of_Z. exact S0. }
  rewrite F.
  destruct (len colors - 1 <=? k) eqn:E; [apply Z.leb_le in E; lia|].
  assert (sub (mul position (ofZ (len colors - 1))) (ofZ k) == 0)%Q as T0.
  { cbv [sub ofZ Exact]. cbv [mul ofZ Exact] in S0. rewrite S0. ring. }
  rewrite !(interpolate_channel_at_start _ _ _ T0).
  rewrite Hg. reflexivity.
Qed.

Lemma interpolateGradient_at_stop_witness :
  interpolateGradient ["#00ff88"; "#FF00FF"; "#00ffff"] (1 # 2) = hexRoundTrip "#FF00FF".
Proof.
  apply (interpolateGradient_at_stop ["#00ff88"; "#FF00FF"; "#00ffff"] 1 "#FF00FF" (1 # 2)).
  - vm_compute. split; [discriminate | reflexivity].
  - reflexivity.
  - reflexivity.
Defined.

Lemma interpolateGradient_below_one (colors : list string) (position : Q) :
  2 <= len colors -> (0 <= position)%Q -> (position < 1)%Q ->
  canonicalHex (interpolateGradient colors position) = true.
Proof.
  intros Hn P0 P1. unfold interpolateGradient.
  destruct (len colors =? 0) eqn:E0; [apply Z.eqb_eq in E0; lia|].
  destruct (len colors =? 1) eqn:E1; [apply Z.eqb_eq in E1; lia|].
  cbv zeta.
  set (scaled := mul position (ofZ (len colors - 1))).
  assert (0 < inject_Z (len colors - 1))%Q as N.
  { change 0%Q with (inject_Z 0). rewrite <- Zlt_Qlt. lia. }
  assert (0 <= scaled)%Q as S0.
  { unfold scaled; cbv [mul ofZ Exact]. apply Qmult_le_0_compat; lra. }
  assert (scaled < inject_Z (len colors - 1))%Q as S1.
  { unfold scaled; cbv [mul ofZ Exact].
    rewrite <- (Qmult_1_l (inject_Z (len colors - 1))) at 2.
    apply Qmult_lt_compat_r; assumption. }
  assert (floor scaled < len colors - 1) as F1.
  { pose proof (Qfloor_le scaled) as F.
    change (Qfloor scaled) with (floor scaled) in F.
    assert (inject_Z (floor scaled) < inject_Z (len colors - 1))%Q as G by lra.
    rewrite <- Zlt_Qlt in G. exact G. }
  destruct (len colors - 1 <=? floor scaled) eqn:E; [apply Z.leb_le in E; lia|].
  assert (0 <= sub scaled (ofZ (floor scaled)))%Q as T0.
  { cbv [sub ofZ floor Exact]. pose proof (Qfloor_le scaled). lra. }
  assert (sub scaled (ofZ (floor scaled)) <= 1)%Q as T1.
  { cbv [sub ofZ floor Exact]. pose proof (Qlt_floor scaled) as U.
    rewrite inject_Z_plus in U. change (inject_Z 1) with 1%Q in U. lra. }
  destruct (hexToRgb_bytes (toStr (get colors (floor scaled)))) as (R1 & G1 & B1).
  destruct (hexToRgb_bytes (toStr (get colors (floor scaled + 1)))) as (R2 & G2 & B2).
  apply rgbToHex_bytes; apply interpolate_channel_byte; assumption.
Qed.

(** X9: Below position 1 the gradient never hands back a malformed colour: with
    at least two stops, whatever they contain, a position in [0,1) yields
    [#] and six lower-case hexadecimal digits. *)
Theorem interpolateGradient_canonical (colors : list string) (position : Q) :
  2 <= len colors -> (0 <= position)%Q -> (position < 1)%Q ->
  canonicalHex (interpolateGradient colors position) = true.
Proof. apply interpolateGradient_below_one. Qed.

Lemma interpolateGradient_canonical_witness :
  canonicalHex (interpolateGradient ["red"; "#00FF00"] (1 # 3)) = true.
Proof.
  apply (interpolateGradient_canonical ["red"; "#00FF00"] (1 # 3)).
  - vm_compute. discriminate.
  - discriminate.
  - reflexivity.
Defined.

(* ------------------------------------------------------------------ *)
(** ** More on the glyph mapper *)
(* ------------------------------------------------------------------ *)

Lemma substring_one_length (s : string) (n : nat) :
  (n < String.length s)%nat -> String.length (String.substring n 1 s) = 1%nat.
Proof.
  revert n. induction s as [|c s IH]; intros n Hn; simpl in Hn; [lia|].
  destruct n as [|n].
  - simpl. destruct s; reflexivity.
  - simpl. apply IH. lia.
Qed.

Lemma charAt_length (s : string) (i : Z) :
  0 <= i < slen s -> String.length (charAt s i) = 1%nat.
Proof.
  intros [L U]. unfold charAt, slen in *.
  destruct (i <? 0) eqn:E; [apply Z.ltb_lt in E; lia|].
  apply substring_one_length. lia.
Qed.

Lemma slen_empty (s : string) : slen s = 0 -> s = "".
Proof. destruct s; [reflexivity | unfold slen; simpl; lia]. Qed.

(** X10: In exact arithmetic the glyph is a space for an empty ramp and otherwise
    one character of the ramp, whatever the intensity: the index is clamped
    before the ramp is read. *)
Theorem glyph_comes_from_ramp (brightness : Q) (characterSet : string) (invert : bool) :
  getCharacterForBrightness brightness "" invert = " " /\
  (characterSet <> "" ->
   exists i,
     0 <= i < slen characterSet /\
     getCharacterForBrightness brightness characterSet invert = charAt characterSet i /\
     String.length (getCharacterForBrightness brightness characterSet invert) = 1%nat).
Proof.
  split; [reflexivity|]. intros Hne.
  assert (1 <= slen characterSet) as L.
  { destruct (Z_le_gt_dec 1 (slen characterSet)) as [?|G]; [assumption|].
    exfalso. apply Hne. apply slen_empty. unfold slen in *. lia. }
  unfold getCharacterForBrightness.
  destruct (slen characterSet =? 0) eqn:E0; [apply Z.eqb_eq in E0; lia|].
  destruct (slen characterSet =? 1) eqn:E1.
  - exists 0. split; [lia|]. split; [reflexivity|]. apply charAt_length. lia.
  - apply Z.eqb_neq in E1. cbv zeta.
    eexists. split; [|split; [reflexivity|]].
    + lia.
    + apply charAt_length. lia.
Qed.

Lemma glyph_comes_from_ramp_witness :
  exists i,
    0 <= i < slen ".:-=+*#%@" /\
    getCharacterForBrightness 1000%Q ".:-=+*#%@" false = charAt ".:-=+*#%@" i /\
    String.length (getCharacterForBrightness 1000%Q ".:-=+*#%@" false) = 1%nat.
Proof.
  apply (glyph_comes_from_ramp 1000%Q ".:-=+*#%@" false).
  discriminate.
Defined.

(** The index the glyph mapper reads for a ramp of at least two glyphs, in
    exact arithmetic. *)
Lemma glyph_index (x : Q) (ramp : string) (invert : bool) :
  2 <= slen ramp ->
  getCharacterForBrightness x ramp invert =
  charAt ramp
    (Z.min (Z.max 0
       (Qround_half_up
          ((if invert then 1 - Qmin 255 (Qmax 0 x) / 255 else Qmin 255 (Qmax 0 x) / 255)
           * inject_Z (slen ramp - 1))))
       (slen ramp - 1)).
Proof.
  intros L. unfold getCharacterForBrightness.
  destruct (slen ramp =? 0) eqn:E0; [apply Z.eqb_eq in E0; lia|].
  destruct (slen ramp =? 1) eqn:E1; [apply Z.eqb_eq in E1; lia|].
  destruct invert; reflexivity.
Qed.

Lemma round_half_up_mono (p q : Q) :
  (p <= q)%Q -> Qround_half_up p <= Qround_half_up q.
Proof. intros L. apply Qfloor_resp_le. lra. Qed.

Lemma clamp_mono (x y : Q) :
  (x <= y)%Q -> (Qmin 255 (Qmax 0 x) <= Qmin 255 (Qmax 0 y))%Q.
Proof. intros L. apply Qmin_mono_r, Qmax_mono_r. exact L. Qed.

(** X11: A brighter intensity never gets an earlier glyph of the ramp, and with
    [invert] never a later one. *)
Theorem glyph_monotone (x y : Q) (ramp : string) (invert : bool) :
  ramp <> "" -> (x <= y)%Q ->
  exists i j,
    0 <= i < slen ramp /\ 0 <= j < slen ramp /\
    getCharacterForBrightness x ramp invert = charAt ramp i /\
    getCharacterForBrightness y ramp invert = charAt ramp j /\
    (if invert then j <= i else i <= j).
Proof.
  intros Hne L.
  assert (1 <= slen ramp) as L1.
  { destruct (Z_le_gt_dec 1 (slen ramp)) as [?|G]; [assumption|].
    exfalso. apply Hne. apply slen_empty. unfold slen in *. lia. }
  destruct (Z_le_gt_dec 2 (slen ramp)) as [L2|G].
  - rewrite !(glyph_index _ _ _ L2).
    eexists. eexists. split; [|split; [|split; [reflexivity|split; [reflexivity|]]]].
    + lia.
    + lia.
    + pose proof (clamp_mono x y L) as C.
      assert (0 <= inject_Z (slen ramp - 1))%Q as N.
      { change 0%Q with (inject_Z 0). rewrite <- Zle_Qle. lia. }
      destruct invert.
      * assert (Qround_half_up ((1 - Qmin 255 (Qmax 0 y) / 255) * inject_Z (slen ramp - 1))
                <= Qround_half_up ((1 - Qmin 255 (Qmax 0 x) / 255) * inject_Z (slen ramp - 1)))
          as M.
        { apply round_half_up_mono. apply Qmult_le_compat_r; [|exact N].
          assert (Qmin 255 (Qmax 0 x) / 255 <= Qmin 255 (Qmax 0 y) / 255)%Q as D.
          { apply Qmult_le_compat_r; [exact C | discriminate]. }
          lra. }
        lia.
      * assert (Qround_half_up (Qmin 255 (Qmax 0 x) / 255 * inject_Z (slen ramp - 1))
                <= Qround_half_up (Qmin 255 (Qmax 0 y) / 255 * inject_Z (slen ramp - 1)))
          as M.
        { apply round_half_up_mono. apply Qmult_le_compat_r; [|exact N].
          apply Qmult_le_compat_r; [exact C | discriminate]. }
        lia.
  - assert (slen ramp = 1) as E by lia.
    unfold getCharacterForBrightness. rewrite E. cbn [Z.eqb].
    exists 0, 0. repeat split; try lia. destruct invert; lia.
Qed.

Lemma glyph_monotone_witness :
  exists i j,
    0 <= i < slen ".:-=+*#%@" /\ 0 <= j < slen ".:-=+*#%@" /\
    getCharacterForBrightness 40%Q ".:-=+*#%@" false = charAt ".:-=+*#%@" i /\
    getCharacterForBrightness 200%Q ".:-=+*#%@" false = charAt ".:-=+*#%@" j /\
    i <= j.
Proof.
  apply (glyph_monotone 40 200 ".:-=+*#%@" false); discriminate.
Defined.

(** X12: The ends of the ramp: an intensity of 0 or less maps to the first glyph
    and one of 255 or more to the last; with [invert] the two swap. *)
Theorem glyph_extremes (x y : Q) (ramp : string) :
  ramp <> "" -> (x <= 0)%Q -> (255 <= y)%Q ->
  getCharacterForBrightness x ramp false = charAt ramp 0 /\
  getCharacterForBrightness y ramp false = charAt ramp (slen ramp - 1) /\
  getCharacterForBrightness x ramp true = charAt ramp (slen ramp - 1) /\
  getCharacterForBrightness y ramp true = charAt ramp 0.
Proof.
  intros Hne Hx Hy.
  assert (1 <= slen ramp) as L1.
  { destruct (Z_le_gt_dec 1 (slen ramp)) as [?|G]; [assumption|].
    exfalso. apply Hne. apply slen_empty. unfold slen in *. lia. }
  destruct (Z_le_gt_dec 2 (slen ramp)) as [L2|G].
  - rewrite !(glyph_index _ _ _ L2).
    assert (Qmin 255 (Qmax 0 x) == 0)%Q as Cx.
    { destruct (Q.max_spec 0 x) as [[? E]|[? E]];
        destruct (Q.min_spec 255 (Qmax 0 x)) as [[? F]|[? F]]; lra. }
    assert (Qmin 255 (Qmax 0 y) == 255)%Q as Cy.
    { destruct (Q.max_spec 0 y) as [[? E]|[? E]];
        destruct (Q.min_spec 255 (Qmax 0 y)) as [[? F]|[? F]]; lra. }
    assert (Qround_half_up (Qmin 255 (Qmax 0 x) / 255 * inject_Z (slen ramp - 1)) = 0)
      as R1.
    { apply round_half_up_Z. rewrite Cx. change (inject_Z 0) with 0%Q. field. }
    assert (Qround_half_up (Qmin 255 (Qmax 0 y) / 255 * inject_Z (slen ramp - 1))
            = slen ramp - 1) as R2.
    { apply round_half_up_Z. rewrite Cy. field. }
    assert (Qround_half_up ((1 - Qmin 255 (Qmax 0 x) / 255) * inject_Z (slen ramp - 1))
            = slen ramp - 1) as R3.
    { apply round_half_up_Z. rewrite Cx. field. }
    assert (Qround_half_up ((1 - Qmin 255 (Qmax 0 y) / 255) * inject_Z (slen ramp - 1)) = 0)
      as R4.
    { apply round_half_up_Z. rewrite Cy. change (inject_Z 0) with 0%Q. field. }
    rewrite R1, R2, R3, R4.
    repeat split; f_equal; lia.
  - assert (slen ramp = 1) as E by lia.
    unfold getCharacterForBrightness. rewrite E. cbn [Z.eqb Z.sub Z.add Z.opp Z.pos_sub].
    repeat split; reflexivity.
Qed.

Lemma glyph_extremes_witness :
  getCharacterForBrightness (-5)%Q ".:-=+*#%@" false = "." /\
  getCharacterForBrightness 300%Q ".:-=+*#%@" false = "@" /\
  getCharacterForBrightness (-5)%Q ".:-=+*#%@" true = "@" /\
  getCharacterForBrightness 300%Q ".:-=+*#%@" true = ".".
Proof.
  apply (glyph_extremes (-5) 300 ".:-=+*#%@"); discriminate.
Defined.

(* ------------------------------------------------------------------ *)
(** ** More on loops and buffers *)
(* ------------------------------------------------------------------ *)

Lemma for_from_guard_true {S : Type} (n : nat) (i : Z) (guard : Z -> bool)
    (body : Z -> S -> S) (s : S) :
  (forall j, i <= j < i + Z.of_nat n -> guard j = true) ->
  for_from n i guard body s = for_from n i always body s.
Proof.
  revert i s. induction n as [|n IH]; intros i s Hg; [reflexivity|].
  simpl. rewrite (Hg i) by lia. apply IH. intros j Hj. apply Hg. lia.
Qed.

(** A guard that holds below the bound does not cut the loop short. *)
Lemma for_lt_guard_true {S : Type} (bound : Z) (guard : Z -> bool)
    (body : Z -> S -> S) (s : S) :
  (forall j, 0 <= j < bound -> guard j = true) ->
  for_lt bound guard body s = for_lt bound always body s.
Proof.
  intros Hg. unfold for_lt. apply for_from_guard_true.
  intros j Hj. apply Hg. lia.
Qed.

(** What every round keeps, the loop keeps, guard or no guard. *)
Lemma for_from_preserves {S : Type} (P : S -> Prop) (n : nat) (i : Z)
    (guard : Z -> bool) (body : Z -> S -> S) (s : S) :
  (forall j acc, P acc -> P (body j acc)) -> P s -> P (for_from n i guard body s).
Proof.
  intros Hb. revert i s. induction n as [|n IH]; intros i s Hs; simpl.
  - exact Hs.
  - destruct (guard i); [|exact Hs]. apply IH. apply Hb. exact Hs.
Qed.

Lemma get_app_l {A : Type} (a c : list A) (i : Z) :
  0 <= i < len a -> get (a ++ c)%list i = get a i.
Proof.
  intros [L U]. unfold get, len in *.
  destruct (i <? 0); [reflexivity|]. apply nth_error_app1. lia.
Qed.

Lemma get_app_end {A : Type} (a : list A) (v : A) :
  get (a ++ [v])%list (len a) = Some v.
Proof.
  unfold get, len.
  destruct (Z.of_nat (List.length a) <? 0) eqn:E; [apply Z.ltb_lt in E; lia|].
  rewrite Nat2Z.id, nth_error_app2 by lia.
  rewrite Nat.sub_diag. reflexivity.
Qed.

Lemma upto_nth (n : Z) (q : nat) : (q < Z.to_nat n)%nat -> nth q (upto n) 0 = Z.of_nat q.
Proof.
  intros Hq. unfold upto.
  change 0 with (Z.of_nat 0). rewrite map_nth, seq_nth by exact Hq. reflexivity.
Qed.

Lemma nth_flat_map_chunks {A B : Type} (g : A -> list B) (c : nat) (l : list A)
    (q r : nat) (a0 : A) (d : B) :
  (forall a, List.length (g a) = c) -> (r < c)%nat -> (q < List.length l)%nat ->
  nth (q * c + r) (flat_map g l) d = nth r (g (nth q l a0)) d.
Proof.
  intros Hc Hr. revert q. induction l as [|a l IH]; intros q Hq; simpl in Hq; [lia|].
  simpl flat_map. destruct q as [|q].
  - simpl. apply app_nth1. rewrite Hc. exact Hr.
  - rewrite app_nth2 by (rewrite Hc; simpl; lia).
    rewrite Hc. replace (Datatypes.S q * c + r - c)%nat with (q * c + r)%nat by (simpl; lia).
    simpl nth. apply IH. lia.
Qed.

(** Reading back a buffer: the byte of channel [k] of pixel [(x, y)] sits at
    index [4 * (y * w + x) + k]. *)
Lemma rgbaBuffer_nth (w h : Z) (f : Z -> Z -> Z -> Z) (x y k : Z) :
  0 <= x < w -> 0 <= y < h -> 0 <= k < 4 ->
  nth (Z.to_nat ((y * w + x) * 4 + k)) (rgbaBuffer w h f) 0 = f x y k.
Proof.
  intros Hx Hy Hk. unfold rgbaBuffer.
  replace (Z.to_nat ((y * w + x) * 4 + k))
    with (Z.to_nat y * Z.to_nat (4 * w) + (Z.to_nat x * 4 + Z.to_nat k))%nat by nia.
  rewrite (nth_flat_map_chunks _ (Z.to_nat (4 * w)) _ _ _ 0).
  - rewrite upto_nth by lia.
    rewrite (nth_flat_map_chunks _ 4%nat _ _ _ 0).
    + rewrite upto_nth by lia. rewrite !Z2Nat.id by lia.
      assert (k = 0 \/ k = 1 \/ k = 2 \/ k = 3) as [->|[->|[->| ->]]] by lia;
        reflexivity.
    + intros a. reflexivity.
    + lia.
    + unfold upto. rewrite length_map, length_seq. lia.
  - intros a. rewrite (flat_map_constant_length (c := 4%nat)).
    + unfold upto. rewrite length_map, length_seq. lia.
    + intros v _. reflexivity.
  - nia.
  - unfold upto. rewrite length_map, length_seq. lia.
Qed.

Lemma getImageData_nth (ctx : Canvas) (width height : Z) (pixels : list Z) (x y k : Z) :
  getImageData ctx width height = Some pixels ->
  0 <= x < width -> 0 <= y < height -> 0 <= k < 4 ->
  nth (Z.to_nat ((y * width + x) * 4 + k)) pixels 0 = canvasByte ctx x y k.
Proof.
  unfold getImageData.
  destruct ((width =? 0) || (height =? 0)); [discriminate|].
  intros E Hx Hy Hk. injection E as <-.
  replace (Z.abs width) with width by lia. replace (Z.abs height) with height by lia.
  rewrite rgbaBuffer_nth by assumption.
  destruct (width <? 0) eqn:Ew; [apply Z.ltb_lt in Ew; lia|].
  destruct (height <? 0) eqn:Eh; [apply Z.ltb_lt in Eh; lia|].
  reflexivity.
Qed.

(* ------------------------------------------------------------------ *)
(** ** More on the sampler *)
(* ------------------------------------------------------------------ *)

Section SamplerCells.
Context {num : Type} `{Number num}.
Variables (pixels : list Z) (width height : Z) (settings : ASCIISettings num).

(** A cell, read back: the totals of its block, its position, its glyph and
    its colour. *)
Lemma sampleCell_inv (x y : Z) (cell : ASCIIChar) :
  sampleCell pixels width height settings x y = Some cell ->
  exists totalR totalG totalB count,
    blockTotals pixels width height
      (floor (mul (ofZ x) (pixelSize settings)))
      (floor (mul (ofZ y) (div (pixelSize settings) CHAR_ASPECT_RATIO)))
      (ceil (pixelSize settings))
      (ceil (div (pixelSize settings) CHAR_ASPECT_RATIO))
      = (totalR, totalG, totalB, count) /\
    count <> 0 /\
    AsciiConverter.x cell = floor (mul (ofZ x) (pixelSize settings)) /\
    AsciiConverter.y cell =
      floor (mul (ofZ y) (div (pixelSize settings) CHAR_ASPECT_RATIO)) /\
    let blended :=
      applyBlendMode (div (ofZ totalR) (ofZ count)) (div (ofZ totalG) (ofZ count))
        (div (ofZ totalB) (ofZ count)) (blendMode settings) in
    let gray :=
      applyContrast
        (applyBrightness (rgbToGrayscale (r blended) (g blended) (b blended))
           (brightness settings))
        (contrast settings) in
    char cell = getCharacterForBrightness gray (characterSet settings) (invert settings) /\
    color cell = cellColor settings (r blended) (g blended) (b blended) gray.
Proof.
  unfold sampleCell. cbv zeta.
  destruct (blockTotals pixels width height
              (floor (mul (ofZ x) (pixelSize settings)))
              (floor (mul (ofZ y) (div (pixelSize settings) CHAR_ASPECT_RATIO)))
              (ceil (pixelSize settings))
              (ceil (div (pixelSize settings) CHAR_ASPECT_RATIO)))
    as [[[totalR totalG] totalB] count] eqn:E.
  destruct (count =? 0) eqn:C; [discriminate|].
  apply Z.eqb_neq in C. intros Q. injection Q as <-.
  exists totalR, totalG, totalB, count.
  repeat split; try reflexivity. exact C.
Qed.

(** Every cell of the grid was produced by [sampleCell] at some position. *)
Lemma grid_cells (ctx : Canvas) (grid : list (list ASCIIChar))
    (row : list ASCIIChar) (cell : ASCIIChar) :
  getImageData ctx width height = Some pixels ->
  convertFrameToASCII ctx width height settings = Some grid ->
  In row grid -> In cell row ->
  exists x y,
    0 <= x < gridCols width settings /\ 0 <= y < gridRows height settings /\
    sampleCell pixels width height settings x y = Some cell.
Proof.
  intros Ep Hgrid Hrow Hcell. unfold convertFrameToASCII in Hgrid.
  rewrite Ep in Hgrid. injection Hgrid as <-.
  destruct (Z_le_gt_dec 0 (gridRows height settings)) as [Hr|Hr].
  - destruct (grid_rows pixels width height settings
                (gridCols width settings) (gridRows height settings) Hr)
      as [_ Hin].
    destruct (Hin row Hrow) as (y & Hy & ->).
    destruct (sampleRow_cells _ _ _ _ _ _ _ Hcell) as (x & Hx & E).
    exists x, y. repeat split; try lia. exact E.
  - rewrite grid_rows_nonpositive in Hrow by lia. destruct Hrow.
Qed.

(** The cells of a row sit in column order. *)
Lemma sampleRow_nth (cols y : Z) :
  0 <= cols ->
  (forall x, 0 <= x < cols -> sampleCell pixels width height settings x y <> None) ->
  forall j, 0 <= j < cols ->
    exists cell,
      get (sampleRow pixels width height settings cols y) j = Some cell /\
      sampleCell pixels width height settings j y = Some cell.
Proof.
  intros Hc Hall. unfold sampleRow.
  apply (for_lt_invariant
           (fun k row => len row = k /\
              forall j, 0 <= j < k ->
                exists cell, get row j = Some cell /\
                  sampleCell pixels width height settings j y = Some cell)).
  - exact Hc.
  - split; [reflexivity | intros j Hj; lia].
  - intros k row Hk [Hl IH].
    destruct (sampleCell pixels width height settings k y) as [c|] eqn:E;
      [|exfalso; apply (Hall k Hk); exact E].
    split.
    + unfold len in *. rewrite length_app. simpl. lia.
    + intros j Hj. destruct (Z.eq_dec j k) as [->|Hne].
      * exists c. split; [|exact E]. rewrite <- Hl. apply get_app_end.
      * destruct (IH j ltac:(lia)) as (cell & G & S).
        exists cell. split; [|exact S]. rewrite get_app_l by lia. exact G.
Qed.

(** The rows of the grid sit in row order. *)
Lemma grid_nth (cols rows : Z) :
  0 <= rows ->
  forall i, 0 <= i < rows ->
    get (for_lt rows always
           (fun y result =>
              (result ++ [sampleRow pixels width height settings cols y])%list) [])
        i = Some (sampleRow pixels width height settings cols i).
Proof.
  intros Hr.
  apply (for_lt_invariant
           (fun k result => len result = k /\
              forall i, 0 <= i < k ->
                get result i = Some (sampleRow pixels width height settings cols i))).
  - exact Hr.
  - split; [reflexivity | intros i Hi; lia].
  - intros k result Hk [Hl IH]. split.
    + unfold len in *. rewrite length_app. simpl. lia.
    + intros i Hi. destruct (Z.eq_dec i k) as [->|Hne].
      * rewrite <- Hl. apply get_app_end.
      * rewrite get_app_l by lia. apply IH. lia.
Qed.

(** A block that lies inside the frame is read in full. *)
Lemma blockTotals_inside (pixelX pixelY blockWidth blockHeight : Z) :
  0 <= blockWidth -> 0 <= blockHeight ->
  pixelX + blockWidth <= width -> pixelY + blockHeight <= height ->
  snd (blockTotals pixels width height pixelX pixelY blockWidth blockHeight)
    = blockWidth * blockHeight.
Proof.
  intros Hw Hh Hx Hy. unfold blockTotals.
  rewrite for_lt_guard_true by (intros j Hj; apply Z.ltb_lt; lia).
  apply (for_lt_invariant (S := Z * Z * Z * Z)
           (fun k acc => snd acc = blockWidth * k)); [exact Hh | simpl; lia |].
  intros py acc Hpy IH.
  rewrite for_lt_guard_true by (intros j Hj; apply Z.ltb_lt; lia).
  replace (blockWidth * (py + 1)) with (snd acc + blockWidth) by lia.
  apply (for_lt_invariant (S := Z * Z * Z * Z)
           (fun k acc' => snd acc' = snd acc + k)); [exact Hw | lia |].
  intros px [[[tR tG] tB] count] Hpx IH'. simpl in *. lia.
Qed.

(** The totals of a block inside the frame whose pixels all have the colour
    [(vr, vg, vb)]. *)
Lemma blockTotals_uniform (pixelX pixelY blockWidth blockHeight vr vg vb : Z) :
  0 <= blockWidth -> 0 <= blockHeight ->
  pixelX + blockWidth <= width -> pixelY + blockHeight <= height ->
  (forall px py, 0 <= px < blockWidth -> 0 <= py < blockHeight ->
     nth (Z.to_nat (((pixelY + py) * width + (pixelX + px)) * 4)) pixels 0 = vr /\
     nth (Z.to_nat (((pixelY + py) * width + (pixelX + px)) * 4 + 1)) pixels 0 = vg /\
     nth (Z.to_nat (((pixelY + py) * width + (pixelX + px)) * 4 + 2)) pixels 0 = vb) ->
  blockTotals pixels width height pixelX pixelY blockWidth blockHeight =
  (vr * (blockWidth * blockHeight), vg * (blockWidth * blockHeight),
   vb * (blockWidth * blockHeight), blockWidth * blockHeight).
Proof.
  intros Hw Hh Hx Hy Hu. unfold blockTotals.
  rewrite for_lt_guard_true by (intros j Hj; apply Z.ltb_lt; lia).
  apply (for_lt_invariant (S := Z * Z * Z * Z)
           (fun k acc => acc = (vr * (blockWidth * k), vg * (blockWidth * k),
                                vb * (blockWidth * k), blockWidth * k))).
  - exact Hh.
  - f_equal; [f_equal; [f_equal|]|]; lia.
  - intros py acc Hpy ->.
    rewrite for_lt_guard_true by (intros j Hj; apply Z.ltb_lt; lia).
    match goal with
    | |- ?lhs = _ =>
        assert (lhs = (vr * (blockWidth * py + blockWidth),
                       vg * (blockWidth * py + blockWidth),
                       vb * (blockWidth * py + blockWidth),
                       blockWidth * py + blockWidth)) as K
    end.
    { apply (for_lt_invariant (S := Z * Z * Z * Z)
               (fun k acc' => acc' = (vr * (blockWidth * py + k),
                                      vg * (blockWidth * py + k),
                                      vb * (blockWidth * py + k),
                                      blockWidth * py + k))).
      - exact Hw.
      - f_equal; [f_equal; [f_equal|]|]; lia.
      - intros px acc' Hpx ->.
        destruct (Hu px py Hpx Hpy) as (Er & Eg & Eb).
        rewrite Er, Eg, Eb.
        f_equal; [f_equal; [f_equal|]|]; lia. }
    rewrite K. f_equal; [f_equal; [f_equal|]|]; lia.
Qed.

End SamplerCells.

(** X13: In the modes [monochrome] and [custom] every cell carries the
    configured monochrome colour, whatever the frame. *)
Theorem monochrome_cells {num : Type} `{Number num}
    (ctx : Canvas) (width height : Z) (settings : ASCIISettings num)
    (grid : list (list ASCIIChar)) (row : list ASCIIChar) (cell : ASCIIChar) :
  colorMode settings = Monochrome \/ colorMode settings = Custom ->
  convertFrameToASCII ctx width height settings = Some grid ->
  In row grid -> In cell row ->
  color cell = monochromeColor settings.
Proof.
  intros Hmode Hgrid Hrow Hcell.
  destruct (getImageData ctx width height) as [pixels|] eqn:Ep;
    [|unfold convertFrameToASCII in Hgrid; rewrite Ep in Hgrid; discriminate].
  destruct (grid_cells pixels width height settings ctx grid row cell
              Ep Hgrid Hrow Hcell) as (x & y & _ & _ & E).
  destruct (sampleCell_inv _ _ _ _ _ _ _ E)
    as (tR & tG & tB & n & _ & _ & _ & _ & C).
  cbv zeta in C. destruct C as [_ C]. rewrite C. unfold cellColor.
  destruct Hmode as [-> | ->]; reflexivity.
Qed.

Lemma monochrome_cells_witness :
  convertFrameToASCII (num := float) (solidCanvas 2 4 200) 2 4 monochromeSettings
    = Some [[ {| char := "#"; color := "#00ff88"; x := 0; y := 0 |} ]] /\
  color {| char := "#"; color := "#00ff88"; x := 0; y := 0 |}
    = monochromeColor (monochromeSettings (num := float)).
Proof.
  split; [vm_compute; reflexivity|].
  apply (monochrome_cells (num := float) (solidCanvas 2 4 200) 2 4 monochromeSettings
           [[ {| char := "#"; color := "#00ff88"; x := 0; y := 0 |} ]]
           [ {| char := "#"; color := "#00ff88"; x := 0; y := 0 |} ]
           {| char := "#"; color := "#00ff88"; x := 0; y := 0 |}).
  - left. reflexivity.
  - vm_compute. reflexivity.
  - left. reflexivity.
  - left. reflexivity.
Defined.

(* ------------------------------------------------------------------ *)
(** ** More on the sampler, in exact arithmetic *)
(* ------------------------------------------------------------------ *)

Lemma Qceiling_nonneg (q : Q) : (0 <= q)%Q -> 0 <= Qceiling q.
Proof.
  intros Hq. pose proof (Qle_ceiling q) as L.
  assert (inject_Z 0 <= inject_Z (Qceiling q))%Q as P.
  { change (inject_Z 0) with 0%Q. lra. }
  rewrite <- Zle_Qle in P. exact P.
Qed.

(** The block of the cell at index [k] ends inside the side. *)
Lemma cell_block_inside (n k : Z) (step : Q) :
  (0 < step)%Q ->
  0 <= k < Qfloor (inject_Z n / step) ->
  Qfloor (inject_Z k * step) + Qceiling step <= n.
Proof.
  intros Hs [Hk0 Hk].
  pose proof (Qfloor_le (inject_Z n / step)) as F.
  assert (inject_Z (k + 1) <= inject_Z n / step)%Q as L.
  { eapply Qle_trans; [|exact F]. rewrite <- Zle_Qle. lia. }
  rewrite inject_Z_plus in L. change (inject_Z 1) with 1%Q in L.
  assert ((inject_Z k + 1) * step <= inject_Z n)%Q as M.
  { apply (Qmult_le_compat_r _ _ step) in L; [|lra].
    assert (inject_Z n / step * step == inject_Z n)%Q as D by (field; lra).
    rewrite D in L. exact L. }
  rewrite Qmult_plus_distr_l in M.
  pose proof (Qfloor_le (inject_Z k * step)) as G.
  pose proof (Qceiling_lt step) as C.
  unfold Z.sub in C. rewrite inject_Z_plus, inject_Z_opp in C.
  change (inject_Z 1) with 1%Q in C.
  assert (inject_Z (Qfloor (inject_Z k * step) + Qceiling step) < inject_Z (n + 1))%Q as U.
  { rewrite !inject_Z_plus. change (inject_Z 1) with 1%Q. lra. }
  rewrite <- Zlt_Qlt in U. lia.
Qed.

Section ExactCells.
Variables (ctx : Canvas) (width height : Z) (settings : ASCIISettings Q).
Hypothesis width_pos : 1 <= width.
Hypothesis height_pos : 1 <= height.
Hypothesis pixelSize_valid : (2 <= pixelSize settings)%Q.

Lemma in_grid_block (x y : Z) :
  0 <= x < gridCols width settings ->
  0 <= y < gridRows height settings ->
  0 <= floor (mul (ofZ x) (pixelSize settings)) /\
  0 <= floor (mul (ofZ y) (div (pixelSize settings) CHAR_ASPECT_RATIO)) /\
  0 <= ceil (pixelSize settings) /\
  0 <= ceil (div (pixelSize settings) CHAR_ASPECT_RATIO) /\
  floor (mul (ofZ x) (pixelSize settings)) + ceil (pixelSize settings) <= width /\
  floor (mul (ofZ y) (div (pixelSize settings) CHAR_ASPECT_RATIO))
    + ceil (div (pixelSize settings) CHAR_ASPECT_RATIO) <= height.
Proof.
  intros Hx Hy.
  assert (0 < pixelSize settings)%Q as Hp by lra.
  pose proof (stepY_pos settings pixelSize_valid) as Hs.
  pose proof (cell_start_inside width x (pixelSize settings) Hp Hx) as Bx.
  pose proof (cell_start_inside height y _ Hs Hy) as By.
  pose proof (cell_block_inside width x (pixelSize settings) Hp Hx) as Cx.
  pose proof (cell_block_inside height y _ Hs Hy) as Cy.
  repeat split.
  - apply Bx.
  - apply By.
  - apply Qceiling_nonneg. lra.
  - apply Qceiling_nonneg. lra.
  - exact Cx.
  - exact Cy.
Qed.

Lemma in_grid_full_count (pixels : list Z) (x y : Z) :
  0 <= x < gridCols width settings ->
  0 <= y < gridRows height settings ->
  cellPixelCount pixels width height settings x y =
  ceil (pixelSize settings) * ceil (div (pixelSize settings) CHAR_ASPECT_RATIO).
Proof.
  intros Hx Hy. destruct (in_grid_block x y Hx Hy) as (_ & _ & W & Hh & Cx & Cy).
  unfold cellPixelCount. cbv zeta. apply blockTotals_inside; assumption.
Qed.

(** The grid as a table: the cell of row [i] and column [j]. *)
Lemma grid_cell_at (i j : Z) :
  0 <= i < gridRows height settings ->
  0 <= j < gridCols width settings ->
  exists pixels grid row cell,
    getImageData ctx width height = Some pixels /\
    convertFrameToASCII ctx width height settings = Some grid /\
    get grid i = Some row /\ get row j = Some cell /\
    sampleCell pixels width height settings j i = Some cell.
Proof.
  intros Hi Hj.
  destruct (getImageData_defined ctx width height width_pos height_pos) as [pixels E].
  unfold convertFrameToASCII. rewrite E. cbv zeta.
  pose proof (grid_nth pixels width height settings (gridCols width settings)
                (gridRows height settings)
                (gridRows_nonneg height settings height_pos pixelSize_valid) i Hi) as G.
  destruct (sampleRow_nth pixels width height settings (gridCols width settings) i
              (gridCols_nonneg width settings width_pos pixelSize_valid)) with (j := j)
    as (cell & Gc & Sc).
  - intros x Hx. apply in_grid_sampled; assumption.
  - exact Hj.
  - exists pixels. eexists. eexists. exists cell.
    split; [reflexivity|]. split; [reflexivity|]. split; [exact G|].
    split; [exact Gc | exact Sc].
Qed.

End ExactCells.

(** X14: Every cell of the grid averages a full block: for a frame of width and
    height at least 1 and a pixel size of at least 2, the block of each grid
    position lies inside the frame, so the cell counts exactly
    [ceil(pixelSize) * ceil(pixelSize / 0.6)] pixels; no block is clipped at
    the right or bottom edge. *)
Theorem cells_average_full_blocks (width height : Z) (settings : ASCIISettings Q)
    (pixels : list Z) (x y : Z) :
  1 <= width -> 1 <= height -> (2 <= pixelSize settings)%Q ->
  0 <= x < gridCols width settings ->
  0 <= y < gridRows height settings ->
  cellPixelCount pixels width height settings x y =
  Qceiling (pixelSize settings) * Qceiling (pixelSize settings / (6 # 10)).
Proof.
  intros Hw Hh Hp Hx Hy.
  rewrite (in_grid_full_count width height settings Hp pixels x y Hx Hy).
  reflexivity.
Qed.

Lemma cells_average_full_blocks_witness :
  cellPixelCount [] 16 16 (DEFAULT_SETTINGS (num := Q)) 1 0 =
  Qceiling (pixelSize (DEFAULT_SETTINGS (num := Q)))
  * Qceiling (pixelSize (DEFAULT_SETTINGS (num := Q)) / (6 # 10)).
Proof.
  apply (cells_average_full_blocks 16 16 (DEFAULT_SETTINGS (num := Q)) [] 1 0).
  - lia.
  - lia.
  - vm_compute. discriminate.
  - vm_compute. split; [discriminate | reflexivity].
  - vm_compute. split; [discriminate | reflexivity].
Defined.

Lemma for_lt_refused {S : Type} (bound : Z) (guard : Z -> bool)
    (body : Z -> S -> S) (s : S) :
  guard 0 = false -> for_lt bound guard body s = s.
Proof.
  intros G. unfold for_lt. destruct (Z.to_nat bound); simpl; [|rewrite G]; reflexivity.
Qed.

(** A block that counts a pixel starts left of the right edge and above the
    bottom edge. *)
Lemma blockTotals_counted (pixels : list Z)
    (width height pixelX pixelY blockWidth blockHeight : Z) :
  snd (blockTotals pixels width height pixelX pixelY blockWidth blockHeight) <> 0 ->
  pixelX < width /\ pixelY < height.
Proof.
  intros C. split.
  - destruct (Z_lt_ge_dec pixelX width) as [L|G]; [exact L|].
    exfalso. apply C. unfold blockTotals.
    match goal with
    | |- snd ?t = 0 => assert (t = (0, 0, 0, 0)) as K
    end.
    { unfold for_lt at 1.
      apply (for_from_preserves (fun acc => acc = (0, 0, 0, 0))); [|reflexivity].
      intros py acc ->. apply for_lt_refused. apply Z.ltb_ge. lia. }
    rewrite K. reflexivity.
  - destruct (Z_lt_ge_dec pixelY height) as [L|G]; [exact L|].
    exfalso. apply C. unfold blockTotals.
    rewrite for_lt_refused by (apply Z.ltb_ge; lia). reflexivity.
Qed.

Section RowLayout.
Context {num : Type} `{Number num}.
Variables (pixels : list Z) (width height : Z) (settings : ASCIISettings num).

(** A row of [cols] cells skipped no column. *)
Lemma sampleRow_full (cols y : Z) :
  len (sampleRow pixels width height settings cols y) = cols ->
  forall x, 0 <= x < cols -> sampleCell pixels width height settings x y <> None.
Proof.
  destruct (Z_le_gt_dec 0 cols) as [Hc|Hc]; [|intros _ x Hx; lia].
  unfold sampleRow.
  apply (for_lt_invariant
           (fun k row => len row <= k /\
              (len row = k ->
               forall x, 0 <= x < k ->
                 sampleCell pixels width height settings x y <> None))
           cols _ [] Hc).
  - split; [unfold len; simpl; lia | intros _ x Hx; lia].
  - intros k row Hk [Hle IH].
    destruct (sampleCell pixels width height settings k y) as [c|] eqn:E.
    + split.
      * unfold len in *. rewrite length_app. simpl. lia.
      * intros Hl x Hx.
        assert (len row = k) as Hl'.
        { unfold len in *. rewrite length_app in Hl. simpl in Hl. lia. }
        destruct (Z.eq_dec x k) as [->|Hne]; [rewrite E; discriminate|].
        apply (IH Hl'). lia.
    + split; [lia | intros Hl; lia].
Qed.

(** Where a cell of row [y] sits. *)
Lemma sampleRow_positions (cols y : Z) (cell : ASCIIChar) :
  In cell (sampleRow pixels width height settings cols y) ->
  AsciiConverter.y cell
    = floor (mul (ofZ y) (div (pixelSize settings) CHAR_ASPECT_RATIO)) /\
  AsciiConverter.y cell < height /\
  AsciiConverter.x cell < width /\
  exists j, 0 <= j < cols /\
    AsciiConverter.x cell = floor (mul (ofZ j) (pixelSize settings)).
Proof.
  intros Hin.
  destruct (sampleRow_cells pixels width height settings cols y cell Hin)
    as (j & Hj & E).
  destruct (sampleCell_inv pixels width height settings j y cell E)
    as (tR & tG & tB & n & Bt & Hn & Ex & Ey & _).
  assert (snd (blockTotals pixels width height
                 (floor (mul (ofZ j) (pixelSize settings)))
                 (floor (mul (ofZ y) (div (pixelSize settings) CHAR_ASPECT_RATIO)))
                 (ceil (pixelSize settings))
                 (ceil (div (pixelSize settings) CHAR_ASPECT_RATIO))) <> 0) as C
    by (rewrite Bt; exact Hn).
  apply blockTotals_counted in C. destruct C as [Cx Cy].
  split; [exact Ey|]. split; [rewrite Ey; exact Cy|]. split; [rewrite Ex; exact Cx|].
  exists j. split; [exact Hj | exact Ex].
Qed.

(** The row of index [i] of the grid is the row sampled at [i]. *)
Lemma grid_row_at (ctx : Canvas) (grid : list (list ASCIIChar)) (i : Z)
    (row : list ASCIIChar) :
  convertFrameToASCII ctx width height settings = Some grid ->
  get grid i = Some row ->
  exists pixels',
    row = sampleRow pixels' width height settings (gridCols width settings) i.
Proof.
  unfold convertFrameToASCII.
  destruct (getImageData ctx width height) as [pixels'|]; [|discriminate].
  cbv zeta. intros E G. injection E as <-. exists pixels'.
  destruct (Z_le_gt_dec 0 (gridRows height settings)) as [Hr|Hr].
  - destruct (grid_rows pixels' width height settings (gridCols width settings)
                (gridRows height settings) Hr) as [L _]. cbv zeta in L.
    assert (0 <= i < gridRows height settings) as Hi.
    { unfold get in G. destruct (i <? 0) eqn:Z0; [discriminate|].
      apply Z.ltb_ge in Z0. split; [exact Z0|]. rewrite <- L.
      match type of G with
      | nth_error ?l _ = _ =>
          assert (Z.to_nat i < List.length l)%nat
            by (apply nth_error_Some; rewrite G; discriminate)
      end.
      unfold len. lia. }
    rewrite (grid_nth pixels' width height settings (gridCols width settings)
               (gridRows height settings) Hr i Hi) in G.
    injection G as <-. reflexivity.
  - rewrite grid_rows_nonpositive in G by lia.
    unfold get in G. destruct (i <? 0); [discriminate|].
    destruct (Z.to_nat i); discriminate.
Qed.

End RowLayout.

(** X15: The grid is laid out row by row, in any arithmetic: every cell of the
    row of index [i] carries [y = floor(i * stepY)], with
    [stepY = pixelSize / 0.6] as the code computes it, and
    [x = floor(j * pixelSize)] for a column [j] below [cols]; the cell starts
    left of the right edge and above the bottom edge; and in a row of
    [cols] cells the cell of index [j] is the one of column [j]. *)
Theorem grid_is_row_major {num : Type} `{Number num}
    (ctx : Canvas) (width height : Z) (settings : ASCIISettings num)
    (grid : list (list ASCIIChar)) (i : Z) (row : list ASCIIChar) :
  convertFrameToASCII ctx width height settings = Some grid ->
  get grid i = Some row ->
  (forall cell, In cell row ->
     y cell = floor (mul (ofZ i) (div (pixelSize settings) CHAR_ASPECT_RATIO)) /\
     y cell < height /\
     x cell < width /\
     exists j, 0 <= j < gridCols width settings /\
       x cell = floor (mul (ofZ j) (pixelSize settings))) /\
  (len row = gridCols width settings ->
   forall j cell, get row j = Some cell ->
     x cell = floor (mul (ofZ j) (pixelSize settings))).
Proof.
  intros E G.
  destruct (grid_row_at width height settings ctx grid i row E G) as [pixels ->].
  split.
  - intros cell Hin. apply (sampleRow_positions pixels). exact Hin.
  - intros Hl j cell Gc.
    pose proof (sampleRow_full pixels width height settings _ i Hl) as Full.
    assert (0 <= j < gridCols width settings) as Hj.
    { unfold get in Gc. destruct (j <? 0) eqn:Z0; [discriminate|].
      apply Z.ltb_ge in Z0. split; [exact Z0|]. rewrite <- Hl.
      match type of Gc with
      | nth_error ?l _ = _ =>
          assert (Z.to_nat j < List.length l)%nat
            by (apply nth_error_Some; rewrite Gc; discriminate)
      end.
      unfold len. lia. }
    assert (0 <= gridCols width settings) as Hc by lia.
    destruct (sampleRow_nth pixels width height settings (gridCols width settings) i
                Hc Full j Hj) as (cell' & Gc' & Sc).
    rewrite Gc in Gc'. injection Gc' as <-.
    destruct (sampleCell_inv _ _ _ _ _ _ _ Sc) as (tR & tG & tB & n & _ & _ & Ex & _).
    exact Ex.
Qed.

Lemma grid_is_row_major_witness :
  (forall cell,
     In cell [ {| char := "."; color := "#000000"; x := 0; y := 0 |};
               {| char := "."; color := "#000000"; x := 8; y := 0 |} ] ->
     y cell = floor (mul (num := float) (ofZ 0)
                       (div (pixelSize DEFAULT_SETTINGS) CHAR_ASPECT_RATIO)) /\
     y cell < 16 /\
     x cell < 16 /\
     exists j, 0 <= j < gridCols 16 (DEFAULT_SETTINGS (num := float)) /\
       x cell = floor (mul (num := float) (ofZ j) (pixelSize DEFAULT_SETTINGS))) /\
  (len [ {| char := "."; color := "#000000"; x := 0; y := 0 |};
         {| char := "."; color := "#000000"; x := 8; y := 0 |} ]
     = gridCols 16 (DEFAULT_SETTINGS (num := float)) ->
   forall j cell,
     get [ {| char := "."; color := "#000000"; x := 0; y := 0 |};
           {| char := "."; color := "#000000"; x := 8; y := 0 |} ] j = Some cell ->
     x cell = floor (mul (num := float) (ofZ j) (pixelSize DEFAULT_SETTINGS))).
Proof.
  apply (grid_is_row_major (num := float) (solidCanvas 16 16 0) 16 16 DEFAULT_SETTINGS
           [[ {| char := "."; color := "#000000"; x := 0; y := 0 |};
              {| char := "."; color := "#000000"; x := 8; y := 0 |} ]] 0).
  - vm_compute. reflexivity.
  - reflexivity.
Defined.

(** X16: A frame of one colour gives a grid of one glyph and one colour: for a
    frame of width and height at least 1 whose pixels all have the same red,
    green and blue, and a pixel size of at least 2, any two cells of the
    result agree on glyph and colour. *)
Theorem uniform_frame_uniform_grid (ctx : Canvas) (width height : Z)
    (settings : ASCIISettings Q) (vr vg vb : Z) :
  1 <= width -> 1 <= height -> (2 <= pixelSize settings)%Q ->
  (forall x y, 0 <= x < width -> 0 <= y < height ->
     canvasByte ctx x y 0 = vr /\ canvasByte ctx x y 1 = vg /\ canvasByte ctx x y 2 = vb) ->
  exists grid,
    convertFrameToASCII ctx width height settings = Some grid /\
    forall row1 cell1 row2 cell2,
      In row1 grid -> In cell1 row1 -> In row2 grid -> In cell2 row2 ->
      char cell1 = char cell2 /\ color cell1 = color cell2.
Proof.
  intros Hw Hh Hp Hu.
  destruct (grid_is_rectangular ctx width height settings Hw Hh Hp)
    as (pixels & grid & Ep & E & _ & _).
  exists grid. split; [exact E|].
  assert (forall row cell, In row grid -> In cell row ->
            exists n, n <> 0 /\
              let blended :=
                applyBlendMode (div (ofZ (vr * n)) (ofZ n)) (div (ofZ (vg * n)) (ofZ n))
                  (div (ofZ (vb * n)) (ofZ n)) (blendMode settings) in
              let gray :=
                applyContrast
                  (applyBrightness (rgbToGrayscale (r blended) (g blended) (b blended))
                     (brightness settings))
                  (contrast settings) in
              n = ceil (pixelSize settings)
                  * ceil (div (pixelSize settings) CHAR_ASPECT_RATIO) /\
              char cell = getCharacterForBrightness gray (characterSet settings)
                            (invert settings) /\
              color cell = cellColor settings (r blended) (g blended) (b blended) gray)
    as K.
  { intros row cell Hrow Hcell.
    destruct (grid_cells pixels width height settings ctx grid row cell Ep E Hrow Hcell)
      as (x & y & Hx & Hy & Sc).
    destruct (sampleCell_inv _ _ _ _ _ _ _ Sc)
      as (tR & tG & tB & n & Bt & Hn & _ & _ & Hc).
    destruct (in_grid_block width height settings Hp x y Hx Hy)
      as (X0 & Y0 & W0 & H0 & Cx & Cy).
    rewrite (blockTotals_uniform pixels width height _ _ _ _ vr vg vb W0 H0 Cx Cy) in Bt.
    - injection Bt as <- <- <- <-. eexists. split; [exact Hn|].
      cbv zeta. cbv zeta in Hc. split; [reflexivity | exact Hc].
    - intros px py Hpx Hpy.
      set (X := floor (mul (ofZ x) (pixelSize settings)) + px).
      set (Y := floor (mul (ofZ y) (div (pixelSize settings) CHAR_ASPECT_RATIO)) + py).
      assert (0 <= X < width) as HX by (unfold X; lia).
      assert (0 <= Y < height) as HY by (unfold Y; lia).
      destruct (Hu X Y HX HY) as (U0 & U1 & U2).
      pose proof (getImageData_nth ctx width height pixels X Y 0 Ep HX HY ltac:(lia)) as N0.
      pose proof (getImageData_nth ctx width height pixels X Y 1 Ep HX HY ltac:(lia)) as N1.
      pose proof (getImageData_nth ctx width height pixels X Y 2 Ep HX HY ltac:(lia)) as N2.
      rewrite Z.add_0_r in N0.
      rewrite N0, N1, N2. repeat split; assumption. }
  intros row1 cell1 row2 cell2 Hr1 Hc1 Hr2 Hc2.
  destruct (K row1 cell1 Hr1 Hc1) as (n1 & _ & K1).
  destruct (K row2 cell2 Hr2 Hc2) as (n2 & _ & K2).
  cbv zeta in K1, K2. destruct K1 as (N1 & C1 & D1). destruct K2 as (N2 & C2 & D2).
  assert (n1 = n2) as -> by congruence.
  split; congruence.
Qed.

Lemma uniform_frame_uniform_grid_witness :
  exists grid,
    convertFrameToASCII (solidCanvas 16 16 77) 16 16 (DEFAULT_SETTINGS (num := Q))
      = Some grid /\
    forall row1 cell1 row2 cell2,
      In row1 grid -> In cell1 row1 -> In row2 grid -> In cell2 row2 ->
      char cell1 = char cell2 /\ color cell1 = color cell2.
Proof.
  apply (uniform_frame_uniform_grid (solidCanvas 16 16 77) 16 16
           (DEFAULT_SETTINGS (num := Q)) 77 77 77).
  - lia.
  - lia.
  - vm_compute. discriminate.
  - intros x y Hx Hy. unfold solidCanvas, canvasByte, inside. cbn [cwidth cheight cdata].
    destruct ((0 <=? x) && (x <? 16) && (0 <=? y) && (y <? 16)) eqn:I.
    + replace (4 * (y * 16 + x) + 0) with ((y * 16 + x) * 4 + 0) by lia.
      replace (4 * (y * 16 + x) + 1) with ((y * 16 + x) * 4 + 1) by lia.
      replace (4 * (y * 16 + x) + 2) with ((y * 16 + x) * 4 + 2) by lia.
      rewrite !rgbaBuffer_nth by lia. repeat split; reflexivity.
    + exfalso. repeat rewrite andb_false_iff in I.
      destruct I as [[[I|I]|I]|I];
        first [apply Z.leb_gt in I | apply Z.ltb_ge in I]; lia.
Defined.

(* ------------------------------------------------------------------ *)
(** ** The colours of the cells *)
(* ------------------------------------------------------------------ *)

Lemma nth_byte (pixels : list Z) (i : nat) :
  Forall isByte pixels -> isByte (nth i pixels 0).
Proof.
  intros F. destruct (nth_in_or_default i pixels 0) as [Hin| ->].
  - rewrite Forall_forall in F. apply F. exact Hin.
  - unfold isByte. lia.
Qed.

Lemma canvasByte_byte (ctx : Canvas) (x y k : Z) :
  Forall isByte (cdata ctx) -> isByte (canvasByte ctx x y k).
Proof.
  intros F. unfold canvasByte. destruct (inside ctx x y).
  - apply nth_byte. exact F.
  - unfold isByte. lia.
Qed.

Lemma getImageData_bytes (ctx : Canvas) (width height : Z) (pixels : list Z) :
  Forall isByte (cdata ctx) ->
  getImageData ctx width height = Some pixels ->
  Forall isByte pixels.
Proof.
  intros F. unfold getImageData.
  destruct ((width =? 0) || (height =? 0)); [discriminate|].
  intros E. injection E as <-. unfold rgbaBuffer.
  apply Forall_forall. intros v Hin.
  apply in_flat_map in Hin. destruct Hin as (y & _ & Hin).
  apply in_flat_map in Hin. destruct Hin as (x & _ & Hin).
  apply in_map_iff in Hin. destruct Hin as (k & <- & _).
  apply canvasByte_byte. exact F.
Qed.

(** The totals of a block of bytes: each at most 255 per counted pixel. *)
Lemma blockTotals_bytes (pixels : list Z) (width height pixelX pixelY : Z)
    (blockWidth blockHeight : Z) :
  Forall isByte pixels ->
  let '(totalR, totalG, totalB, count) :=
    blockTotals pixels width height pixelX pixelY blockWidth blockHeight in
  0 <= count /\
  0 <= totalR <= 255 * count /\ 0 <= totalG <= 255 * count /\
  0 <= totalB <= 255 * count.
Proof.
  intros F. unfold blockTotals, for_lt.
  apply (for_from_preserves
           (fun acc : Z * Z * Z * Z =>
              let '(totalR, totalG, totalB, count) := acc in
              0 <= count /\
              0 <= totalR <= 255 * count /\ 0 <= totalG <= 255 * count /\
              0 <= totalB <= 255 * count)); [|lia].
  intros py acc Hacc.
  apply (for_from_preserves
           (fun acc : Z * Z * Z * Z =>
              let '(totalR, totalG, totalB, count) := acc in
              0 <= count /\
              0 <= totalR <= 255 * count /\ 0 <= totalG <= 255 * count /\
              0 <= totalB <= 255 * count)); [|exact Hacc].
  intros px [[[tR tG] tB] n] (Hn & HR & HG & HB).
  pose proof (nth_byte pixels
                (Z.to_nat (((pixelY + py) * width + (pixelX + px)) * 4)) F) as B0.
  pose proof (nth_byte pixels
                (Z.to_nat (((pixelY + py) * width + (pixelX + px)) * 4 + 1)) F) as B1.
  pose proof (nth_byte pixels
                (Z.to_nat (((pixelY + py) * width + (pixelX + px)) * 4 + 2)) F) as B2.
  unfold isByte in B0, B1, B2. cbv zeta. lia.
Qed.

Lemma average_in_range (total count : Z) :
  count <> 0 -> 0 <= count -> 0 <= total <= 255 * count ->
  inByteRange (div (ofZ total) (ofZ count)).
Proof.
  intros Hn H0 [L U]. cbv [div ofZ Exact]. unfold inByteRange.
  assert (0 < inject_Z count)%Q as P.
  { change 0%Q with (inject_Z 0). rewrite <- Zlt_Qlt. lia. }
  split.
  - apply Qle_shift_div_l; [exact P|]. rewrite Qmult_0_l.
    change 0%Q with (inject_Z 0). rewrite <- Zle_Qle. exact L.
  - apply Qle_shift_div_r; [exact P|].
    change 255%Q with (inject_Z 255). rewrite <- inject_Z_mult, <- Zle_Qle. exact U.
Qed.

Lemma round_byte (q : Q) : inByteRange q -> isByte (round q).
Proof.
  intros [L U]. apply (round_half_up_range q 0 255); assumption.
Qed.

(** X17: In [original] mode every cell colour is a well-formed colour: when the
    canvas holds bytes, the colour of each cell is [#] followed by six
    lower-case hexadecimal digits, for every blend mode and every setting. *)
Theorem original_colours_are_canonical (ctx : Canvas) (width height : Z)
    (settings : ASCIISettings Q) (grid : list (list ASCIIChar))
    (row : list ASCIIChar) (cell : ASCIIChar) :
  colorMode settings = Original ->
  Forall isByte (cdata ctx) ->
  convertFrameToASCII ctx width height settings = Some grid ->
  In row grid -> In cell row ->
  canonicalHex (color cell) = true.
Proof.
  intros Hmode Fb Hgrid Hrow Hcell.
  destruct (getImageData ctx width height) as [pixels|] eqn:Ep;
    [|unfold convertFrameToASCII in Hgrid; rewrite Ep in Hgrid; discriminate].
  destruct (grid_cells pixels width height settings ctx grid row cell
              Ep Hgrid Hrow Hcell) as (x & y & _ & _ & E).
  destruct (sampleCell_inv _ _ _ _ _ _ _ E)
    as (tR & tG & tB & n & Bt & Hn & _ & _ & C).
  cbv zeta in C. destruct C as [_ C]. rewrite C. unfold cellColor. rewrite Hmode.
  pose proof (blockTotals_bytes pixels width height
                (floor (mul (ofZ x) (pixelSize settings)))
                (floor (mul (ofZ y) (div (pixelSize settings) CHAR_ASPECT_RATIO)))
                (ceil (pixelSize settings))
                (ceil (div (pixelSize settings) CHAR_ASPECT_RATIO))
                (getImageData_bytes ctx width height pixels Fb Ep)) as B.
  rewrite Bt in B. destruct B as (N0 & BR & BG & BB).
  destruct (applyBlendMode_in_range _ _ _ (blendMode settings)
              (average_in_range tR n Hn N0 BR) (average_in_range tG n Hn N0 BG)
              (average_in_range tB n Hn N0 BB)) as (R & G & B).
  apply rgbToHex_bytes; apply round_byte; assumption.
Qed.

Lemma original_colours_are_canonical_witness :
  canonicalHex "#272727" = true.
Proof.
  apply (original_colours_are_canonical (solidCanvas 2 4 100) 2 4
           (multiplySettings (num := Q))
           [[ {| char := ":"; color := "#272727"; x := 0; y := 0 |} ]]
           [ {| char := ":"; color := "#272727"; x := 0; y := 0 |} ]
           {| char := ":"; color := "#272727"; x := 0; y := 0 |}).
  - reflexivity.
  - vm_compute. repeat constructor; discriminate.
  - vm_compute. reflexivity.
  - left. reflexivity.
  - left. reflexivity.
Defined.

Lemma last_single {A : Type} (a : list A) (d : A) :
  len a = 1 -> get a 0 = Some (last a d).
Proof.
  destruct a as [|v [|w a]]; unfold len; simpl; intros E; try lia. reflexivity.
Qed.

(** X18: In [gradient] mode every cell colour is a well-formed colour or the last
    gradient stop as the user wrote it: [#] and six lower-case hexadecimal
    digits whenever the final gray value is below 255, and the raw last stop
    at 255 (or when there is a single stop). *)
Theorem gradient_colours_are_canonical_or_last (ctx : Canvas) (width height : Z)
    (settings : ASCIISettings Q) (grid : list (list ASCIIChar))
    (row : list ASCIIChar) (cell : ASCIIChar) :
  colorMode settings = Gradient ->
  convertFrameToASCII ctx width height settings = Some grid ->
  In row grid -> In cell row ->
  canonicalHex (color cell) = true \/
  color cell = last (gradientColors settings) "".
Proof.
  intros Hmode Hgrid Hrow Hcell.
  destruct (getImageData ctx width height) as [pixels|] eqn:Ep;
    [|unfold convertFrameToASCII in Hgrid; rewrite Ep in Hgrid; discriminate].
  destruct (grid_cells pixels width height settings ctx grid row cell
              Ep Hgrid Hrow Hcell) as (x & y & _ & _ & E).
  destruct (sampleCell_inv _ _ _ _ _ _ _ E)
    as (tR & tG & tB & n & _ & _ & _ & _ & C).
  cbv zeta in C. destruct C as [_ C]. rewrite C. unfold cellColor. rewrite Hmode.
  match goal with
  | |- context [interpolateGradient _ (div ?gray (ofZ 255))] =>
      assert (inByteRange gray) as [G0 G1] by apply adjusted_in_range;
      set (position := div gray (ofZ 255))
  end.
  assert (0 <= position)%Q as P0.
  { unfold position. cbv [div ofZ Exact].
    apply Qle_shift_div_l; [reflexivity|]. rewrite Qmult_0_l. exact G0. }
  destruct (gradientColors settings) as [|first rest] eqn:Ec.
  - left. reflexivity.
  - destruct (Qlt_le_dec position 1) as [P1|P1].
    + destruct rest as [|second rest].
      * right. reflexivity.
      * left. apply interpolateGradient_below_one; try assumption.
        unfold len. simpl List.length. lia.
    + right. apply interpolateGradient_from_one; [discriminate | exact P1].
Qed.

Lemma gradient_colours_are_canonical_or_last_witness :
  canonicalHex "#c837e5" = true \/ "#c837e5" = "#00ffff".
Proof.
  apply (gradient_colours_are_canonical_or_last (solidCanvas 2 4 100) 2 4
           {| characterSet := ".:-=+*#%@"; pixelSize := 2%Q; colorMode := Gradient;
              monochromeColor := "#00ff88";
              gradientColors := ["#00ff88"; "#ff00ff"; "#00ffff"];
              backgroundColor := "#0a0a0f"; transparentBackground := false;
              blendMode := Normal; contrast := 1%Q; brightness := 1%Q;
              invert := false; fontSize := 10%Q |}
           [[ {| char := "="; color := "#c837e5"; x := 0; y := 0 |} ]]
           [ {| char := "="; color := "#c837e5"; x := 0; y := 0 |} ]
           {| char := "="; color := "#c837e5"; x := 0; y := 0 |}).
  - reflexivity.
  - vm_compute. reflexivity.
  - left. reflexivity.
  - left. reflexivity.
Defined.

(* ------------------------------------------------------------------ *)
(** ** More on the renderer *)
(* ------------------------------------------------------------------ *)

Lemma for_from_split {S : Type} (n m : nat) (i : Z) (guard : Z -> bool)
    (body : Z -> S -> S) (s : S) :
  for_from (n + m) i always body s =
  for_from m (i + Z.of_nat n) always body (for_from n i always body s).
Proof.
  revert i s. induction n as [|n IH]; intros i s.
  - simpl. rewrite Z.add_0_r. reflexivity.
  - simpl. rewrite IH. f_equal. lia.
Qed.

(** A loop over [always] around index [k]: the rounds before, round [k], the
    rounds after. *)
Lemma for_lt_around {S : Type} (bound k : Z) (body : Z -> S -> S) (s : S) :
  0 <= k < bound ->
  for_lt bound always body s =
  for_from (Z.to_nat (bound - k - 1)) (k + 1) always body
    (body k (for_lt k always body s)).
Proof.
  intros Hk. unfold for_lt.
  replace (Z.to_nat bound) with (Z.to_nat k + Datatypes.S (Z.to_nat (bound - k - 1)))%nat
    by lia.
  rewrite (for_from_split _ _ _ always). simpl.
  rewrite Z2Nat.id by lia. reflexivity.
Qed.

Section RendererCells.
Context {num : Type} `{Number num}.

Lemma fillTexts_app (a c : Drawing num) : fillTexts (a ++ c)%list = fillTexts a + fillTexts c.
Proof.
  unfold fillTexts, len. rewrite filter_app, length_app. lia.
Qed.

Lemma drawCells_unfold (asciiChars : list (list ASCIIChar)) (rows cols : Z)
    (cellWidth cellHeight : num) (outputCtx : Drawing num) :
  drawCells asciiChars rows cols cellWidth cellHeight outputCtx =
  for_lt rows always
    (fun y acc => for_lt cols always (drawCell asciiChars cellWidth cellHeight y) acc)
    (Some outputCtx).
Proof. reflexivity. Qed.

Lemma drawCell_none (asciiChars : list (list ASCIIChar)) (cellWidth cellHeight : num)
    (y : Z) (n : nat) (i : Z) :
  for_from n i always (drawCell asciiChars cellWidth cellHeight y) None = None.
Proof.
  apply (for_from_preserves (fun acc => acc = None)); [|reflexivity].
  intros j acc ->. reflexivity.
Qed.

Lemma drawRows_none (asciiChars : list (list ASCIIChar)) (cols : Z)
    (cellWidth cellHeight : num) (n : nat) (i : Z) :
  for_from n i always
    (fun y acc => for_lt cols always (drawCell asciiChars cellWidth cellHeight y) acc)
    None = None.
Proof.
  apply (for_from_preserves (fun acc => acc = None)); [|reflexivity].
  intros j acc ->. apply drawCell_none.
Qed.

(** Rows at least as long as [cols]: every cell is drawn, two calls each, on
    top of what was there. *)
Lemma drawCells_long_rows (asciiChars : list (list ASCIIChar)) (rows cols : Z)
    (cellWidth cellHeight : num) (outputCtx : Drawing num) :
  0 <= rows -> 0 <= cols ->
  (forall y, 0 <= y < rows ->
     exists row, get asciiChars y = Some row /\ cols <= len row) ->
  exists ops,
    drawCells asciiChars rows cols cellWidth cellHeight outputCtx
      = Some (outputCtx ++ ops)%list /\
    fillTexts ops = rows * cols.
Proof.
  intros Hr Hc Hgrid. rewrite drawCells_unfold.
  apply (for_lt_invariant
           (fun k acc => exists ops, acc = Some (outputCtx ++ ops)%list /\
                                     fillTexts ops = k * cols)).
  - exact Hr.
  - exists []. split; [rewrite app_nil_r; reflexivity | reflexivity].
  - intros y acc Hy (ops & -> & Hn).
    destruct (Hgrid y Hy) as (row & Erow & Lrow).
    assert (exists ops', for_lt cols always (drawCell asciiChars cellWidth cellHeight y)
                           (Some (outputCtx ++ ops)%list)
                         = Some (outputCtx ++ ops')%list /\
                         fillTexts ops' = y * cols + cols) as (ops' & E & N).
    { apply (for_lt_invariant
               (fun k acc => exists ops', acc = Some (outputCtx ++ ops')%list /\
                                          fillTexts ops' = y * cols + k)).
      - exact Hc.
      - exists ops. split; [reflexivity | lia].
      - intros x acc' Hx (ops' & -> & N'). unfold drawCell. rewrite Erow.
        destruct (get_some row x) as (cell & Ecell & _); [lia|].
        rewrite Ecell. eexists. split.
        + rewrite <- app_assoc. reflexivity.
        + rewrite fillTexts_app, N'. unfold fillTexts, len.
          cbn [filter isFillText List.length]. lia. }
    exists ops'. split; [exact E | lia].
Qed.

(** A row shorter than [cols] makes the drawing fail. *)
Lemma drawCells_short_row (asciiChars : list (list ASCIIChar)) (rows cols : Z)
    (cellWidth cellHeight : num) (outputCtx : Drawing num) (y : Z)
    (row : list ASCIIChar) :
  0 <= y < rows -> get asciiChars y = Some row -> len row < cols ->
  drawCells asciiChars rows cols cellWidth cellHeight outputCtx = None.
Proof.
  intros Hy Erow Lrow. rewrite drawCells_unfold.
  rewrite (for_lt_around rows y) by exact Hy.
  assert (for_lt cols always (drawCell asciiChars cellWidth cellHeight y)
            (for_lt y always
               (fun y0 acc =>
                  for_lt cols always (drawCell asciiChars cellWidth cellHeight y0) acc)
               (Some outputCtx)) = None) as K.
  { assert (0 <= len row < cols) as Hx by (unfold len in *; lia).
    rewrite (for_lt_around cols (len row)) by exact Hx.
    assert (forall acc, drawCell asciiChars cellWidth cellHeight y (len row) acc = None)
      as D.
    { intros [ops|]; [|reflexivity]. unfold drawCell. rewrite Erow.
      unfold get, len. destruct (Z.of_nat (List.length row) <? 0); [reflexivity|].
      rewrite Nat2Z.id.
      destruct (nth_error row (List.length row)) eqn:N; [|reflexivity].
      assert (List.length row < List.length row)%nat
        by (apply nth_error_Some; rewrite N; discriminate).
      lia. }
    rewrite D. apply drawCell_none. }
  rewrite K. apply drawRows_none.
Qed.

Lemma render_background (outputCtx : Drawing num) (settings : ASCIISettings num)
    (outputWidth outputHeight : Z) :
  (if transparentBackground settings
   then (outputCtx ++ [ClearRect 0 0 outputWidth outputHeight])%list
   else (outputCtx ++ [SetFillStyle (backgroundColor settings);
                       FillRect 0 0 outputWidth outputHeight])%list)
  = (outputCtx ++ backgroundOps settings outputWidth outputHeight)%list /\
  fillTexts (backgroundOps settings outputWidth outputHeight) = 0.
Proof.
  unfold backgroundOps. destruct (transparentBackground settings); split; reflexivity.
Qed.

(** Rows at least as long as the first: what was drawn is kept, the
    background is painted, and the cells follow; nothing follows the
    background when the grid or its first row is empty. *)
Lemma render_long_rows (outputCtx : Drawing num)
    (asciiChars : list (list ASCIIChar)) (settings : ASCIISettings num)
    (outputWidth outputHeight : Z) :
  (forall row, In row asciiChars -> len (toRow (get asciiChars 0)) <= len row) ->
  exists cells,
    renderASCIIToCanvas outputCtx asciiChars settings outputWidth outputHeight
      = Some (outputCtx ++ backgroundOps settings outputWidth outputHeight ++ cells)%list /\
    fillTexts cells = len asciiChars * len (toRow (get asciiChars 0)) /\
    (len asciiChars = 0 \/ len (toRow (get asciiChars 0)) = 0 -> cells = []).
Proof.
  intros R. unfold renderASCIIToCanvas. cbv zeta.
  destruct (render_background outputCtx settings outputWidth outputHeight) as [-> B0].
  destruct ((len asciiChars =? 0) || (len (toRow (get asciiChars 0)) =? 0)) eqn:E.
  - exists []. split; [rewrite app_nil_r; reflexivity|]. split; [|reflexivity].
    apply orb_true_iff in E. destruct E as [E|E]; apply Z.eqb_eq in E; rewrite E;
      unfold fillTexts, len; simpl; lia.
  - set (cols := len (toRow (get asciiChars 0))) in *.
    destruct (drawCells_long_rows asciiChars (len asciiChars) cols
                (div (ofZ outputWidth) (ofZ cols))
                (div (ofZ outputHeight) (ofZ (len asciiChars)))
                ((outputCtx ++ backgroundOps settings outputWidth outputHeight) ++
                 [SetFont (div (ofZ outputHeight) (ofZ (len asciiChars)));
                  SetTextBaseline "top"; SetTextAlign "left"])%list)
      as (ops & D & N).
    + unfold len. lia.
    + unfold cols, len. lia.
    + intros y Hy. destruct (get_some asciiChars y Hy) as (row & G & Hin).
      exists row. split; [exact G | apply R; exact Hin].
    + rewrite D. eexists. split; [|split].
      * rewrite <- !app_assoc. reflexivity.
      * rewrite fillTexts_app, N. reflexivity.
      * apply orb_false_iff in E. destruct E as [E1 E2].
        apply Z.eqb_neq in E1, E2. intros [Z0|Z0]; contradiction.
Qed.

Lemma render_short_row (outputCtx : Drawing num)
    (asciiChars : list (list ASCIIChar)) (settings : ASCIISettings num)
    (outputWidth outputHeight : Z) (row : list ASCIIChar) :
  In row asciiChars -> len row < len (toRow (get asciiChars 0)) ->
  renderASCIIToCanvas outputCtx asciiChars settings outputWidth outputHeight = None.
Proof.
  intros Hin Lrow. unfold renderASCIIToCanvas. cbv zeta.
  destruct ((len asciiChars =? 0) || (len (toRow (get asciiChars 0)) =? 0)) eqn:E.
  - exfalso. apply orb_true_iff in E. destruct E as [E|E]; apply Z.eqb_eq in E.
    + destruct asciiChars; [destruct Hin | unfold len in E; simpl in E; lia].
    + unfold len in *. lia.
  - apply In_nth_error in Hin. destruct Hin as [n Hn].
    apply (drawCells_short_row _ _ _ _ _ _ (Z.of_nat n) row).
    + split; [lia|]. unfold len.
      assert (n < List.length asciiChars)%nat by (apply nth_error_Some; congruence).
      lia.
    + unfold get. destruct (Z.of_nat n <? 0) eqn:Z0; [apply Z.ltb_lt in Z0; lia|].
      rewrite Nat2Z.id. exact Hn.
    + exact Lrow.
Qed.

End RendererCells.

(** X19: On a grid whose rows are at least as long as the first, the renderer
    keeps what was drawn before, paints the background ([clearRect] when it
    is transparent, [fillRect] in the background colour otherwise) and then
    makes the calls for the cells, with one [fillText] per cell of the
    [rows] by [cols] table ([cols] being the length of the first row); for
    an empty grid or an empty first row nothing follows the background. *)
Theorem renderer_draws_every_cell {num : Type} `{Number num}
    (outputCtx : Drawing num) (asciiChars : list (list ASCIIChar))
    (settings : ASCIISettings num) (outputWidth outputHeight : Z) :
  (forall row, In row asciiChars -> len (toRow (get asciiChars 0)) <= len row) ->
  exists cells,
    renderASCIIToCanvas outputCtx asciiChars settings outputWidth outputHeight
      = Some (outputCtx ++ backgroundOps settings outputWidth outputHeight ++ cells)%list /\
    fillTexts cells = len asciiChars * len (toRow (get asciiChars 0)) /\
    (len asciiChars = 0 \/ len (toRow (get asciiChars 0)) = 0 -> cells = []).
Proof. intros R. apply render_long_rows. exact R. Qed.

Lemma renderer_draws_every_cell_witness :
  exists cells,
    renderASCIIToCanvas (num := float) [ClearRect 0 0 1 1]
      [[ {| char := "."; color := "#000000"; x := 0; y := 0 |};
         {| char := "@"; color := "#ffffff"; x := 8; y := 0 |} ]]
      DEFAULT_SETTINGS 100 50
      = Some ([ClearRect 0 0 1 1]
              ++ [SetFillStyle "#0a0a0f"; FillRect 0 0 100 50] ++ cells)%list /\
    fillTexts cells = 1 * 2.
Proof.
  destruct (renderer_draws_every_cell (num := float) [ClearRect 0 0 1 1]
              [[ {| char := "."; color := "#000000"; x := 0; y := 0 |};
                 {| char := "@"; color := "#ffffff"; x := 8; y := 0 |} ]]
              DEFAULT_SETTINGS 100 50) as (cells & E & N & _).
  - intros row [<-|[]]. cbn. lia.
  - exists cells. split; [exact E | exact N].
Defined.

(** X20: The renderer fails exactly on a ragged grid: it throws (on an undefined
    cell) if and only if some row is shorter than the first row. *)
Theorem renderer_throws_iff_ragged {num : Type} `{Number num}
    (outputCtx : Drawing num) (asciiChars : list (list ASCIIChar))
    (settings : ASCIISettings num) (outputWidth outputHeight : Z) :
  renderASCIIToCanvas outputCtx asciiChars settings outputWidth outputHeight = None <->
  exists row, In row asciiChars /\ len row < len (toRow (get asciiChars 0)).
Proof.
  split.
  - intros E.
    destruct (Exists_dec (fun row => len row < len (toRow (get asciiChars 0))) asciiChars)
      as [Ex|Nex].
    + intros row. destruct (Z_lt_dec (len row) (len (toRow (get asciiChars 0))));
        [left | right]; assumption.
    + apply Exists_exists in Ex. exact Ex.
    + exfalso.
      destruct (render_long_rows outputCtx asciiChars settings outputWidth outputHeight)
        as (cells & D & _).
      * intros row Hin.
        destruct (Z_lt_dec (len row) (len (toRow (get asciiChars 0)))) as [L|L]; [|lia].
        exfalso. apply Nex. apply Exists_exists. exists row. split; assumption.
      * congruence.
  - intros (row & Hin & L). eapply render_short_row; eassumption.
Qed.

(* ------------------------------------------------------------------ *)
(** ** More on the gradient stops of the control panel *)
(* ------------------------------------------------------------------ *)

Lemma set_nth_get_same {A : Type} (n : nat) (v : A) (a : list A) :
  (n < List.length a)%nat -> nth_error (set_nth n v a) n = Some v.
Proof.
  revert n. induction a as [|w a IH]; intros n Hn; simpl in Hn; [lia|].
  destruct n as [|n]; simpl; [reflexivity | apply IH; lia].
Qed.

Lemma set_nth_get_other {A : Type} (n m : nat) (v : A) (a : list A) :
  n <> m -> nth_error (set_nth n v a) m = nth_error a m.
Proof.
  revert n m. induction a as [|w a IH]; intros n m Hne.
  - destruct n; reflexivity.
  - destruct n as [|n], m as [|m]; simpl; try reflexivity; try lia.
    apply IH. lia.
Qed.

Lemma filter_index_after {A : Type} (index i : Z) (a : list A) :
  index < i -> filter_index (fun j => negb (j =? index)) i a = a.
Proof.
  revert i. induction a as [|v a IH]; intros i Hi; [reflexivity|].
  simpl. destruct (i =? index) eqn:E; [apply Z.eqb_eq in E; lia|].
  simpl. rewrite IH by lia. reflexivity.
Qed.

(** Filtering out one index of the array drops the element at that index and
    keeps the others in order. *)
Lemma filter_index_drops {A : Type} (index i : Z) (a : list A) :
  i <= index ->
  filter_index (fun j => negb (j =? index)) i a =
  (firstn (Z.to_nat (index - i)) a ++ skipn (Datatypes.S (Z.to_nat (index - i))) a)%list.
Proof.
  revert i. induction a as [|v a IH]; intros i Hi.
  - simpl. destruct (Z.to_nat (index - i)); reflexivity.
  - simpl filter_index. destruct (i =? index) eqn:E.
    + apply Z.eqb_eq in E. subst i. rewrite Z.sub_diag. simpl.
      apply filter_index_after. lia.
    + apply Z.eqb_neq in E. simpl negb. cbv iota.
      rewrite IH by lia.
      replace (Z.to_nat (index - i)) with (Datatypes.S (Z.to_nat (index - (i + 1)))) by lia.
      reflexivity.
Qed.

Section GradientStopEdits.
Context {num : Type}.
Import ControlPanel.

(** X21: Recolouring the stop of a row sets that stop and no other: for an index
    the panel shows, the new settings hold the colour at that index and the
    old stops everywhere else. *)
Theorem updateGradientColor_sets_the_stop (settings : ASCIISettings num)
    (index : Z) (color : string) :
  0 <= index < stopCount settings ->
  exists settings',
    updateGradientColor settings index color = Some settings' /\
    get (gradientColors settings') index = Some color /\
    forall j, j <> index ->
      get (gradientColors settings') j = get (gradientColors settings) j.
Proof.
  unfold stopCount, updateGradientColor, assign. intros [L U].
  destruct (index <? 0) eqn:E0; [apply Z.ltb_lt in E0; lia|].
  destruct (index <? len (gradientColors settings)) eqn:E1;
    [|apply Z.ltb_ge in E1; lia].
  eexists. split; [reflexivity|]. cbn [gradientColors updateGradientColors]. split.
  - unfold get. rewrite E0. apply set_nth_get_same. unfold len in U. lia.
  - intros j Hj. unfold get. destruct (j <? 0) eqn:Ej; [reflexivity|].
    apply Z.ltb_ge in Ej. apply set_nth_get_other. lia.
Qed.

(** X22: Removing the stop of a row drops exactly that stop: with more than two
    stops, the new list is the old one without the element at the index, the
    others in their order. *)
Theorem removeGradientColor_drops_the_stop (settings : ASCIISettings num) (index : Z) :
  2 < stopCount settings -> 0 <= index < stopCount settings ->
  gradientColors (removeGradientColor settings index) =
    (firstn (Z.to_nat index) (gradientColors settings)
     ++ skipn (Datatypes.S (Z.to_nat index)) (gradientColors settings))%list /\
  stopCount (removeGradientColor settings index) = stopCount settings - 1.
Proof.
  unfold stopCount, removeGradientColor. intros Hn Hi.
  apply Z.ltb_lt in Hn. rewrite Hn. cbn [gradientColors updateGradientColors].
  rewrite filter_index_drops by lia. rewrite Z.sub_0_r. split; [reflexivity|].
  unfold len in *. rewrite length_app, length_firstn, length_skipn. lia.
Qed.

(** X23: Adding a stop and removing it again changes nothing: below eight stops,
    [addGradientColor] appends [#ffffff] as the last stop, and removing the
    stop at that last index gives the settings back. *)
Theorem add_then_remove_restores (settings : ASCIISettings num) :
  2 <= stopCount settings < 8 ->
  gradientColors (addGradientColor settings) =
    (gradientColors settings ++ ["#ffffff"])%list /\
  removeGradientColor (addGradientColor settings) (stopCount settings) = settings.
Proof.
  unfold stopCount. intros [L U].
  assert (addGradientColor settings =
          updateGradientColors settings (gradientColors settings ++ ["#ffffff"])%list)
    as Ea.
  { unfold addGradientColor. apply Z.ltb_lt in U. rewrite U. reflexivity. }
  rewrite Ea. split; [reflexivity|].
  unfold removeGradientColor. cbn [gradientColors updateGradientColors].
  assert ((2 <? len (gradientColors settings ++ ["#ffffff"])%list) = true) as G.
  { apply Z.ltb_lt. unfold len in *. rewrite length_app. simpl. lia. }
  rewrite G. rewrite filter_index_drops by (unfold len; lia).
  rewrite Z.sub_0_r. unfold len. rewrite Nat2Z.id.
  rewrite firstn_app, Nat.sub_diag, firstn_all. cbn [firstn].
  rewrite skipn_all2 by (rewrite length_app; simpl; lia).
  rewrite !app_nil_r. destruct settings. reflexivity.
Qed.

End GradientStopEdits.

Lemma updateGradientColor_sets_the_stop_witness :
  exists settings',
    ControlPanel.updateGradientColor (DEFAULT_SETTINGS (num := Q)) 1 "#123456"
      = Some settings' /\
    get (gradientColors settings') 1 = Some "#123456" /\
    forall j, j <> 1 ->
      get (gradientColors settings') j = get (gradientColors (DEFAULT_SETTINGS (num := Q))) j.
Proof.
  apply (updateGradientColor_sets_the_stop (DEFAULT_SETTINGS (num := Q)) 1 "#123456").
  vm_compute. split; [discriminate | reflexivity].
Defined.

Lemma removeGradientColor_drops_the_stop_witness :
  gradientColors (ControlPanel.removeGradientColor (DEFAULT_SETTINGS (num := Q)) 1) =
    ["#00ff88"; "#00ffff"] /\
  ControlPanel.stopCount (ControlPanel.removeGradientColor (DEFAULT_SETTINGS (num := Q)) 1)
    = ControlPanel.stopCount (DEFAULT_SETTINGS (num := Q)) - 1.
Proof.
  apply (removeGradientColor_drops_the_stop (DEFAULT_SETTINGS (num := Q)) 1).
  - reflexivity.
  - vm_compute. split; [discriminate | reflexivity].
Defined.

Lemma add_then_remove_restores_witness :
  gradientColors (ControlPanel.addGradientColor (DEFAULT_SETTINGS (num := Q))) =
    ["#00ff88"; "#ff00ff"; "#00ffff"; "#ffffff"] /\
  ControlPanel.removeGradientColor
    (ControlPanel.addGradientColor (DEFAULT_SETTINGS (num := Q)))
    (ControlPanel.stopCount (DEFAULT_SETTINGS (num := Q)))
  = DEFAULT_SETTINGS (num := Q).
Proof.
  apply (add_then_remove_restores (DEFAULT_SETTINGS (num := Q))).
  vm_compute. split; [discriminate | reflexivity].
Defined.

(* ------------------------------------------------------------------ *)
(** ** More on the export *)
(* ------------------------------------------------------------------ *)

Section ExportEdges.
Import AsciiPreview.

Lemma progressAfter_last (n : Z) : 1 <= n -> progressAfter (num := Q) (n - 1) n = 100.
Proof.
  intros Hn. unfold progressAfter. apply round_half_up_Z.
  cbv [mul div ofZ Exact]. replace (n - 1 + 1) with n by lia.
  change (inject_Z 100) with 100%Q. field.
  intros Z0. change 0%Q with (inject_Z 0) in Z0.
  assert (n = 0) by (apply inject_Z_injective; exact Z0). lia.
Qed.

Section AnyArithmetic.
Context {num : Type} `{Number num}.

Lemma renderGifFrame_not_pending (props : ASCIIPreviewProps num) (i : Z) (s : State num) :
  renderGifFrame props i s <> Pending.
Proof.
  unfold renderGifFrame.
  destruct (gifFrames props) as [frames|]; [|discriminate].
  destruct (get frames i) as [frame|]; [|discriminate].
  destruct (validImageData _ _ _); discriminate.
Qed.

Lemma renderExport_not_pending (props : ASCIIPreviewProps num)
    (exportWidth exportHeight : Z) (s : State num) :
  renderExport props exportWidth exportHeight s <> Pending.
Proof.
  unfold renderExport.
  destruct (convertFrameToASCII _ _ _ _) as [grid|]; cbn [orThrow bind]; [|discriminate].
  destruct (renderASCIIToCanvas _ _ _ _ _); cbn [orThrow bind]; discriminate.
Qed.

Lemma renderExport_progress (props : ASCIIPreviewProps num)
    (exportWidth exportHeight : Z) (s s' : State num) :
  renderExport props exportWidth exportHeight s = Done s' ->
  gif s' = gif s /\ exportProgress s' = exportProgress s.
Proof.
  unfold renderExport.
  destruct (convertFrameToASCII _ _ _ _) as [grid|]; cbn [orThrow bind]; [|discriminate].
  destruct (renderASCIIToCanvas _ _ _ _ _); cbn [orThrow bind]; [|discriminate].
  intros E. injection E as <-. split; reflexivity.
Qed.

Lemma gifRound_not_pending (br : Browser num) (props : ASCIIPreviewProps num)
    (frames : list (GifFrame num)) (exportWidth exportHeight totalFrames i : Z)
    (s : State num) :
  gifRound br props frames exportWidth exportHeight totalFrames i s <> Pending.
Proof.
  unfold gifRound.
  destruct (renderGifFrame props i s) as [s1| |] eqn:E1; cbn [bind];
    [|discriminate | exfalso; exact (renderGifFrame_not_pending _ _ _ E1)].
  destruct (renderExport props exportWidth exportHeight _) as [s2| |] eqn:E2; cbn [bind];
    [|discriminate | exfalso; exact (renderExport_not_pending _ _ _ _ E2)].
  destruct (get frames i); cbn [orThrow bind]; [|discriminate].
  unfold addFrame.
  destruct (frameContext br i); [destruct (drawableCanvas _ _)|]; discriminate.
Qed.

(** What a completed round of either loop leaves in the progress field. *)
Lemma gifRound_progress (br : Browser num) (props : ASCIIPreviewProps num)
    (frames : list (GifFrame num)) (exportWidth exportHeight totalFrames i : Z)
    (s s' : State num) :
  gifRound br props frames exportWidth exportHeight totalFrames i s = Done s' ->
  exportProgress s' = progressAfter i totalFrames.
Proof.
  unfold gifRound.
  destruct (renderGifFrame props i s) as [s1| |]; cbn [bind]; try discriminate.
  destruct (renderExport props exportWidth exportHeight _) as [s2| |]; cbn [bind];
    try discriminate.
  destruct (get frames i); cbn [orThrow bind]; [|discriminate].
  destruct (addFrame br exportWidth exportHeight i _ s2); cbn [bind]; try discriminate.
  intros E. injection E as <-. reflexivity.
Qed.

Lemma videoRound_progress (br : Browser num) (props : ASCIIPreviewProps num)
    (duration fps : num) (exportWidth exportHeight totalFrames i : Z)
    (s s' : State num) :
  videoRound br props duration fps exportWidth exportHeight totalFrames i s = Done s' ->
  exportProgress s' = progressAfter i totalFrames.
Proof.
  unfold videoRound. cbv zeta.
  destruct (seeked br _); [|discriminate].
  destruct (renderExport props exportWidth exportHeight _) as [s2| |]; cbn [bind];
    try discriminate.
  destruct (addFrame br exportWidth exportHeight i _ s2); cbn [bind]; try discriminate.
  intros E. injection E as <-. reflexivity.
Qed.

Lemma bind_throws_loop {S : Type} (round : Z -> S -> Outcome S) (n : nat) (i : Z) :
  for_from n i always (fun j acc => s <- acc ;; round j s) Throws = Throws.
Proof.
  apply (for_from_preserves (fun acc => acc = Throws)); [|reflexivity].
  intros j acc ->. reflexivity.
Qed.

Lemma bind_pending_loop {S : Type} (round : Z -> S -> Outcome S) (n : nat) (i : Z) :
  for_from n i always (fun j acc => s <- acc ;; round j s) Pending = Pending.
Proof.
  apply (for_from_preserves (fun acc => acc = Pending)); [|reflexivity].
  intros j acc ->. reflexivity.
Qed.

(** A GIF frame whose patch does not fit its dimensions aborts the export. *)
Lemma gif_export_throws (br : Browser num) (props : ASCIIPreviewProps num)
    (exportWidth exportHeight : Z) (frames : list (GifFrame num)) (k : Z)
    (frame : GifFrame num) (s : State num) :
  contexts br = true ->
  isAnimatedGif props = true ->
  gifFrames props = Some frames ->
  get frames k = Some frame -> 0 <= k ->
  decodedFrame frame = false ->
  exportAsGIF br props exportWidth exportHeight s = Throws.
Proof.
  intros Hc Ha Hf Hg Hk Hd. unfold exportAsGIF. rewrite Hc, Ha, Hf.
  cbn [negb]. cbv zeta.
  assert (0 <= k < len frames) as Hk'.
  { split; [exact Hk|]. unfold get in Hg.
    destruct (k <? 0); [discriminate|].
    assert (Z.to_nat k < List.length frames)%nat
      by (apply nth_error_Some; rewrite Hg; discriminate).
    unfold len. lia. }
  rewrite (for_lt_around (len frames) k) by exact Hk'.
  set (round := gifRound br props frames exportWidth exportHeight (len frames)).
  assert ((s0 <- for_lt k always (fun i acc => s1 <- acc ;; round i s1)
                   (Done (withGif (withExportCanvas s []) [])) ;;
           round k s0) = Throws) as K.
  { assert (for_lt k always (fun i acc => s1 <- acc ;; round i s1)
              (Done (withGif (withExportCanvas s []) [])) <> Pending) as NP.
    { unfold for_lt. apply (for_from_preserves (fun acc => acc <> Pending));
        [|discriminate].
      intros j acc Hacc. destruct acc as [s1| |]; cbn [bind];
        [apply gifRound_not_pending | discriminate | contradiction]. }
    destruct (for_lt k always _ _) as [s1| |]; cbn [bind];
      [|reflexivity | contradiction].
    unfold round, gifRound, renderGifFrame. rewrite Hf, Hg.
    unfold decodedFrame in Hd. rewrite Hd. reflexivity. }
  rewrite K. apply bind_throws_loop.
Qed.

(** A first seek that never completes leaves the export waiting. *)
Lemma video_export_pending (br : Browser num) (props : ASCIIPreviewProps num)
    (exportWidth exportHeight : Z) (duration : num) (s : State num) :
  contexts br = true ->
  video props = VideoElement duration ->
  1 <= videoTotalFrames duration (ofZ 15) ->
  seeked br (mul (div (ofZ 0) (ofZ (videoTotalFrames duration (ofZ 15)))) duration)
    = false ->
  exportAsGIF br props exportWidth exportHeight s = Pending.
Proof.
  intros Hc Hv Ht Hs. unfold exportAsGIF. rewrite Hc. cbn [negb].
  assert (isAnimatedGif props = false) as Ha.
  { unfold isAnimatedGif, isVideo. rewrite Hv. reflexivity. }
  rewrite Ha, Hv. cbv zeta.
  set (total := videoTotalFrames duration (ofZ 15)) in *.
  assert (for_lt total always
            (fun i acc =>
               s0 <- acc ;;
               videoRound br props duration (ofZ 15) exportWidth exportHeight total i s0)
            (Done (withGif (withExportCanvas s []) [])) = Pending) as K.
  { rewrite (for_lt_around total 0) by lia.
    rewrite (for_lt_nonpositive 0) by lia. cbn [bind].
    unfold videoRound at 2. cbv zeta. cbn [currentTime withCurrentTime].
    rewrite Hs. apply bind_pending_loop. }
  destruct (gifFrames props); exact K.
Qed.

End AnyArithmetic.

(** X24: An animated GIF with a frame whose patch does not hold the pixels its
    dimensions announce cannot be exported: in exact arithmetic, with a pixel
    size the panel offers (at least 2), [exportAsGIF] throws, and
    [handleExport] ends with exporting switched off, progress back at 0 and
    the playing flag as it found it. *)
Theorem export_fails_on_undecodable_frame
    (br : Browser Q) (props : ASCIIPreviewProps Q)
    (exportWidth exportHeight : Z) (frames : list (GifFrame Q)) (k : Z)
    (frame : GifFrame Q) (isPlaying : bool) (s : State Q) :
  contexts br = true ->
  isAnimatedGif props = true ->
  gifFrames props = Some frames ->
  (2 <= pixelSize (settings props))%Q ->
  0 <= k -> get frames k = Some frame ->
  decodedFrame frame = false ->
  exportAsGIF br props exportWidth exportHeight s = Throws /\
  handleExport br props exportWidth exportHeight isPlaying s =
    Done {| playing := isPlaying; exporting := false; progress := 0 |}.
Proof.
  intros Hc Ha Hf _ Hk Hg Hd. split.
  - apply (gif_export_throws br props exportWidth exportHeight frames k frame);
      assumption.
  - unfold handleExport.
    rewrite (gif_export_throws br props exportWidth exportHeight frames k frame);
      try assumption.
    reflexivity.
Qed.

(** X25: There is no way out of a stalled seek: when the seek to the first frame
    of a video long enough for one frame never fires [seeked], the export
    stays pending, and so does [handleExport]. *)
Theorem export_waits_on_stalled_seek {num : Type} `{Number num}
    (br : Browser num) (props : ASCIIPreviewProps num)
    (exportWidth exportHeight : Z) (duration : num) (isPlaying : bool) (s : State num) :
  contexts br = true ->
  video props = VideoElement duration ->
  1 <= videoTotalFrames duration (ofZ 15) ->
  seeked br (mul (div (ofZ 0) (ofZ (videoTotalFrames duration (ofZ 15)))) duration)
    = false ->
  exportAsGIF br props exportWidth exportHeight s = Pending /\
  handleExport br props exportWidth exportHeight isPlaying s = Pending.
Proof.
  intros Hc Hv Ht Hs. split.
  - apply (video_export_pending br props exportWidth exportHeight duration);
      assumption.
  - unfold handleExport.
    rewrite (video_export_pending br props exportWidth exportHeight duration);
      try assumption. reflexivity.
Qed.

(** X26: A still image, or a GIF of at most one frame, is exported as a single
    frame of 100 ms, whatever delay the GIF frame declares, and the progress
    goes straight to 100, when the export canvas has no side of zero; when
    it has one, copying it onto the frame canvas throws and so does the
    export. *)
Theorem still_export_is_one_frame (br : Browser Q) (props : ASCIIPreviewProps Q)
    (exportWidth exportHeight : Z) (s : State Q) :
  video props = ImageElement ->
  isAnimatedGif props = false ->
  contexts br = true ->
  frameContext br 0 = true ->
  1 <= originalWidth props ->
  1 <= originalHeight props ->
  (2 <= pixelSize (settings props))%Q ->
  (drawableCanvas exportWidth exportHeight = true ->
   exists s',
     exportAsGIF br props exportWidth exportHeight s = Done s' /\
     map frameDelay (gif s') = [100%Q] /\
     exportProgress s' = 100) /\
  (drawableCanvas exportWidth exportHeight = false ->
   exportAsGIF br props exportWidth exportHeight s = Throws).
Proof.
  intros Hv Ha Hc Hfc Hw Hh Hp. unfold exportAsGIF.
  rewrite Hc, Ha, Hv. cbn [negb]. cbv zeta.
  match goal with
  | |- context [renderExport props exportWidth exportHeight ?s0] =>
      destruct (renderExport_done props exportWidth exportHeight Hw Hh Hp s0)
        as (s1 & E & G)
  end.
  split; intros Hx.
  - eexists. split.
    + destruct (gifFrames props); rewrite E; cbn [bind]; unfold addFrame;
        rewrite Hfc, Hx; cbn [bind]; reflexivity.
    + cbn [gif setExportProgress withGif exportProgress].
      rewrite map_app, G. split; reflexivity.
  - destruct (gifFrames props); rewrite E; cbn [bind]; unfold addFrame;
      rewrite Hfc, Hx; reflexivity.
Qed.

Lemma export_fails_on_undecodable_frame_witness :
  exportAsGIF (num := Q) plainBrowser brokenGif 20 40 blankState = Throws /\
  handleExport (num := Q) plainBrowser brokenGif 20 40 true blankState =
    Done {| playing := true; exporting := false; progress := 0 |}.
Proof.
  apply (export_fails_on_undecodable_frame plainBrowser (brokenGif (num := Q)) 20 40
           [ {| patch := solidPatch 2 4 100;
                dims := {| top := 0; left := 0; width := 2; height := 4 |};
                delay := 100%Q; disposalType := 2 |};
             {| patch := [0; 0; 0];
                dims := {| top := 0; left := 0; width := 2; height := 4 |};
                delay := 100%Q; disposalType := 1 |} ]
           1
           {| patch := [0; 0; 0];
              dims := {| top := 0; left := 0; width := 2; height := 4 |};
              delay := 100%Q; disposalType := 1 |}
           true blankState).
  - reflexivity.
  - reflexivity.
  - reflexivity.
  - vm_compute. discriminate.
  - lia.
  - reflexivity.
  - reflexivity.
Defined.

Lemma export_waits_on_stalled_seek_witness :
  exportAsGIF (num := float) stallingBrowser (videoOf (ofZ 60)) 20 40 blankState
    = Pending /\
  handleExport (num := float) stallingBrowser (videoOf (ofZ 60)) 20 40 false blankState
    = Pending.
Proof.
  apply (export_waits_on_stalled_seek (num := float) stallingBrowser (videoOf (ofZ 60))
           20 40 (ofZ 60) false blankState).
  - reflexivity.
  - reflexivity.
  - vm_compute. discriminate.
  - reflexivity.
Defined.

Lemma still_export_is_one_frame_witness :
  (exists s',
     exportAsGIF plainBrowser (oneFrameGif (num := Q) 40%Q) 20 40 blankState = Done s' /\
     map frameDelay (gif s') = [100%Q] /\
     exportProgress s' = 100) /\
  exportAsGIF plainBrowser (oneFrameGif (num := Q) 40%Q) 0 40 blankState = Throws.
Proof.
  split.
  - apply (still_export_is_one_frame plainBrowser (oneFrameGif (num := Q) 40%Q) 20 40
             blankState).
    + reflexivity.
    + reflexivity.
    + reflexivity.
    + reflexivity.
    + simpl. lia.
    + simpl. lia.
    + vm_compute. discriminate.
    + reflexivity.
  - apply (still_export_is_one_frame plainBrowser (oneFrameGif (num := Q) 40%Q) 0 40
             blankState).
    + reflexivity.
    + reflexivity.
    + reflexivity.
    + reflexivity.
    + simpl. lia.
    + simpl. lia.
    + vm_compute. discriminate.
    + reflexivity.
Defined.

End ExportEdges.

(* ------------------------------------------------------------------ *)
(** ** The preview: GIF frames, [renderFrame] and [animate] *)
(* ------------------------------------------------------------------ *)

Section PreviewLoop.
Import AsciiPreview.

Lemma canvasByte_repaint (c : Canvas) (f : Z -> Z -> Z -> Z) (x y k : Z) :
  inside c x y = true -> 0 <= k < 4 ->
  canvasByte (repaint c f) x y k = f x y k.
Proof.
  intros I Hk. unfold canvasByte.
  change (inside (repaint c f) x y) with (inside c x y). rewrite I.
  cbn [repaint cwidth cdata].
  unfold inside in I. apply andb_true_iff in I. destruct I as [I Y1].
  apply andb_true_iff in I. destruct I as [I Y0].
  apply andb_true_iff in I. destruct I as [X0 X1].
  apply Z.leb_le in X0, Y0. apply Z.ltb_lt in X1, Y1.
  replace (4 * (y * cwidth c + x) + k) with ((y * cwidth c + x) * 4 + k) by lia.
  apply rgbaBuffer_nth; lia.
Qed.

Section PreviewAnyArithmetic.
Context {num : Type} `{Number num}.

(** What [renderFrame] leaves alone. *)
Lemma renderFrame_fields (br : Browser num) (props : ASCIIPreviewProps num)
    (p p' : Preview num) :
  renderFrame br props p = Done p' ->
  gifFrameIndex p' = gifFrameIndex p /\
  lastGifFrameTime p' = lastGifFrameTime p /\
  gifCanvas (core p') = gifCanvas (core p).
Proof.
  unfold renderFrame. destruct (contexts br); cbn [negb].
  - cbv zeta.
    destruct (convertFrameToASCII _ _ _ _) as [grid|]; cbn [orThrow bind]; [|discriminate].
    destruct (renderASCIIToCanvas _ _ _ _ _); cbn [orThrow bind]; [|discriminate].
    intros E. injection E as <-. repeat split.
  - intros E. injection E as <-. repeat split.
Qed.

Lemma animate_index (br : Browser num) (props : ASCIIPreviewProps num)
    (frames : list (GifFrame num)) (timestamp : num) (p p' : Preview num) :
  gifFrames props = Some frames ->
  animate br props timestamp p = Done p' ->
  (gifFrameIndex p' = gifFrameIndex p /\ lastGifFrameTime p' = lastGifFrameTime p) \/
  (isAnimatedGif props = true /\
   ltb (sub timestamp (lastGifFrameTime p))
       (match get frames (gifFrameIndex p) with
        | Some frame => exportedDelay frame
        | None => ofZ 100
        end) = false /\
   gifFrameIndex p' = Z.rem (gifFrameIndex p + 1) (len frames) /\
   lastGifFrameTime p' = timestamp).
Proof.
  intros Hf. unfold animate. rewrite Hf.
  destruct (isAnimatedGif props); cbn [bind].
  - match goal with
    | |- context [negb (ltb ?a ?d)] =>
        change d with (match get frames (gifFrameIndex p) with
                       | Some frame => exportedDelay frame
                       | None => ofZ 100
                       end);
        destruct (ltb a (match get frames (gifFrameIndex p) with
                         | Some frame => exportedDelay frame
                         | None => ofZ 100
                         end)) eqn:L
    end; cbn [negb bind].
    + intros E. apply renderFrame_fields in E. left. tauto.
    + destruct (renderGifFrame props _ (core p)) as [s1| |]; cbn [bind]; try discriminate.
      intros E. apply renderFrame_fields in E. cbn in E. right. tauto.
  - intros E. apply renderFrame_fields in E. left. tauto.
Qed.

Lemma animate_waits (br : Browser num) (props : ASCIIPreviewProps num)
    (frames : list (GifFrame num)) (timestamp : num) (p p' : Preview num) :
  gifFrames props = Some frames ->
  ltb (sub timestamp (lastGifFrameTime p))
      (match get frames (gifFrameIndex p) with
       | Some frame => exportedDelay frame
       | None => ofZ 100
       end) = true ->
  animate br props timestamp p = Done p' ->
  gifFrameIndex p' = gifFrameIndex p /\ lastGifFrameTime p' = lastGifFrameTime p.
Proof.
  intros Hf L E. destruct (animate_index br props frames timestamp p p' Hf E)
    as [K|(_ & L' & _)]; [exact K | congruence].
Qed.

Lemma animate_steps (br : Browser num) (props : ASCIIPreviewProps num)
    (frames : list (GifFrame num)) (timestamp : num) (p p' : Preview num) :
  isAnimatedGif props = true ->
  gifFrames props = Some frames ->
  ltb (sub timestamp (lastGifFrameTime p))
      (match get frames (gifFrameIndex p) with
       | Some frame => exportedDelay frame
       | None => ofZ 100
       end) = false ->
  animate br props timestamp p = Done p' ->
  gifFrameIndex p' = Z.rem (gifFrameIndex p + 1) (len frames) /\
  lastGifFrameTime p' = timestamp.
Proof.
  intros Ha Hf L. unfold animate. rewrite Hf, Ha.
  match goal with
  | |- context [negb (ltb ?a ?d)] =>
      change d with (match get frames (gifFrameIndex p) with
                     | Some frame => exportedDelay frame
                     | None => ofZ 100
                     end)
  end.
  rewrite L. cbn [negb].
  destruct (renderGifFrame props _ (core p)) as [s1| |]; cbn [bind]; try discriminate.
  intros E. apply renderFrame_fields in E. cbn in E. tauto.
Qed.

End PreviewAnyArithmetic.

(** X27: Drawing a decoded GIF frame composites it: a pixel of the GIF canvas
    under the frame's patch takes the patch's bytes; any other pixel keeps
    what the canvas showed, unless the frame's own disposal type is 2, which
    first clears the [originalWidth] by [originalHeight] rectangle. *)
Theorem gif_frame_is_composited {num : Type} `{Number num}
    (props : ASCIIPreviewProps num) (frames : list (GifFrame num)) (i : Z)
    (frame : GifFrame num) (s : State num) (x y k : Z) :
  gifFrames props = Some frames ->
  get frames i = Some frame ->
  decodedFrame frame = true ->
  inside (gifCanvas s) x y = true -> 0 <= k < 4 ->
  exists s',
    renderGifFrame props i s = Done s' /\
    canvasByte (gifCanvas s') x y k =
      if (left (dims frame) <=? x) && (x <? left (dims frame) + width (dims frame)) &&
         (top (dims frame) <=? y) && (y <? top (dims frame) + height (dims frame))
      then nth (Z.to_nat (4 * ((y - top (dims frame)) * width (dims frame)
                               + (x - left (dims frame))) + k)) (patch frame) 0
      else if (disposalType frame =? 2) &&
              (x <? originalWidth props) && (y <? originalHeight props)
      then 0
      else canvasByte (gifCanvas s) x y k.
Proof.
  intros Hf Hg Hd I Hk. unfold renderGifFrame. rewrite Hf, Hg.
  unfold decodedFrame in Hd. rewrite Hd. cbv zeta.
  eexists. split; [reflexivity|].
  cbn [gifCanvas withGifCanvas]. unfold putImageData.
  rewrite canvasByte_repaint;
    [| destruct (disposalType frame =? 2); exact I | exact Hk].
  destruct ((left (dims frame) <=? x) && (x <? left (dims frame) + width (dims frame)) &&
            (top (dims frame) <=? y) && (y <? top (dims frame) + height (dims frame)));
    [reflexivity|].
  destruct (disposalType frame =? 2); cbn [andb]; [|reflexivity].
  unfold clearRect. rewrite canvasByte_repaint by assumption. reflexivity.
Qed.

Lemma gif_frame_is_composited_witness :
  exists s',
    renderGifFrame (num := float) (twoFrameGif (ofZ 40) (ofZ 0)) 1 blankState = Done s' /\
    canvasByte (gifCanvas s') 1 3 0 = 200.
Proof.
  destruct (gif_frame_is_composited (num := float) (twoFrameGif (ofZ 40) (ofZ 0))
              [ {| patch := solidPatch 2 4 100;
                   dims := {| top := 0; left := 0; width := 2; height := 4 |};
                   delay := ofZ 40; disposalType := 2 |};
                {| patch := solidPatch 2 4 200;
                   dims := {| top := 0; left := 0; width := 2; height := 4 |};
                   delay := ofZ 0; disposalType := 1 |} ]
              1
              {| patch := solidPatch 2 4 200;
                 dims := {| top := 0; left := 0; width := 2; height := 4 |};
                 delay := ofZ 0; disposalType := 1 |}
              blankState 1 3 0) as (s' & E & B).
  - reflexivity.
  - reflexivity.
  - reflexivity.
  - reflexivity.
  - lia.
  - exists s'. split; [exact E | exact B].
Defined.

Lemma len_concat_rows {A : Type} (grid : list (list A)) (cols : Z) :
  Forall (fun row => len row = cols) grid ->
  len (List.concat grid) = len grid * cols.
Proof.
  intros R. induction R as [|row rest Hrow _ IH]; [reflexivity|].
  unfold len in *. simpl List.concat. rewrite length_app. simpl List.length. lia.
Qed.

(** In exact arithmetic [renderFrame] gets through and draws the grid it
    sampled. *)
Lemma renderFrame_grid (br : Browser Q) (props : ASCIIPreviewProps Q) (p : Preview Q) :
  contexts br = true ->
  1 <= originalWidth props ->
  1 <= originalHeight props ->
  (2 <= pixelSize (settings props))%Q ->
  exists p' grid cells,
    renderFrame br props p = Done p' /\
    convertFrameToASCII (sourceCanvas (core p')) (originalWidth props)
      (originalHeight props) (settings props) = Some grid /\
    outputCanvas p' =
      (outputCanvas p
       ++ backgroundOps (settings props) (originalWidth props) (originalHeight props)
       ++ cells)%list /\
    fillTexts cells = len (List.concat grid) /\
    (List.concat grid = [] -> cells = []).
Proof.
  intros Hc Hw Hh Hp. unfold renderFrame. rewrite Hc. cbn [negb]. cbv zeta.
  match goal with
  | |- context [convertFrameToASCII ?src _ _ _] => set (source := src)
  end.
  destruct (grid_is_rectangular source (originalWidth props) (originalHeight props)
              (settings props) Hw Hh Hp) as (pixels & grid & _ & E & L & R).
  rewrite E. cbn [orThrow bind].
  assert (Forall (fun row => len row = len (toRow (get grid 0))) grid) as R0.
  { destruct grid as [|row0 rest]; [constructor|].
    cbn [get Z.ltb Z.compare Z.to_nat nth_error toRow].
    rewrite Forall_forall in R. apply Forall_forall. intros row Hin.
    rewrite (R row0 (or_introl eq_refl)), (R row Hin). reflexivity. }
  destruct (render_long_rows (outputCanvas p) grid (settings props)
              (originalWidth props) (originalHeight props)) as (cells & D & N & Z0).
  { intros row Hin. rewrite Forall_forall in R0. rewrite (R0 row Hin). lia. }
  rewrite D. cbn [orThrow bind].
  eexists. exists grid, cells. split; [reflexivity|].
  cbn [core sourceCanvas withSourceCanvas outputCanvas].
  split; [exact E|]. split; [reflexivity|].
  pose proof (len_concat_rows grid _ R0) as C. split.
  - rewrite N, C. reflexivity.
  - intros Hnil. apply Z0. rewrite Hnil in C. unfold len in C at 1. simpl in C.
    unfold len in *. nia.
Qed.

Lemma renderFrame_done (br : Browser Q) (props : ASCIIPreviewProps Q) (p : Preview Q) :
  1 <= originalWidth props ->
  1 <= originalHeight props ->
  (2 <= pixelSize (settings props))%Q ->
  exists p', renderFrame br props p = Done p'.
Proof.
  intros Hw Hh Hp. destruct (contexts br) eqn:Hc.
  - destruct (renderFrame_grid br props p Hc Hw Hh Hp) as (p' & _ & _ & E & _).
    exists p'. exact E.
  - exists p. unfold renderFrame. rewrite Hc. reflexivity.
Qed.

Lemma get_In {A : Type} (a : list A) (i : Z) (v : A) : get a i = Some v -> In v a.
Proof.
  unfold get. destruct (i <? 0); [discriminate|]. apply nth_error_In.
Qed.

(** With decoded frames, a call of [animate] gets through. *)
Lemma animate_done (br : Browser Q) (props : ASCIIPreviewProps Q)
    (frames : list (GifFrame Q)) (timestamp : Q) (p : Preview Q) :
  gifFrames props = Some frames ->
  Forall (fun f => decodedFrame f = true) frames ->
  1 <= originalWidth props ->
  1 <= originalHeight props ->
  (2 <= pixelSize (settings props))%Q ->
  exists p', animate br props timestamp p = Done p'.
Proof.
  intros Hf Hd Hw Hh Hp. unfold animate. rewrite Hf.
  destruct (isAnimatedGif props); cbn [bind]; [|apply renderFrame_done; assumption].
  match goal with
  | |- context [negb ?c] => destruct c
  end; cbn [negb bind]; [apply renderFrame_done; assumption|].
  unfold renderGifFrame. rewrite Hf.
  destruct (get frames (Z.rem (gifFrameIndex p + 1) (len frames))) as [next|] eqn:G;
    cbn [bind]; [|apply renderFrame_done; assumption].
  rewrite Forall_forall in Hd. pose proof (Hd next (get_In _ _ _ G)) as D.
  unfold decodedFrame in D. rewrite D. cbn [bind].
  apply renderFrame_done; assumption.
Qed.

(** X28: In exact arithmetic, on a source of at least one pixel each way and a
    pixel size of at least 2, [renderFrame] always completes: it samples the
    source canvas it has just drawn, keeps what the visible canvas showed,
    paints the background and then makes the calls for the cells, with one
    [fillText] per cell of the sampled grid; nothing follows the background
    when the grid has no cell. *)
Theorem preview_draws_whole_grid (br : Browser Q) (props : ASCIIPreviewProps Q)
    (p : Preview Q) :
  contexts br = true ->
  1 <= originalWidth props ->
  1 <= originalHeight props ->
  (2 <= pixelSize (settings props))%Q ->
  exists p' grid cells,
    renderFrame br props p = Done p' /\
    convertFrameToASCII (sourceCanvas (core p')) (originalWidth props)
      (originalHeight props) (settings props) = Some grid /\
    outputCanvas p' =
      (outputCanvas p
       ++ backgroundOps (settings props) (originalWidth props) (originalHeight props)
       ++ cells)%list /\
    fillTexts cells = len (List.concat grid) /\
    (List.concat grid = [] -> cells = []).
Proof. intros Hc Hw Hh Hp. apply renderFrame_grid; assumption. Qed.

Lemma preview_draws_whole_grid_witness :
  exists p' grid cells,
    renderFrame plainBrowser (twoFrameGif (num := Q) 40%Q 0%Q) (previewAt 0 0%Q)
      = Done p' /\
    convertFrameToASCII (sourceCanvas (core p')) 2 4 (multiplySettings (num := Q))
      = Some grid /\
    outputCanvas p' =
      ([] ++ [SetFillStyle "#0a0a0f"; FillRect 0 0 2 4] ++ cells)%list /\
    fillTexts cells = len (List.concat grid) /\
    (List.concat grid = [] -> cells = []).
Proof.
  apply (preview_draws_whole_grid plainBrowser (twoFrameGif (num := Q) 40%Q 0%Q)
           (previewAt 0 0%Q)).
  - reflexivity.
  - simpl. lia.
  - simpl. lia.
  - vm_compute. discriminate.
Defined.

(** X29: [animate] keeps the index of the frame on show inside the frame list. *)
Theorem animate_keeps_index_in_range {num : Type} `{Number num}
    (br : Browser num) (props : ASCIIPreviewProps num)
    (frames : list (GifFrame num)) (timestamp : num) (p p' : Preview num) :
  gifFrames props = Some frames ->
  0 <= gifFrameIndex p < len frames ->
  animate br props timestamp p = Done p' ->
  0 <= gifFrameIndex p' < len frames.
Proof.
  intros Hf Hi E.
  destruct (animate_index br props frames timestamp p p' Hf E)
    as [[-> _]|(_ & _ & -> & _)]; [exact Hi|].
  apply Z.rem_bound_pos; lia.
Qed.

Lemma animate_keeps_index_in_range_witness :
  exists p',
    animate (num := float) plainBrowser (twoFrameGif (ofZ 40) (ofZ 0)) (ofZ 250)
      (previewAt 1 (ofZ 100)) = Done p' /\
    0 <= gifFrameIndex p' < 2.
Proof.
  eexists. split; [vm_compute; reflexivity|].
  apply (animate_keeps_index_in_range (num := float) plainBrowser
           (twoFrameGif (ofZ 40) (ofZ 0))
           [ {| patch := solidPatch 2 4 100;
                dims := {| top := 0; left := 0; width := 2; height := 4 |};
                delay := ofZ 40; disposalType := 2 |};
             {| patch := solidPatch 2 4 200;
                dims := {| top := 0; left := 0; width := 2; height := 4 |};
                delay := ofZ 0; disposalType := 1 |} ]
           (ofZ 250) (previewAt 1 (ofZ 100))).
  - reflexivity.
  - vm_compute. split; [discriminate | reflexivity].
  - vm_compute. reflexivity.
Defined.

(** X30: The preview shows a GIF frame for the delay the export gives it (its own,
    or 100 ms when that is 0).  In exact arithmetic, with decoded frames, a
    source of at least one pixel each way and a pixel size of at least 2, a
    call of [animate] gets through; before that time has passed it keeps the
    frame and its start time; at or after it, it moves to the next frame,
    the first one after the last, and restarts the clock at the call's
    timestamp. *)
Theorem animate_follows_frame_delay (br : Browser Q) (props : ASCIIPreviewProps Q)
    (frames : list (GifFrame Q)) (frame : GifFrame Q) (timestamp : Q)
    (p : Preview Q) :
  isAnimatedGif props = true ->
  gifFrames props = Some frames ->
  Forall (fun f => decodedFrame f = true) frames ->
  get frames (gifFrameIndex p) = Some frame ->
  1 <= originalWidth props ->
  1 <= originalHeight props ->
  (2 <= pixelSize (settings props))%Q ->
  exists p',
    animate br props timestamp p = Done p' /\
    ((timestamp - lastGifFrameTime p < exportedDelay frame)%Q ->
       gifFrameIndex p' = gifFrameIndex p /\
       lastGifFrameTime p' = lastGifFrameTime p) /\
    ((exportedDelay frame <= timestamp - lastGifFrameTime p)%Q ->
       gifFrameIndex p' = (gifFrameIndex p + 1) mod len frames /\
       lastGifFrameTime p' = timestamp).
Proof.
  intros Ha Hf Hd Hg Hw Hh Hp.
  destruct (animate_done br props frames timestamp p Hf Hd Hw Hh Hp) as [p' E].
  exists p'. split; [exact E|]. split; intros T.
  - apply (animate_waits br props frames timestamp p p' Hf); [|exact E].
    rewrite Hg. apply Qltb_lt. exact T.
  - destruct (animate_steps br props frames timestamp p p' Ha Hf) as [I L];
      [rewrite Hg; apply Qltb_ge; exact T | exact E |].
    split; [|exact L]. rewrite I.
    assert (0 <= gifFrameIndex p < len frames) as B.
    { unfold get in Hg. destruct (gifFrameIndex p <? 0) eqn:Z0; [discriminate|].
      apply Z.ltb_ge in Z0. split; [exact Z0|].
      assert (Z.to_nat (gifFrameIndex p) < List.length frames)%nat
        by (apply nth_error_Some; rewrite Hg; discriminate).
      unfold len. lia. }
    apply Z.rem_mod_nonneg; lia.
Qed.

Lemma animate_follows_frame_delay_witness :
  exists p',
    animate plainBrowser (twoFrameGif (num := Q) 40%Q 0%Q) 199%Q (previewAt 1 100%Q)
      = Done p' /\
    gifFrameIndex p' = 1 /\ lastGifFrameTime p' = 100%Q.
Proof.
  destruct (animate_follows_frame_delay plainBrowser (twoFrameGif (num := Q) 40%Q 0%Q)
              [ {| patch := solidPatch 2 4 100;
                   dims := {| top := 0; left := 0; width := 2; height := 4 |};
                   delay := 40%Q; disposalType := 2 |};
                {| patch := solidPatch 2 4 200;
                   dims := {| top := 0; left := 0; width := 2; height := 4 |};
                   delay := 0%Q; disposalType := 1 |} ]
              {| patch := solidPatch 2 4 200;
                 dims := {| top := 0; left := 0; width := 2; height := 4 |};
                 delay := 0%Q; disposalType := 1 |}
              199%Q (previewAt 1 100%Q))
    as (p' & E & W & _).
  - reflexivity.
  - reflexivity.
  - repeat constructor.
  - reflexivity.
  - simpl. lia.
  - simpl. lia.
  - vm_compute. discriminate.
  - exists p'. split; [exact E|]. apply W. vm_compute. reflexivity.
Defined.

End PreviewLoop.
